(** * UPI transaction details extractor: the field-extraction engine

    A shallow embedding of [upi_extractor/core/extractor.py] (class
    [PaymentExtractor]): the pattern catalog, [_find_match], [_clean_amount],
    [_scan_passbook_lines], [_parse_passbook_details], [parse_details] and
    [extract_all].

    Conventions.
    - A Python [str] is a list of Unicode code points ([str := list N]); string
      literals of the source are written [u8 "..."] (the UTF-8 decoding of the
      literal), so the rupee sign is one character, as in Python.
    - A Python [dict] from field names to strings is a [gmap string str]; field
      names are the source's literals.
    - An exception is a value [Raise msg] of the error monad [M]; [msg] is what
      [str(e)] gives.
    - Character classes: white space is Python's [str.isspace] set; digits,
      letters and case mapping are those of the Basic Latin block, every other
      code point is a caseless symbol (exact for the rupee sign). What is
      stated about digits, letters, word characters or case is stated for
      texts of Basic Latin characters and rupee signs ([plain_text]), on which
      these classes are Python's. *)

From Stdlib Require Import NArith ZArith Lia Ascii String.
From stdpp Require Import base gmap strings list fin_maps sorting pretty.

Local Open Scope N_scope.

(** ** Python strings *)

Abbreviation char := N.
Abbreviation str := (list N).

(** UTF-8 decoding of a literal: [need] continuation bytes are still expected
    for the code point accumulated in [acc]. *)
Fixpoint utf8_go (need : nat) (acc : N) (bs : list N) : str :=
  match bs with
  | [] => []
  | b :: bs' =>
      match need with
      | O =>
          if b <? 128 then b :: utf8_go 0 0 bs'
          else if b <? 224 then utf8_go 1 (b - 192) bs'
          else if b <? 240 then utf8_go 2 (b - 224) bs'
          else utf8_go 3 (b - 240) bs'
      | S n =>
          let acc' := acc * 64 + (b - 128) in
          match n with
          | O => acc' :: utf8_go 0 0 bs'
          | S _ => utf8_go n acc' bs'
          end
      end
  end.

Fixpoint bytes_of_string (s : string) : list N :=
  match s with
  | EmptyString => []
  | String a s' => N_of_ascii a :: bytes_of_string s'
  end.

Definition u8 (s : string) : str := utf8_go 0 0 (bytes_of_string s).

(** [str.isspace] for one character (also the regex class [\s]). *)
Definition is_space (c : char) : bool :=
  ((9 <=? c) && (c <=? 13)) || ((28 <=? c) && (c <=? 32))
  || (c =? 133) || (c =? 160) || (c =? 5760)
  || ((8192 <=? c) && (c <=? 8202))
  || (c =? 8232) || (c =? 8233) || (c =? 8239) || (c =? 8287) || (c =? 12288).

Definition is_digit (c : char) : bool := (48 <=? c) && (c <=? 57).
Definition is_upper (c : char) : bool := (65 <=? c) && (c <=? 90).
Definition is_lower (c : char) : bool := (97 <=? c) && (c <=? 122).
Definition is_alpha (c : char) : bool := is_upper c || is_lower c.
(** The regex class [\w]. *)
Definition is_word (c : char) : bool := is_alpha c || is_digit c || (c =? 95).

Definition lower_char (c : char) : char := if is_upper c then c + 32 else c.
Definition upper_char (c : char) : char := if is_lower c then c - 32 else c.

Definition lower (s : str) : str := map lower_char s.
Definition upper (s : str) : str := map upper_char s.

Fixpoint lstrip (s : str) : str :=
  match s with
  | [] => []
  | c :: s' => if is_space c then lstrip s' else s
  end.

Definition rstrip (s : str) : str := rev (lstrip (rev s)).

(** [s.strip()] *)
Definition strip (s : str) : str := rstrip (lstrip s).

Definition str_eqb (a b : str) : bool := bool_decide (a = b).

(** [s.startswith(p)] *)
Fixpoint startswith (p s : str) : bool :=
  match p, s with
  | [], _ => true
  | _ :: _, [] => false
  | a :: p', b :: s' => (a =? b) && startswith p' s'
  end.

(** [p in s] for strings. *)
Fixpoint contains (p s : str) : bool :=
  startswith p s ||
  match s with
  | [] => false
  | _ :: s' => contains p s'
  end.

(** [s.isdigit()] *)
Definition isdigit (s : str) : bool :=
  match s with
  | [] => false
  | _ => forallb is_digit s
  end.

(** [s.split(sep)] for a one-character separator: [cur] is the reversed piece
    being read. *)
Fixpoint split_go (sep : char) (cur : str) (s : str) : list str :=
  match s with
  | [] => [rev cur]
  | c :: s' =>
      if c =? sep then rev cur :: split_go sep [] s'
      else split_go sep (c :: cur) s'
  end.

Definition split (sep : char) (s : str) : list str := split_go sep [] s.

(** [s.replace(c, '')] for a one-character [c]. *)
Definition remove_char (c : char) (s : str) : str :=
  List.filter (λ x, negb (x =? c)) s.

(** Python truthiness of a string. *)
Definition truthy (s : str) : bool :=
  match s with
  | [] => false
  | _ => true
  end.

Definition NL : char := 10.


(** ** Exceptions *)

(** [Raise msg]: an exception whose [str(e)] is [msg]. *)
Inductive M (A : Type) : Type :=
  | Ok (a : A)
  | Raise (msg : str).
Arguments Ok {A} a.
Arguments Raise {A} msg.

Definition bindM {A B} (x : M A) (f : A → M B) : M B :=
  match x with
  | Ok a => f a
  | Raise e => Raise e
  end.

#[global] Instance M_bind : MBind M := λ A B f x, bindM x f.
#[global] Instance M_ret : MRet M := @Ok.
#[global] Instance M_fmap : FMap M := λ A B f x,
  match x with
  | Ok a => Ok (f a)
  | Raise e => Raise e
  end.

(** A loop [for x in l: d = body(x, d)] whose body may raise. *)
Fixpoint foldM {A S} (body : A → S → M S) (l : list A) (s : S) : M S :=
  match l with
  | [] => Ok s
  | x :: l' => s' ← body x s; foldM body l' s'
  end.

(** ** Regular expressions: the part of Python's [re] the catalog uses *)

Inductive cset_item : Type :=
  | CChar (c : char)
  | CRange (lo hi : char)
  | CDigit
  | CSpace
  | CWord.

Inductive regex : Type :=
  | REmpty
  | RChar (c : char)
  | RAny
  | RSet (neg : bool) (items : list cset_item)
  | RBol
  | REol
  | RWordB
  | RSeq (r1 r2 : regex)
  | RAlt (r1 r2 : regex)
  | RRep (r : regex) (lo : nat) (hi : option nat)
  | RGroup (i : nat) (r : regex)
  | RLook (r : regex).

(** *** Reading a pattern *)

Definition ch (a : ascii) : char := N_of_ascii a.

Definition esc_item (e : char) : cset_item :=
  if e =? ch "d" then CDigit
  else if e =? ch "s" then CSpace
  else if e =? ch "w" then CWord
  else if e =? ch "n" then CChar NL
  else if e =? ch "t" then CChar 9
  else CChar e.

(** The inside of [[...]], after the optional [^]. *)
Fixpoint p_set (s : str) (acc : list cset_item) : option (list cset_item * str) :=
  match s with
  | [] => None
  | c :: s1 =>
      if c =? ch "]" then Some (rev acc, s1)
      else if c =? ch "\" then
        match s1 with
        | [] => None
        | e :: s2 => p_set s2 (esc_item e :: acc)
        end
      else
        match s1 with
        | d :: hi :: s3 =>
            if (d =? ch "-") && negb (hi =? ch "]") && negb (hi =? ch "\")
            then p_set s3 (CRange c hi :: acc)
            else p_set s1 (CChar c :: acc)
        | _ => p_set s1 (CChar c :: acc)
        end
  end.

Fixpoint p_num (s : str) (acc : option nat) : option nat * str :=
  match s with
  | c :: s' =>
      if is_digit c
      then p_num s' (Some (10 * default O acc + N.to_nat (c - 48))%nat)
      else (acc, s)
  | [] => (acc, s)
  end.

(** [{m}], [{m,}], [{m,n}] after the opening brace. *)
Definition p_braces (a : regex) (s : str) : option (regex * str) :=
  match p_num s None with
  | (Some lo, c :: s1) =>
      if c =? ch "}" then Some (RRep a lo (Some lo), s1)
      else if c =? ch "," then
        match p_num s1 None with
        | (hi, c2 :: s2) =>
            if c2 =? ch "}" then Some (RRep a lo hi, s2) else None
        | _ => None
        end
      else None
  | _ => None
  end.

(** A greedy quantifier after the atom [a], if there is one. Lazy and
    possessive suffixes are not read. *)
Definition p_quant (a : regex) (s : str) : option (regex * str) :=
  let no_suffix (res : regex * str) :=
    match res.2 with
    | c :: _ => if (c =? ch "?") || (c =? ch "+") then None else Some res
    | [] => Some res
    end in
  match s with
  | c :: s1 =>
      if c =? ch "?" then no_suffix (RRep a 0 (Some 1%nat), s1)
      else if c =? ch "*" then no_suffix (RRep a 0 None, s1)
      else if c =? ch "+" then no_suffix (RRep a 1 None, s1)
      else if c =? ch "{" then res ← p_braces a s1; no_suffix res
      else Some (a, s)
  | [] => Some (a, s)
  end.

Definition mk_seq (a b : regex) : regex :=
  match b with
  | REmpty => a
  | _ => RSeq a b
  end.

Definition p_escape (e : char) : regex :=
  if e =? ch "d" then RSet false [CDigit]
  else if e =? ch "s" then RSet false [CSpace]
  else if e =? ch "w" then RSet false [CWord]
  else if e =? ch "b" then RWordB
  else if e =? ch "n" then RChar NL
  else if e =? ch "t" then RChar 9
  else RChar e.

Definition p_close (s : str) : option str :=
  match s with
  | c :: s' => if c =? ch ")" then Some s' else None
  | [] => None
  end.

(** Recursive descent; [g] is the number of capturing groups opened so far
    (groups are numbered by their opening parenthesis). *)
Fixpoint p_alt (fuel : nat) (g : nat) (s : str) : option (regex * nat * str) :=
  match fuel with
  | O => None
  | S f =>
      '(r1, g1, s1) ← p_seq f g s;
      match s1 with
      | c :: s2 =>
          if c =? ch "|"
          then '(r2, g2, s3) ← p_alt f g1 s2; Some (RAlt r1 r2, g2, s3)
          else Some (r1, g1, s1)
      | [] => Some (r1, g1, s1)
      end
  end
with p_seq (fuel : nat) (g : nat) (s : str) : option (regex * nat * str) :=
  match fuel with
  | O => None
  | S f =>
      match s with
      | [] => Some (REmpty, g, [])
      | c :: _ =>
          if (c =? ch "|") || (c =? ch ")") then Some (REmpty, g, s)
          else
            '(a, g1, s1) ← p_atom f g s;
            '(q, s2) ← p_quant a s1;
            '(r, g2, s3) ← p_seq f g1 s2;
            Some (mk_seq q r, g2, s3)
      end
  end
with p_atom (fuel : nat) (g : nat) (s : str) : option (regex * nat * str) :=
  match fuel with
  | O => None
  | S f =>
      match s with
      | [] => None
      | c :: s1 =>
          if c =? ch "(" then
            let capture :=
              '(r, g1, s2) ← p_alt f (S g) s1;
              s3 ← p_close s2;
              Some (RGroup (S g) r, g1, s3) in
            match s1 with
            | q :: k :: s2 =>
                if (q =? ch "?") && (k =? ch ":") then
                  '(r, g1, s3) ← p_alt f g s2;
                  s4 ← p_close s3;
                  Some (r, g1, s4)
                else if (q =? ch "?") && (k =? ch "=") then
                  '(r, g1, s3) ← p_alt f g s2;
                  s4 ← p_close s3;
                  Some (RLook r, g1, s4)
                else if q =? ch "?" then None
                else capture
            | _ => capture
            end
          else if c =? ch "[" then
            match s1 with
            | n :: s2 =>
                if n =? ch "^"
                then '(items, s3) ← p_set s2 []; Some (RSet true items, g, s3)
                else '(items, s3) ← p_set s1 []; Some (RSet false items, g, s3)
            | [] => None
            end
          else if c =? ch "\" then
            match s1 with
            | e :: s2 => Some (p_escape e, g, s2)
            | [] => None
            end
          else if c =? ch "." then Some (RAny, g, s1)
          else if c =? ch "^" then Some (RBol, g, s1)
          else if c =? ch "$" then Some (REol, g, s1)
          else if (c =? ch "*") || (c =? ch "+") || (c =? ch "?") then None
          else Some (RChar c, g, s1)
      end
  end.

(** [re.compile(pattern)]; [None] for a pattern this reader does not cover. *)
Definition re_parse (pattern : string) : option regex :=
  let s := u8 pattern in
  match p_alt (4 * length s + 8) 0 s with
  | Some (r, _, []) => Some r
  | _ => None
  end.

(** A pattern that matches nothing stands for an unreadable one. *)
Definition re_compile (pattern : string) : regex :=
  default (RSet false []) (re_parse pattern).

Fixpoint ngroups (r : regex) : nat :=
  match r with
  | RSeq a b | RAlt a b => (ngroups a + ngroups b)%nat
  | RRep a _ _ | RLook a => ngroups a
  | RGroup _ a => S (ngroups a)
  | _ => O
  end.

(** *** Matching *)

(** [re.IGNORECASE] and [re.MULTILINE]. *)
Record flags : Type := Flags { icase : bool; multiline : bool }.

Definition NOFLAGS : flags := Flags false false.
Definition IGNORECASE : flags := Flags true false.
Definition IGNORECASE_MULTILINE : flags := Flags true true.

(** A position in the subject: [pos] characters read, the last of them [prev],
    [rest] still to read; [caps] are the groups closed so far (newest first). *)
Record mstate : Type := MState {
  pos : nat;
  prev : option char;
  rest : str;
  caps : list (nat * str)
}.

Definition advance (st : mstate) (c : char) (s' : str) : mstate :=
  MState (S (pos st)) (Some c) s' (caps st).

Definition item_has (it : cset_item) (c : char) : bool :=
  match it with
  | CChar x => c =? x
  | CRange lo hi => (lo <=? c) && (c <=? hi)
  | CDigit => is_digit c
  | CSpace => is_space c
  | CWord => is_word c
  end.

Definition set_has (items : list cset_item) (c : char) : bool :=
  existsb (λ it, item_has it c) items.

Definition set_matches (fl : flags) (neg : bool) (items : list cset_item) (c : char) : bool :=
  xorb neg
    (if icase fl
     then set_has items (lower_char c) || set_has items (upper_char c)
     else set_has items c).

Definition char_matches (fl : flags) (c x : char) : bool :=
  if icase fl then lower_char c =? lower_char x else c =? x.

Definition at_bol (fl : flags) (st : mstate) : bool :=
  match prev st with
  | None => true
  | Some c => multiline fl && (c =? NL)
  end.

Definition at_eol (fl : flags) (st : mstate) : bool :=
  match rest st with
  | [] => true
  | c :: s' =>
      (c =? NL) && (multiline fl || match s' with [] => true | _ => false end)
  end.

Definition at_wordb (st : mstate) : bool :=
  xorb (from_option is_word false (prev st))
       (from_option is_word false (head (rest st))).

Definition under (hi : option nat) (cnt : nat) : bool :=
  match hi with
  | None => true
  | Some h => (cnt <? h)%nat
  end.

Definition one_char (p : char → bool) (st : mstate) (k : mstate → option mstate) : option mstate :=
  match rest st with
  | x :: s' => if p x then k (advance st x s') else None
  | [] => None
  end.

(** A greedy quantifier: [mr] matches the quantified expression once, [cnt]
    repetitions are behind [st0]. One more repetition is tried first; a
    repetition past the required [lo] must read at least one character. *)
Fixpoint rep_loop (mr : mstate → (mstate → option mstate) → option mstate)
    (lo : nat) (hi : option nat) (k : mstate → option mstate)
    (fuel cnt : nat) (st0 : mstate) {struct fuel} : option mstate :=
  match fuel with
  | O => None
  | S f =>
      let more :=
        if under hi cnt
        then mr st0 (λ st1,
               if (pos st0 <? pos st1)%nat || (cnt <? lo)%nat
               then rep_loop mr lo hi k f (S cnt) st1 else None)
        else None in
      match more with
      | Some e => Some e
      | None => if (lo <=? cnt)%nat then k st0 else None
      end
  end.

(** Backtracking matcher in continuation-passing style: [re_m fl r st k] is the
    first way (in the engine's order: alternatives left to right, quantifiers
    greedy) to match [r] at [st] such that the continuation [k] succeeds. *)
Fixpoint re_m (fl : flags) (r : regex) (st : mstate) (k : mstate → option mstate)
    {struct r} : option mstate :=
  match r with
  | REmpty => k st
  | RChar c => one_char (char_matches fl c) st k
  | RAny => one_char (λ x, negb (x =? NL)) st k
  | RSet neg items => one_char (set_matches fl neg items) st k
  | RBol => if at_bol fl st then k st else None
  | REol => if at_eol fl st then k st else None
  | RWordB => if at_wordb st then k st else None
  | RSeq r1 r2 => re_m fl r1 st (λ st1, re_m fl r2 st1 k)
  | RAlt r1 r2 =>
      match re_m fl r1 st k with
      | Some e => Some e
      | None => re_m fl r2 st k
      end
  | RRep r1 lo hi =>
      rep_loop (re_m fl r1) lo hi k (S (length (rest st)) + lo)%nat O st
  | RGroup i r1 =>
      re_m fl r1 st (λ st1,
        k (MState (pos st1) (prev st1) (rest st1)
             ((i, take (pos st1 - pos st) (rest st)) :: caps st1)))
  | RLook r1 =>
      match re_m fl r1 st Some with
      | Some e => k (MState (pos st) (prev st) (rest st) (caps e))
      | None => None
      end
  end.

(** A match object: where it starts and where it ends. *)
Record rmatch : Type := RMatch { m_begin : mstate; m_end : mstate }.

(** [match.group(0)] *)
Definition group0 (mt : rmatch) : str :=
  take (pos (m_end mt) - pos (m_begin mt)) (rest (m_begin mt)).

(** [match.group(i)] for [i >= 1]; [None] when the group took no part. *)
Fixpoint cap_lookup (i : nat) (cs : list (nat * str)) : option str :=
  match cs with
  | [] => None
  | (j, v) :: cs' => if (j =? i)%nat then Some v else cap_lookup i cs'
  end.

Definition group (i : nat) (mt : rmatch) : option str :=
  cap_lookup i (caps (m_end mt)).

Definition match_at (fl : flags) (r : regex) (p : nat) (pv : option char) (s : str) : option rmatch :=
  let st := MState p pv s [] in
  RMatch st <$> re_m fl r st Some.

(** [re.match(r, text, flags)] *)
Definition re_match (fl : flags) (r : regex) (text : str) : option rmatch :=
  match_at fl r 0 None text.

Fixpoint search_go (fl : flags) (r : regex) (p : nat) (pv : option char) (s : str) : option rmatch :=
  match match_at fl r p pv s with
  | Some mt => Some mt
  | None =>
      match s with
      | [] => None
      | c :: s' => search_go fl r (S p) (Some c) s'
      end
  end.

(** [re.search(r, text, flags)] *)
Definition re_search (fl : flags) (r : regex) (text : str) : option rmatch :=
  search_go fl r 0 None text.

(** The successive non-overlapping matches, left to right; after an empty match
    the scan moves on by one character. *)
Fixpoint scan_go (fl : flags) (r : regex) (fuel : nat) (p : nat) (pv : option char) (s : str) : list rmatch :=
  match fuel with
  | O => []
  | S f =>
      match search_go fl r p pv s with
      | None => []
      | Some mt =>
          let e := m_end mt in
          mt ::
          (if (pos (m_begin mt) <? pos e)%nat
           then scan_go fl r f (pos e) (prev e) (rest e)
           else match rest e with
                | [] => []
                | c :: s' => scan_go fl r f (S (pos e)) (Some c) s'
                end)
      end
  end.

(** [re.findall(r, text, flags)] for a pattern with at most one group: the
    group's text (the empty string when it took no part), or the whole match
    when the pattern has no group. *)
Definition re_findall (fl : flags) (r : regex) (text : str) : list str :=
  (λ mt, if ngroups r is O then group0 mt else default [] (group 1 mt))
    <$> scan_go fl r (S (length text)) 0 None text.

(** [re.sub(r, repl, text, flags=fl)] for a replacement without back
    references: [p] characters of the subject are behind [s]. *)
Fixpoint sub_go (fl : flags) (r : regex) (repl : str) (fuel : nat) (p : nat) (pv : option char) (s : str) : str :=
  match fuel with
  | O => s
  | S f =>
      match search_go fl r p pv s with
      | None => s
      | Some mt =>
          let b := m_begin mt in
          let e := m_end mt in
          take (pos b - p) s ++ repl ++
          (if (pos b <? pos e)%nat
           then sub_go fl r repl f (pos e) (prev e) (rest e)
           else match rest e with
                | [] => []
                | c :: s' => c :: sub_go fl r repl f (S (pos e)) (Some c) s'
                end)
      end
  end.

Definition re_sub (fl : flags) (r : regex) (repl : str) (text : str) : str :=
  sub_go fl r repl (S (length text)) 0 None text.

(** ** Python's [float(s)]: does the string parse?

    [digits_tail] reads the rest of a digit part (digits, single underscores
    between digits) after its first digit. *)
Fixpoint digits_tail (s : str) : str :=
  match s with
  | [] => []
  | c :: s' =>
      if is_digit c then digits_tail s'
      else if c =? ch "_" then
        match s' with
        | d :: s'' => if is_digit d then digits_tail s'' else s
        | [] => s
        end
      else s
  end.

Definition digitpart (s : str) : option str :=
  match s with
  | c :: s' => if is_digit c then Some (digits_tail s') else None
  | [] => None
  end.

Definition skip_sign (s : str) : str :=
  match s with
  | c :: s' => if (c =? ch "+") || (c =? ch "-") then s' else s
  | [] => s
  end.

(** A decimal literal with an optional exponent: [digitpart], [digitpart.],
    [digitpart.digitpart] or [.digitpart], then [e] or [E], an optional sign
    and a [digitpart]. *)
Definition float_number (s : str) : bool :=
  let after_mantissa :=
    match digitpart s with
    | Some r =>
        match r with
        | c :: r' => if c =? ch "." then Some (default r' (digitpart r')) else Some r
        | [] => Some r
        end
    | None =>
        match s with
        | c :: r' => if c =? ch "." then digitpart r' else None
        | [] => None
        end
    end in
  match after_mantissa with
  | None => false
  | Some [] => true
  | Some (c :: r) =>
      if (c =? ch "e") || (c =? ch "E")
      then match digitpart (skip_sign r) with
           | Some [] => true
           | _ => false
           end
      else false
  end.

(** [true] when [float(s)] returns, [false] when it raises [ValueError]:
    white space around, a sign, then infinity, nan or a number. *)
Definition float_ok (s : str) : bool :=
  let s := skip_sign (strip s) in
  let l := lower s in
  if str_eqb l (u8 "inf") || str_eqb l (u8 "infinity") || str_eqb l (u8 "nan")
  then true
  else float_number s.

(** ** Dictionaries *)

Abbreviation dict := (gmap string str).

(** [d[k]]: raises [KeyError] for a missing key ([str(e)] is the key's repr). *)
Definition item (d : dict) (k : string) : M str :=
  match d !! k with
  | Some v => Ok v
  | None => Raise (u8 "'" ++ u8 k ++ u8 "'")
  end.

(** Truthiness of [d.get(k)]. *)
Definition get_truthy (d : dict) (k : string) : bool :=
  from_option truthy false (d !! k).

(** ** The pattern catalog ([PaymentExtractor.__init__]) *)

(** [self.patterns]: UPI screenshot patterns. *)
Definition patterns : gmap string (list string) :=
  list_to_map [
    ("amount", [
       "[₹Rs]\.?\s*([\d,]+\.?\d{0,2})";
       "Amount\s*[:\-]?\s*[₹Rs]?\.?\s*([\d,]+\.?\d{0,2})";
       "Paid\s*[₹Rs]?\.?\s*([\d,]+\.?\d{0,2})";
       "Total\s*Payable\s*[:\-]?\s*[₹Rs]?\.?\s*([\d,]+\.?\d{0,2})";
       "^\s*[₹Rs]\.?\s*([\d,]+\.?\d{0,2})\s*$"
     ]);
    ("upi_id", [
       "([a-zA-Z0-9\.\-_]+@[a-zA-Z]+)";
       "UPI\s*ID\s*[:\-]?\s*([a-zA-Z0-9\.\-_]+@[a-zA-Z]+)";
       "VPA\s*[:\-]?\s*([a-zA-Z0-9\.\-_]+@[a-zA-Z]+)"
     ]);
    ("txn_id", [
       "Txn\s*ID\s*[:\-]?\s*(\w+)";
       "Transaction\s*ID\s*[:\-]?\s*(\w+)";
       "UPI\s*Ref\s*No\s*[:\-]?\s*(\d+)";
       "Ref\s*No\s*[:\-]?\s*(\d+)";
       "UTR\s*[:\-]?\s*(\d+)";
       "Google\s*Transaction\s*ID\s*[:\-]?\s*([\w\-]+)";
       "Debited\s*from\s*[:\-]?\s*(\w+)"
     ]);
    ("date", [
       "(\d{1,2}\s+[A-Za-z]{3,}\s+\d{4})";
       "(\d{1,2}[/-]\d{1,2}[/-]\d{2,4})";
       "(\d{4}-\d{2}-\d{2})"
     ]);
    ("time", [
       "(\d{1,2}:\d{2}\s*[APap][Mm])";
       "(\d{1,2}:\d{2})"
     ]);
    ("status", [
       "(SUCCESS|FAILED|PENDING|PROCESSING|COMPLETED)";
       "Payment\s*(Successful|Failed|Pending|Processing|Completed)";
       "Transaction\s*(Successful|Failed|Pending)"
     ])
  ].

(** [self.passbook_patterns]: same-line [label: value] pairs. *)
Definition passbook_patterns : gmap string (list string) :=
  list_to_map [
    ("account_holder", [
       "(?:Account|A/?c)\s*Holder\s*Name\s*[:\-]?\s*(.+)";
       "(?:Account|A/?c)\s*Holder\s*[:\-]\s*(.+)";
       "Name\s*of\s*(?:Account\s*)?Holder\s*[:\-]?\s*(.+)";
       "Holder\s*Name\s*[:\-]?\s*(.+)";
       "Customer\s*(?:Name)?\s*[:\-]\s*(.+)";
       "(?:^|\n)\s*Name\s*[:\-]\s*(.+)";
       "(?:Mr|Mrs|Ms|Shri|Smt|Sri)\.?\s+([A-Za-z][A-Za-z .]{2,})"
     ]);
    ("account_number", [
       "(?:A/?c|Account|Acct)\s*(?:No\.?|Number|Num|#)\s*[:\-.]?\s*(\d[\d\s\-]{6,}\d)";
       "(?:Savings|Current)\s*(?:A/?c|Account)\s*[:\-]?\s*(\d[\d\s\-]{6,}\d)";
       "A/?[Cc]\s*[:\-.]?\s*(\d{9,18})"
     ]);
    ("account_type", [
       "\b(Savings|Current|Fixed\s*Deposit|Recurring\s*Deposit)\b\s*(?:Account|A/?c|Bank)?";
       "\b(SB|CA|FD|RD)\b\s*(?:Account|A/?c)"
     ]);
    ("bank_name", [
       "(?:^|\n|\s)((?:State\s*Bank\s*of\s*India|SBI|HDFC\s*Bank|ICICI\s*Bank|"
       +:+ "Axis\s*Bank|Kotak\s*(?:Mahindra)?|PNB|BOB|Bank\s*of\s*Baroda|"
       +:+ "Union\s*Bank(?:\s*of\s*India)?|Canara\s*Bank|Indian\s*Bank|BOI|Bank\s*of\s*India|"
       +:+ "Central\s*Bank|IDBI\s*Bank|Yes\s*Bank|IndusInd\s*Bank|Federal\s*Bank|"
       +:+ "South\s*Indian\s*Bank|Bandhan\s*Bank|RBL\s*Bank|UCO\s*Bank|"
       +:+ "Punjab\s*National\s*Bank|Indian\s*Overseas\s*Bank|"
       +:+ "Allahabad\s*Bank|Dena\s*Bank|Syndicate\s*Bank|Oriental\s*Bank|"
       +:+ "Corporation\s*Bank|Andhra\s*Bank|Vijaya\s*Bank|"
       +:+ "Karnataka\s*Bank|Karur\s*Vysya|City\s*Union\s*Bank|"
       +:+ "Tamilnad\s*Mercantile|Dhanlaxmi\s*Bank|Lakshmi\s*Vilas|"
       +:+ "Nainital\s*Bank|Jammu\s*&?\s*Kashmir\s*Bank|"
       +:+ "Bank\s*of\s*Maharashtra|IDFC\s*First)"
       +:+ "(?:\s*(?:Bank|Ltd|Limited))?)(?=[\s,.\n]|$)"
     ]);
    ("branch_name", [
       "Branch\s*(?:Name)?\s*[:\-]\s*(.+)";
       "Branch\s*(?:Name)?\s*[:\-]?\s*(.{3,})"
     ]);
    ("ifsc_code", [
       "IFSC\s*(?:Code)?\s*[:\-]?\s*([A-Z]{4}0[A-Z0-9]{6})";
       "(?:^|[\s:])([A-Z]{4}0[A-Z0-9]{6})(?:\s|$)"
     ]);
    ("micr_code", [
       "MICR\s*(?:Code|No\.?)?\s*[:\-]?\s*(\d{9})\b"
     ]);
    ("cif_number", [
       "(?:CIF|CIF\s*(?:No\.?|Number|ID))\s*[:\-]?\s*(\d{6,})";
       "Customer\s*(?:ID|Id)\s*[:\-]?\s*(\d{6,})"
     ]);
    ("nomination", [
       "Nominat(?:ion|ee)\s*[:\-]?\s*(.+)"
     ]);
    ("joint_holder", [
       "(?:Joint\s*(?:Holder|Account\s*Holder|Name))\s*[:\-]?\s*(.+)"
     ]);
    ("address", [
       "(?:Address|Addr\.?)\s*[:\-]\s*(.+)"
     ]);
    ("mobile_number", [
       "(?:Mobile|Phone|Contact|Mob\.?)\s*(?:No\.?|Number)?\s*[:\-]?\s*(\+?\d[\d\s\-]{8,}\d)"
     ]);
    ("date_of_opening", [
       "(?:Date\s*of\s*(?:Opening|Open)|Opened?\s*(?:on|Date)|DOO)\s*[:\-]?\s*(\d{1,2}[/-]\d{1,2}[/-]\d{2,4})";
       "(?:Date\s*of\s*(?:Opening|Open)|Opened?\s*(?:on|Date)|DOO)\s*[:\-]?\s*(\d{1,2}\s+[A-Za-z]{3,9}\s+\d{4})"
     ]);
    ("credit_amount", [
       "(?:Credit|Credited)\s*[:\-]?\s*[₹Rs]?\.?\s*([\d,]+\.\d{1,2})";
       "(?:Credit|Credited)\s*[:\-]?\s*[₹Rs]?\.?\s*([\d,]+)";
       "(?:Deposit)\s*[:\-]?\s*[₹Rs]?\.?\s*([\d,]+\.?\d{0,2})";
       "[₹Rs]\.?\s*([\d,]+\.?\d{0,2})\s*(?:Cr|Credit)"
     ]);
    ("debit_amount", [
       "(?:Debit|Debited|Dr)\s*[:\-]?\s*[₹Rs]?\.?\s*([\d,]+\.\d{1,2})";
       "(?:Debit|Debited|Dr)\s*[:\-]?\s*[₹Rs]?\.?\s*([\d,]+)";
       "(?:Withdrawal|Withdraw)\s*[:\-]?\s*[₹Rs]?\.?\s*([\d,]+\.?\d{0,2})";
       "[₹Rs]\.?\s*([\d,]+\.?\d{0,2})\s*(?:Dr|Debit)"
     ]);
    ("balance", [
       "(?:Available|Avl\.?)\s*Bal(?:ance)?\.?\s*[:\-]?\s*[₹Rs]?\.?\s*([\d,]+\.\d{1,2})";
       "(?:Available|Avl\.?)\s*Bal(?:ance)?\.?\s*[:\-]?\s*[₹Rs]?\.?\s*([\d,]+)";
       "Balance\s*[:\-]?\s*[₹Rs]?\.?\s*([\d,]+\.\d{1,2})";
       "Balance\s*[:\-]?\s*[₹Rs]?\.?\s*([\d,]+)"
     ]);
    ("opening_balance", [
       "(?:Opening|Open(?:ing)?\.?)\s*Bal(?:ance)?\.?\s*[:\-]?\s*[₹Rs]?\.?\s*([\d,]+\.?\d{0,2})";
       "Op\.?\s*Bal\.?\s*[:\-]?\s*[₹Rs]?\.?\s*([\d,]+\.?\d{0,2})"
     ]);
    ("closing_balance", [
       "(?:Closing|Clos(?:ing)?\.?)\s*Bal(?:ance)?\.?\s*[:\-]?\s*[₹Rs]?\.?\s*([\d,]+\.?\d{0,2})";
       "Cl\.?\s*Bal\.?\s*[:\-]?\s*[₹Rs]?\.?\s*([\d,]+\.?\d{0,2})"
     ]);
    ("cheque_number", [
       "(?:Cheque|Chq|CHQ)\s*(?:No\.?|Number|#)?\s*[:\-]?\s*(\d{6,})"
     ]);
    ("narration", [
       "(?:Narration|Description|Particulars|Remark|Details)\s*[:\-]?\s*(.+)"
     ]);
    ("transaction_type", [
       "\b(NEFT|RTGS|IMPS|UPI|ATM|POS|ECS|NACH|CASH|CHQ|FT|TRANSFER)\b";
       "(?:Mode|Type|Channel)\s*[:\-]?\s*(NEFT|RTGS|IMPS|UPI|ATM|POS|ECS|NACH)"
     ]);
    ("date", [
       "(?:Date|Dt|Txn\s*Date|Value\s*Date)\s*[:\-]?\s*(\d{1,2}[/-]\d{1,2}[/-]\d{2,4})";
       "(\d{1,2}\s+[A-Za-z]{3,9}\s+\d{4})";
       "(\d{1,2}[/-]\d{1,2}[/-]\d{2,4})";
       "(\d{4}-\d{2}-\d{2})"
     ]);
    ("reference_number", [
       "(?:Ref|Reference)\s*(?:No\.?|Number|ID|#)?\s*[:\-]?\s*(\d{8,})";
       "UTR\s*(?:No\.?)?\s*[:\-]?\s*(\d{8,})";
       "(?:Txn|Transaction)\s*(?:No\.?|ID|#)\s*[:\-]?\s*(\w{8,})"
     ])
  ].

(** [self._passbook_multiline_labels]: (label pattern, field, value pattern). *)
Definition passbook_multiline_labels : list (string * string * string) := [
  ("(?:A/?c|Account|Acct)\s*(?:No\.?|Number|Num|#)\s*[:\-.]?\s*$",
   "Account Number", "^\s*(\d[\d\s\-]{6,}\d)\s*$");
  ("(?:Account|A/?c)\s*(?:Holder|Holder\s*Name)\s*[:\-]?\s*$",
   "Account Holder", "^\s*(.{2,})\s*$");
  ("(?:Customer)\s*(?:Name)?\s*[:\-]?\s*$",
   "Account Holder", "^\s*(.{2,})\s*$");
  ("(?:Holder)\s*(?:Name)?\s*[:\-]?\s*$",
   "Account Holder", "^\s*(.{2,})\s*$");
  ("^\s*Name\s*[:\-]?\s*$",
   "Account Holder", "^\s*([A-Za-z].*)\s*$");
  ("(?:Branch)\s*(?:Name)?\s*[:\-]?\s*$",
   "Branch Name", "^\s*(.{3,})\s*$");
  ("IFSC\s*(?:Code)?\s*[:\-]?\s*$",
   "IFSC Code", "^\s*([A-Z]{4}0[A-Z0-9]{6})\s*$");
  ("MICR\s*(?:Code|No\.?)?\s*[:\-]?\s*$",
   "MICR Code", "^\s*(\d{9})\s*$");
  ("(?:Balance|Bal\.?)\s*[:\-]?\s*$",
   "Balance (₹)", "^\s*[₹Rs]?\.?\s*([\d,]+\.?\d{0,2})\s*$");
  ("(?:Ref|Reference)\s*(?:No\.?|Number|ID)?\s*[:\-]?\s*$",
   "Reference Number", "^\s*(\d{8,})\s*$");
  ("(?:CIF|Customer\s*ID)\s*(?:No\.?|Number)?\s*[:\-]?\s*$",
   "CIF Number", "^\s*(\d{6,})\s*$");
  ("Nominat(?:ion|ee)\s*[:\-]?\s*$",
   "Nomination", "^\s*(.{2,})\s*$");
  ("(?:Address|Addr\.?)\s*[:\-]?\s*$",
   "Address", "^\s*(.{3,})\s*$");
  ("(?:Joint)\s*(?:Holder|Account\s*Holder|Name)\s*[:\-]?\s*$",
   "Joint Holder", "^\s*(.{2,})\s*$");
  ("(?:Mobile|Phone|Contact|Mob\.?)\s*(?:No\.?|Number)?\s*[:\-]?\s*$",
   "Mobile Number", "^\s*(\+?\d[\d\s\-]{8,}\d)\s*$");
  ("(?:Date\s*of\s*(?:Opening|Open)|Opened?\s*(?:on|Date)|DOO)\s*[:\-]?\s*$",
   "Date of Opening", "^\s*(\d{1,2}[/-]\d{1,2}[/-]\d{2,4})\s*$");
  ("(?:Narration|Particulars|Remark)\s*[:\-]?\s*$",
   "Narration", "^\s*(.{3,})\s*$");
  ("(?:Cheque|Chq)\s*(?:No\.?|Number)?\s*[:\-]?\s*$",
   "Cheque Number", "^\s*(\d{6,})\s*$")
].

(** ** Common helpers *)

(** What [None.strip()] raises. *)
Definition ATTRIBUTE_ERROR : str := u8 "'NoneType' object has no attribute 'strip'".
(** What [match.group(1)] raises for a pattern without groups. *)
Definition INDEX_ERROR : str := u8 "no such group".

(** [match.group(1).strip()] *)
Definition group1_strip (r : regex) (mt : rmatch) : M str :=
  if ngroups r is O then Raise INDEX_ERROR
  else match group 1 mt with
       | Some g => Ok (strip g)
       | None => Raise ATTRIBUTE_ERROR
       end.

(** [match.group(1).strip() if match.groups() else match.group(0).strip()] *)
Definition matched_value (r : regex) (mt : rmatch) : M str :=
  if ngroups r is O then Ok (strip (group0 mt)) else group1_strip r mt.

(** The loop of [_find_match] over the patterns of one group. *)
Fixpoint first_match (pats : list string) (text : str) : M str :=
  match pats with
  | [] => Ok []
  | pattern :: pats' =>
      match re_search IGNORECASE_MULTILINE (re_compile pattern) text with
      | Some mt => matched_value (re_compile pattern) mt
      | None => first_match pats' text
      end
  end.

(** [(pattern_dict or self.patterns).get(pattern_key, [])] *)
Definition rules_of (pattern_key : string)
    (pattern_dict : option (gmap string (list string))) : list string :=
  let d := match pattern_dict with
           | Some d => if bool_decide (d = ∅) then patterns else d
           | None => patterns
           end in
  default [] (d !! pattern_key).

(** [_find_match(pattern_key, text, pattern_dict=None)] *)
Definition find_match (pattern_key : string) (text : str)
    (pattern_dict : option (gmap string (list string))) : M str :=
  first_match (rules_of pattern_key pattern_dict) text.

(** [_clean_amount(raw)] *)
Definition clean_amount (raw : str) : str :=
  if negb (truthy raw) then []
  else
    let clean := re_sub NOFLAGS (re_compile "[^\d\.]") [] raw in
    if float_ok clean then clean else raw.

(** ** Passbook extraction *)

(** [_get_next_nonempty(i)], on the lines after line [i]. *)
Fixpoint next_nonempty (after : list str) : str :=
  match after with
  | [] => []
  | l :: after' => if truthy (strip l) then strip l else next_nonempty after'
  end.

(** One (label, field, value) triple tried on one line. *)
Definition scan_label (line next_line : str) (t : string * string * string)
    (details : dict) : M dict :=
  let '(label_re, field_key, value_re) := t in
  if get_truthy details field_key then Ok details
  else
    match re_search IGNORECASE (re_compile label_re) line with
    | None => Ok details
    | Some _ =>
        if truthy next_line then
          match re_match IGNORECASE (re_compile value_re) next_line with
          | None => Ok details
          | Some val_match =>
              v ← group1_strip (re_compile value_re) val_match;
              Ok (<[field_key := v]> details)
          end
        else Ok details
    end.

(** The standalone account number and IFSC recognisers on one line. Group 1 is
    the whole digit run, resp. the whole code: it takes part in every match. *)
Definition scan_standalone (line : str) (details : dict) : dict :=
  let d1 :=
    if get_truthy details "Account Number" then details
    else
      match re_match NOFLAGS (re_compile "^\s*(\d{9,18})\s*$") line with
      | Some acc_match => <["Account Number" := default [] (group 1 acc_match)]> details
      | None => details
      end in
  if get_truthy d1 "IFSC Code" then d1
  else
    match re_match NOFLAGS (re_compile "^\s*([A-Z]{4}0[A-Z0-9]{6})\s*$") line with
    | Some ifsc_match =>
        let val := default [] (group 1 ifsc_match) in
        if bool_decide (Some val ≠ d1 !! "MICR Code")
        then <["IFSC Code" := val]> d1
        else d1
    | None => d1
    end.

(** The [for i, line in enumerate(lines)] loop; [after] are the lines behind
    line [i]. *)
Fixpoint scan_lines (lines : list str) (details : dict) : M dict :=
  match lines with
  | [] => Ok details
  | line :: after =>
      if truthy line then
        d1 ← foldM (scan_label line (next_nonempty after)) passbook_multiline_labels details;
        scan_lines after (scan_standalone line d1)
      else scan_lines after details
  end.

(** [_scan_passbook_lines(text, details)]; the dictionary modified in place is
    returned. *)
Definition scan_passbook_lines (text : str) (details : dict) : M dict :=
  scan_lines (strip <$> split NL text) details.

(** Pass 1 of [_parse_passbook_details]: the dictionary literal. *)
Definition passbook_pass1 (text filename : str) : M dict :=
  let pb := Some passbook_patterns in
  bank_name ← find_match "bank_name" text pb;
  account_holder ← find_match "account_holder" text pb;
  account_number ← find_match "account_number" text pb;
  account_type ← find_match "account_type" text pb;
  ifsc_code ← find_match "ifsc_code" text pb;
  micr_code ← find_match "micr_code" text pb;
  branch_name ← find_match "branch_name" text pb;
  cif_number ← find_match "cif_number" text pb;
  date_of_opening ← find_match "date_of_opening" text pb;
  nomination ← find_match "nomination" text pb;
  joint_holder ← find_match "joint_holder" text pb;
  address ← find_match "address" text pb;
  mobile_number ← find_match "mobile_number" text pb;
  date ← find_match "date" text pb;
  transaction_type ← find_match "transaction_type" text pb;
  narration ← find_match "narration" text pb;
  reference_number ← find_match "reference_number" text pb;
  cheque_number ← find_match "cheque_number" text pb;
  credit_amount ← find_match "credit_amount" text pb;
  debit_amount ← find_match "debit_amount" text pb;
  balance ← find_match "balance" text pb;
  opening_balance ← find_match "opening_balance" text pb;
  closing_balance ← find_match "closing_balance" text pb;
  Ok (list_to_map [
    ("File Name", filename);
    ("Bank Name", bank_name);
    ("Account Holder", account_holder);
    ("Account Number", account_number);
    ("Account Type", account_type);
    ("IFSC Code", ifsc_code);
    ("MICR Code", micr_code);
    ("Branch Name", branch_name);
    ("CIF Number", cif_number);
    ("Date of Opening", date_of_opening);
    ("Nomination", nomination);
    ("Joint Holder", joint_holder);
    ("Address", address);
    ("Mobile Number", mobile_number);
    ("Date", date);
    ("Transaction Type", transaction_type);
    ("Narration", narration);
    ("Reference Number", reference_number);
    ("Cheque Number", cheque_number);
    ("Credit (₹)", clean_amount credit_amount);
    ("Debit (₹)", clean_amount debit_amount);
    ("Balance (₹)", clean_amount balance);
    ("Opening Balance (₹)", clean_amount opening_balance);
    ("Closing Balance (₹)", clean_amount closing_balance);
    ("All Extracted Text", strip text)
  ]).

Definition type_map : gmap str str :=
  list_to_map [
    (u8 "SB", u8 "Savings"); (u8 "SAVINGS", u8 "Savings");
    (u8 "CA", u8 "Current"); (u8 "CURRENT", u8 "Current");
    (u8 "FD", u8 "Fixed Deposit"); (u8 "FIXED DEPOSIT", u8 "Fixed Deposit");
    (u8 "RD", u8 "Recurring Deposit"); (u8 "RECURRING DEPOSIT", u8 "Recurring Deposit")
  ].

(** [re.sub(r'[\s\-]', '', v)] *)
Definition strip_seps (v : str) : str :=
  re_sub NOFLAGS (re_compile "[\s\-]") [] v.

(** The post-processing steps of [_parse_passbook_details], one by one. *)
Definition post_account_number (details : dict) : M dict :=
  v ← item details "Account Number";
  if truthy v then Ok (<["Account Number" := strip_seps v]> details) else Ok details.

Definition post_account_type (details : dict) : M dict :=
  v ← item details "Account Type";
  let acc_type := if truthy v then upper v else [] in
  match type_map !! acc_type with
  | Some full => Ok (<["Account Type" := full]> details)
  | None => Ok details
  end.

Definition post_ifsc_micr (details : dict) : M dict :=
  ifsc ← item details "IFSC Code";
  if truthy ifsc then
    micr ← item details "MICR Code";
    if truthy micr && str_eqb ifsc micr
    then Ok (<["MICR Code" := []]> details)
    else Ok details
  else Ok details.

Definition post_balance (details : dict) : dict :=
  let bal := default [] (details !! "Balance (₹)") in
  if truthy bal && (length (remove_char (ch ",") (remove_char (ch ".") bal)) =? 9)%nat then
    if str_eqb bal (remove_char (ch " ") (default [] (details !! "MICR Code")))
    then <["Balance (₹)" := []]> details
    else details
  else details.

Definition post_mobile (details : dict) : dict :=
  if get_truthy details "Mobile Number"
  then <["Mobile Number" := strip_seps (default [] (details !! "Mobile Number"))]> details
  else details.

Definition passbook_post (details : dict) : M dict :=
  d1 ← post_account_number details;
  d2 ← post_account_type d1;
  d3 ← post_ifsc_micr d2;
  Ok (post_mobile (post_balance d3)).

(** [_parse_passbook_details(text, filename)] *)
Definition parse_passbook_details (text filename : str) : M dict :=
  details ← passbook_pass1 text filename;
  details ← scan_passbook_lines text details;
  passbook_post details.

(** ** UPI screenshot extraction *)

(** The initial dictionary of [parse_details]. *)
Definition screenshot_init (text filename : str) : dict :=
  list_to_map [
    ("File Name", filename);
    ("UPI Transaction ID", []);
    ("Google Transaction ID", []);
    ("Reference ID", []);
    ("From (Sender)", []);
    ("To (Receiver)", []);
    ("UPI ID / VPA", []);
    ("Bank Name", []);
    ("Amount", []);
    ("Payment Status", []);
    ("Date", []);
    ("Time", []);
    ("Transaction Note", []);
    ("All Extracted Text", strip text)
  ].

(** Amount, UPI id, date, time and payment status: the inline rules. *)
Definition screenshot_inline (text : str) (details : dict) : M dict :=
  amount ← find_match "amount" text None;
  let details := <["Amount" := clean_amount amount]> details in
  upi_id ← find_match "upi_id" text None;
  let details := <["UPI ID / VPA" := upi_id]> details in
  date ← find_match "date" text None;
  let details := <["Date" := date]> details in
  time ← find_match "time" text None;
  let details := <["Time" := time]> details in
  status_raw ← upper <$> find_match "status" text None;
  if contains (u8 "SUCCESS") status_raw || contains (u8 "COMPLETED") status_raw
  then Ok (<["Payment Status" := u8 "SUCCESS"]> details)
  else if contains (u8 "FAIL") status_raw
  then Ok (<["Payment Status" := u8 "FAILED"]> details)
  else if contains (u8 "PENDING") status_raw || contains (u8 "PROCESSING") status_raw
  then Ok (<["Payment Status" := u8 "PENDING"]> details)
  else Ok details.

(** [all_ids]: every capture of every transaction-id rule, rule by rule. *)
Definition all_txn_ids (text : str) : list str :=
  concat ((λ pattern, re_findall IGNORECASE (re_compile pattern) text)
            <$> default [] (patterns !! "txn_id")).

(** The destination field of a trimmed candidate token, in the words of the
    specification: Google-style id, reference id, UPI transaction id, or none. *)
Definition txn_class (token : str) : option string :=
  if contains (u8 "CIC") token || ((20 <? length token)%nat && negb (isdigit token))
  then Some "Google Transaction ID"
  else if isdigit token && (12 <=? length token)%nat then Some "Reference ID"
  else if (8 <? length token)%nat then Some "UPI Transaction ID"
  else None.

(** The body of [for txn in set(all_ids)]. *)
Definition assign_txn (details : dict) (txn : str) : dict :=
  let txn := strip txn in
  if negb (truthy txn) then details
  else if contains (u8 "CIC") txn || ((20 <? length txn)%nat && negb (isdigit txn))
  then <["Google Transaction ID" := txn]> details
  else if isdigit txn && (12 <=? length txn)%nat
  then <["Reference ID" := txn]> details
  else if (8 <? length txn)%nat
  then <["UPI Transaction ID" := txn]> details
  else details.

(** The bank-name, receiver and sender heuristics on line [i]; [after] are the
    lines behind it, so [lines[i + 1]] is the head of [after]. *)
Definition heuristic_bank (line : str) (details : dict) : M dict :=
  if contains (u8 "Bank") line then
    bank ← item details "Bank Name";
    if negb (truthy bank) then
      if (length line <? 40)%nat
         && negb (existsb (λ x, contains x (lower line)) [u8 "ref"; u8 "id"; u8 "no"])
      then Ok (<["Bank Name" := line]> details)
      else Ok details
    else Ok details
  else Ok details.

Definition heuristic_party (label : string) (field : string) (is_label : bool)
    (line : str) (after : list str) (details : dict) : M dict :=
  if is_label then
    cur ← item details field;
    if negb (truthy cur) then
      let clean := strip (re_sub IGNORECASE (re_compile label) [] line) in
      if truthy clean then Ok (<[field := clean]> details)
      else match after with
           | next :: _ => Ok (<[field := next]> details)
           | [] => Ok details
           end
    else Ok details
  else Ok details.

Definition heuristic_line (line : str) (after : list str) (details : dict) : M dict :=
  d1 ← heuristic_bank line details;
  d2 ← heuristic_party "^to\s*[:\-]?\s*" "To (Receiver)"
         (startswith (u8 "to") (lower line) || str_eqb (lower line) (u8 "paid to"))
         line after d1;
  heuristic_party "^from\s*[:\-]?\s*" "From (Sender)"
    (startswith (u8 "from") (lower line)) line after d2.

Fixpoint heuristic_lines (lines : list str) (details : dict) : M dict :=
  match lines with
  | [] => Ok details
  | line :: after =>
      d ← heuristic_line line after details;
      heuristic_lines after d
  end.

(** [[line.strip() for line in text.split('\n') if line.strip()]] *)
Definition nonblank_lines (text : str) : list str :=
  strip <$> filter (λ line, truthy (strip line) = true) (split NL text).

Section Extractor.

(** The order in which [for txn in set(all_ids)] visits the distinct
    elements of [all_ids]: Python leaves it to the string hashes of the
    running interpreter. *)
Variable set_iter : list str → list str.

(** [parse_details(text, filename, source_type)] *)
Definition parse_details (text filename source_type : str) : M dict :=
  if str_eqb source_type (u8 "passbook") then parse_passbook_details text filename
  else
    details ← screenshot_inline text (screenshot_init text filename);
    let details := foldl assign_txn details (set_iter (all_txn_ids text)) in
    heuristic_lines (nonblank_lines text) details.

End Extractor.

(** A [set] iterates over each distinct element once. *)
Definition set_order (it : list str → list str) : Prop :=
  ∀ l, NoDup (it l) ∧ ∀ x, x ∈ it l ↔ x ∈ l.

(** Two iteration orders: first occurrence first, and its reverse. *)
Definition iter_first (l : list str) : list str := remove_dups l.

(** ** The batch pipeline *)

(** The [summary] dictionary of [extract_all]. *)
Record summary_t : Type := Summary {
  success : nat;
  failed : nat;
  duplicates : nat;
  errors : list (str * str)
}.

(** The state of the loop of [extract_all]; [progress] lists the calls made to
    the progress callback, oldest first. *)
Record batch : Type := Batch {
  all_data : list dict;
  seen_hashes : gset Z;
  summary : summary_t;
  progress : list (nat * nat * str)
}.

(** [{k: v for k, v in parsed_data.items()
      if k not in ('File Name', 'All Extracted Text') and v}] *)
Definition key_fields (parsed_data : dict) : dict :=
  filter (λ kv, kv.1 ≠ "File Name" ∧ kv.1 ≠ "All Extracted Text" ∧ kv.2 ≠ [])
    parsed_data.

(** [frozenset(key_fields.items())] *)
Definition signature (parsed_data : dict) : gset (string * str) :=
  map_to_set pair (key_fields parsed_data).

(** The record appended for a document whose extraction raised. *)
Definition error_record (filename e : str) : dict :=
  <["Error" := e]> (<["File Name" := filename]> ∅).

Definition add_success (sm : summary_t) : summary_t :=
  Summary (S (success sm)) (failed sm) (duplicates sm) (errors sm).
Definition add_duplicate (sm : summary_t) : summary_t :=
  Summary (success sm) (failed sm) (S (duplicates sm)) (errors sm).
Definition add_failed (filename e : str) (sm : summary_t) : summary_t :=
  Summary (success sm) (S (failed sm)) (duplicates sm) (errors sm ++ [(filename, e)]).

Section Pipeline.

Variable set_iter : list str → list str.
(** [os.path.basename] *)
Variable basename : str → str.
(** [self.ocr.extract_text(img_path, source_type=source_type)]: the OCR
    collaborator, which returns text or raises. *)
Variable ocr_extract_text : str → str → M str.
(** Python's [hash] on frozen sets of pairs of strings. *)
Variable py_hash : gset (string * str) → Z.
(** Whether a progress callback was passed. *)
Variable progress_callback : bool.

Definition notify (ev : nat * nat * str) (st : batch) : batch :=
  if progress_callback
  then Batch (all_data st) (seen_hashes st) (summary st) (progress st ++ [ev])
  else st.

(** OCR followed by parsing: the two calls the [try] block starts with. *)
Definition extract_one (img_path source_type : str) : M dict :=
  raw_text ← ocr_extract_text img_path source_type;
  parse_details set_iter raw_text (basename img_path) source_type.

(** The body of the loop for the document of index [i]. *)
Definition process_image (source_type : str) (total i : nat) (img_path : str)
    (st : batch) : batch :=
  let filename := basename img_path in
  let st := notify (S i, total, u8 "Processing " ++ filename ++ u8 "...") st in
  match extract_one img_path source_type with
  | Ok parsed_data =>
      let data_hash := py_hash (signature parsed_data) in
      if bool_decide (data_hash ∈ seen_hashes st) then
        notify (S i, total, u8 "⏭️ Skipped duplicate: " ++ filename)
          (Batch (all_data st) (seen_hashes st) (add_duplicate (summary st)) (progress st))
      else
        Batch (all_data st ++ [parsed_data]) ({[data_hash]} ∪ seen_hashes st)
              (add_success (summary st)) (progress st)
  | Raise e =>
      notify (S i, total, u8 "❌ Error: " ++ filename ++ u8 " — " ++ e)
        (Batch (all_data st ++ [error_record filename e]) (seen_hashes st)
               (add_failed filename e (summary st)) (progress st))
  end.

(** [for i, img_path in enumerate(image_paths)], from index [i] on. *)
Fixpoint batch_loop (source_type : str) (total i : nat) (image_paths : list str)
    (st : batch) : batch :=
  match image_paths with
  | [] => st
  | img_path :: image_paths' =>
      batch_loop source_type total (S i) image_paths'
        (process_image source_type total i img_path st)
  end.

Definition batch_init : batch := Batch [] ∅ (Summary 0 0 0 []) [].

(** The state in which the loop of [extract_all] ends. *)
Definition extract_run (image_paths : list str) (source_type : str) : batch :=
  batch_loop source_type (length image_paths) 0 image_paths batch_init.

(** The state of the same loop when its first [n] documents are done. *)
Definition run_upto (image_paths : list str) (source_type : str) (n : nat) : batch :=
  batch_loop source_type (length image_paths) 0 (take n image_paths) batch_init.

(** [extract_all(image_paths, progress_callback, source_type)] *)
Definition extract_all (image_paths : list str) (source_type : str)
    : list dict * summary_t :=
  let st := extract_run image_paths source_type in
  (all_data st, summary st).

End Pipeline.

(** [posixpath.basename] *)
Definition posix_basename (p : str) : str :=
  default [] (last (split (ch "/") p)).

(** ** The modules around the extractor *)

(** *** The OCR engine ([upi_extractor/core/ocr_engine.py]) *)

(** The [configs] dictionary of [_get_ocr_config]. *)
Definition ocr_configs : gmap str str :=
  list_to_map [
    (u8 "screenshot", u8 "--psm 6");
    (u8 "passbook", u8 "--psm 6");
    (u8 "camera", u8 "--psm 3");
    (u8 "auto", [])
  ].

(** [_get_ocr_config(source_type)] *)
Definition get_ocr_config (source_type : str) : str :=
  default [] (ocr_configs !! source_type).

Section OcrEngine.

(** The array [preprocess_image] returns and the image PIL loads. *)
Variables (ndarray pil_image : Type).
(** [preprocess_image(image_path)]: the array, or [None] on failure. *)
Variable preprocess_image : str → option ndarray.
(** [load_image_pil(image_path)]: the image, or [None] on failure. *)
Variable load_image_pil : str → option pil_image.
(** [pytesseract.image_to_string(image, config=config)] on either kind of
    image: it returns the text or raises. *)
Variable image_to_string : ndarray + option pil_image → str → M str.
(** What the [except] handler does with the path and [str(e)]: the log
    directory is made, the log file opened and a line appended; each of these
    may raise. *)
Variable log_ocr_error : str → str → M unit.

(** The body of the [try] block of [extract_text]. *)
Definition ocr_attempt (image_path source_type : str) : M str :=
  let config := get_ocr_config source_type in
  match preprocess_image image_path with
  | Some processed_img => image_to_string (inl processed_img) config
  | None => image_to_string (inr (load_image_pil image_path)) config
  end.

(** [extract_text(image_path, source_type)] *)
Definition extract_text (image_path source_type : str) : M str :=
  match ocr_attempt image_path source_type with
  | Ok text => Ok text
  | Raise e => _ ← log_ocr_error image_path e; Ok []
  end.

End OcrEngine.

(** *** Image files ([upi_extractor/core/image_loader.py],
    [upi_extractor/utils/validators.py]) *)

(** [s.endswith(suffix)] *)
Definition endswith (suffix s : str) : bool := startswith (rev suffix) (rev s).

(** [s.endswith(suffixes)] for a tuple of suffixes. *)
Definition endswith_any (suffixes : list str) (s : str) : bool :=
  existsb (λ suffix, endswith suffix s) suffixes.

Definition SUPPORTED_EXTENSIONS : list str :=
  [u8 ".jpg"; u8 ".jpeg"; u8 ".png"; u8 ".bmp"].

(** The tuple of [validate_image_path]. *)
Definition valid_extensions : list str :=
  [u8 ".jpg"; u8 ".jpeg"; u8 ".png"; u8 ".bmp"].

Section ImageFiles.

(** [os.walk(folder_path)]: the directories under the folder, each with the
    names of its sub-directories and of its files. *)
Variable os_walk : str → list (str * list str * list str).
(** [os.path.join] *)
Variable path_join : str → str → str.
(** [os.path.isfile] *)
Variable isfile : str → bool.

(** [load_images_from_folder(folder_path)] *)
Definition load_images_from_folder (folder_path : str) : list str :=
  concat
    ((λ entry : str * list str * list str,
        let '(root, _, filenames) := entry in
        path_join root
          <$> List.filter
                (λ filename, endswith_any SUPPORTED_EXTENSIONS (lower filename))
                filenames)
       <$> os_walk folder_path).

(** [validate_image_path(path)] *)
Definition validate_image_path (path : str) : bool :=
  isfile path && endswith_any valid_extensions (lower path).

End ImageFiles.

(** [posixpath.join(a, p)] *)
Definition posix_join (a p : str) : str :=
  if startswith (u8 "/") p then p
  else if negb (truthy a) || endswith (u8 "/") a then a ++ p
  else a ++ u8 "/" ++ p.

(** *** Export ([upi_extractor/export/excel_exporter.py]) *)

(** [str(n)] for a natural number. *)
Definition str_of_nat (n : nat) : str := u8 (pretty n).

(** [if not output_path.lower().endswith('.xlsx'): output_path += '.xlsx'] *)
Definition xlsx_path (output_path : str) : str :=
  if negb (endswith (u8 ".xlsx") (lower output_path))
  then output_path ++ u8 ".xlsx"
  else output_path.

Section ExcelExport.

(** A pandas data frame. *)
Variable frame : Type.
(** [pd.DataFrame(data_list)], less the column All Extracted Text. *)
Variable DataFrame : list dict → M frame.
(** [len(df)] *)
Variable frame_len : frame → nat.
(** [os.path.exists] *)
Variable path_exists : str → bool.
(** [pd.read_excel(output_path, engine='openpyxl')], less the rows that read
    TOTALS in the first column. *)
Variable read_existing : str → M frame.
(** [pd.concat([df_existing, df_new], ignore_index=True)] *)
Variable concat_frames : frame → frame → M frame.
(** The [with pd.ExcelWriter(...)] block: the workbook is written and
    formatted. *)
Variable write_workbook : str → frame → M unit.

(** The frame to write and the label of the message: the existing rows are
    kept in append mode when the file exists and can be read. *)
Definition frame_to_write (df_new : frame) (output_path : str) (append : bool)
    : frame * str :=
  if append && path_exists output_path then
    match df_existing ← read_existing output_path; concat_frames df_existing df_new with
    | Ok df =>
        (df, u8 "Appended " ++ str_of_nat (frame_len df_new) ++ u8 " row(s) to")
    | Raise _ => (df_new, u8 "Successfully saved to")
    end
  else (df_new, u8 "Successfully saved to").

(** [export_to_excel(data_list, output_path, append)] *)
Definition export_to_excel (data_list : list dict) (output_path : str) (append : bool)
    : bool * str :=
  if data_list is [] then (false, u8 "No data to export.")
  else
    let output_path := xlsx_path output_path in
    let saved :=
      df_new ← DataFrame data_list;
      let '(df, mode_label) := frame_to_write df_new output_path append in
      _ ← write_workbook output_path df;
      Ok (mode_label ++ u8 " " ++ output_path ++ u8 " ("
          ++ str_of_nat (frame_len df) ++ u8 " total rows)") in
    match saved with
    | Ok message => (true, message)
    | Raise e => (false, u8 "Error saving Excel: " ++ e)
    end.

Section Process.

Variable set_iter : list str → list str.
Variable basename : str → str.
Variable ocr_extract_text : str → str → M str.
Variable py_hash : gset (string * str) → Z.
Variable progress_callback : bool.

(** [process_images(image_paths, output_excel_path, progress_callback,
    source_type)] of [PaymentExtractor] *)
Definition process_images (image_paths : list str) (output_excel_path source_type : str)
    : bool * str :=
  let '(all_data, summary) :=
    extract_all set_iter basename ocr_extract_text py_hash progress_callback
      image_paths source_type in
  export_to_excel all_data output_excel_path false.

End Process.

End ExcelExport.

(** *** The first extractor ([src/extract.py]) *)

(** What [self.patterns[pattern_key]] raises for a missing key. *)
Definition KEY_ERROR (pattern_key : string) : str := u8 "'" ++ u8 pattern_key ++ u8 "'".

(** The loop of [find_match]: the first match's group 1, or the whole match
    for a pattern without groups; the value is not trimmed and the flag is
    [re.IGNORECASE] alone. The catalog is that of the packaged extractor, and
    group 1 of each of its patterns takes part in every match, so
    [match.group(1)] is a string. *)
Fixpoint legacy_first_match (pats : list string) (target_text : str) : str :=
  match pats with
  | [] => []
  | pattern :: pats' =>
      match re_search IGNORECASE (re_compile pattern) target_text with
      | Some mt =>
          if ngroups (re_compile pattern) is O then group0 mt
          else default [] (group 1 mt)
      | None => legacy_first_match pats' target_text
      end
  end.

(** [find_match(pattern_key, target_text)], local to [parse_details]. *)
Definition legacy_find_match (pattern_key : string) (target_text : str) : M str :=
  match patterns !! pattern_key with
  | Some pats => Ok (legacy_first_match pats target_text)
  | None => Raise (KEY_ERROR pattern_key)
  end.

(** Amount, UPI id, date, time and payment status. *)
Definition legacy_inline (text : str) (details : dict) : M dict :=
  raw_amount ← legacy_find_match "amount" text;
  let details :=
    if truthy raw_amount then
      let clean_amount := re_sub NOFLAGS (re_compile "[^\d\.]") [] raw_amount in
      if float_ok clean_amount then <["Amount" := clean_amount]> details
      else <["Amount" := raw_amount]> details
    else details in
  upi_id ← legacy_find_match "upi_id" text;
  let details := <["UPI ID / VPA" := upi_id]> details in
  date ← legacy_find_match "date" text;
  let details := <["Date" := date]> details in
  time ← legacy_find_match "time" text;
  let details := <["Time" := time]> details in
  status_raw ← upper <$> legacy_find_match "status" text;
  if contains (u8 "SUCCESS") status_raw || contains (u8 "COMPLETED") status_raw
  then Ok (<["Payment Status" := u8 "SUCCESS"]> details)
  else if contains (u8 "FAIL") status_raw
  then Ok (<["Payment Status" := u8 "FAILED"]> details)
  else if contains (u8 "PENDING") status_raw || contains (u8 "PROCESSING") status_raw
  then Ok (<["Payment Status" := u8 "PENDING"]> details)
  else Ok details.

Section LegacyExtractor.

Variable set_iter : list str → list str.

(** [parse_details(text, filename)] of [src/extract.py]: the dictionary
    literal, the classification of the transaction ids and the line
    heuristics read as in the packaged extractor. *)
Definition legacy_parse_details (text filename : str) : M dict :=
  details ← legacy_inline text (screenshot_init text filename);
  let details := foldl assign_txn details (set_iter (all_txn_ids text)) in
  heuristic_lines (nonblank_lines text) details.

End LegacyExtractor.

(** * Definitions used to state the properties *)

(** Running a computation that is known to return. *)
Definition is_ok {A} (x : M A) : bool :=
  match x with
  | Ok _ => true
  | Raise _ => false
  end.

Definition get_ok {A} (dflt : A) (x : M A) : A :=
  match x with
  | Ok a => a
  | Raise _ => dflt
  end.

(** A write [d[k] = x] made only where [d.get(k)] was falsy keeps every
    non-empty entry. *)
Definition keeps_set (d d' : dict) : Prop :=
  ∀ k v, d !! k = Some v → v ≠ [] → d' !! k = Some v.

(** [d'] is [d] but for the entries of the keys in [K], and has every key of
    [d]. *)
Definition only_writes (K : gset string) (d d' : dict) : Prop :=
  (∀ k, k ∉ K → d' !! k = d !! k) ∧ dom d ⊆ dom d'.

(** The three fields the transaction-id classification writes. *)
Definition txn_fields : list string :=
  ["Google Transaction ID"; "Reference ID"; "UPI Transaction ID"].

(** The destination fields of the multi-line rules. *)
Definition multiline_fields : gset string :=
  list_to_set ((λ t, t.1.2) <$> passbook_multiline_labels).

(** The fields of the two standalone recognisers of the scanner. *)
Definition standalone_fields : gset string := {["Account Number"; "IFSC Code"]}.

(** The fields of the positional heuristics. *)
Definition heuristic_fields : gset string :=
  {["Bank Name"; "To (Receiver)"; "From (Sender)"]}.

(** The fields the inline rules of screenshot mode fill. *)
Definition inline_fields : gset string :=
  {["Amount"; "UPI ID / VPA"; "Date"; "Time"; "Payment Status"]}.

(** The fields the passbook post-processing may rewrite. *)
Definition post_fields : gset string :=
  {["Account Number"; "Account Type"; "MICR Code"; "Balance (₹)"; "Mobile Number"]}.

(** The keys of the initial dictionary of [parse_details] (screenshot mode). *)
Definition screenshot_keys : gset string :=
  list_to_set [
    "File Name"; "UPI Transaction ID"; "Google Transaction ID"; "Reference ID";
    "From (Sender)"; "To (Receiver)"; "UPI ID / VPA"; "Bank Name"; "Amount";
    "Payment Status"; "Date"; "Time"; "Transaction Note"; "All Extracted Text"
  ].

(** The keys of the dictionary literal of [_parse_passbook_details]. *)
Definition passbook_keys : gset string :=
  list_to_set [
    "File Name"; "Bank Name"; "Account Holder"; "Account Number"; "Account Type";
    "IFSC Code"; "MICR Code"; "Branch Name"; "CIF Number"; "Date of Opening";
    "Nomination"; "Joint Holder"; "Address"; "Mobile Number"; "Date";
    "Transaction Type"; "Narration"; "Reference Number"; "Cheque Number";
    "Credit (₹)"; "Debit (₹)"; "Balance (₹)"; "Opening Balance (₹)";
    "Closing Balance (₹)"; "All Extracted Text"
  ].

(** The declared field keys of a source type: [parse_details] routes
    ['passbook'] to the passbook parser and every other type to the
    screenshot parser. *)
Definition field_keys (source_type : str) : gset string :=
  if str_eqb source_type (u8 "passbook") then passbook_keys else screenshot_keys.

(** The keys of the record built in the [except] branch of [extract_all]. *)
Definition error_keys : gset string := {["File Name"; "Error"]}.


(** The counters and lists of a batch state add up for [n] documents. *)
Definition accounted (n : nat) (s : batch) : Prop :=
  (success (summary s) + failed (summary s) + duplicates (summary s) = n)%nat
  ∧ (length (all_data s) = success (summary s) + failed (summary s))%nat
  ∧ length (errors (summary s)) = failed (summary s).




(** The characters [_clean_amount] keeps: digits and the decimal point. *)
Definition amount_char (c : char) : bool := is_digit c || (c =? ch ".").

(** A non-negative decimal number as the specification means it: digits, or
    digits around one decimal point, with at least one digit. *)
Definition decimal_number (s : str) : Prop :=
  ∃ ip fp : str,
    forallb is_digit ip = true ∧ forallb is_digit fp = true
    ∧ (s = ip ∧ ip ≠ [] ∨ s = ip ++ ch "." :: fp ∧ ip ++ fp ≠ []).

(** [sets1 r]: every way to match [r] goes through capturing group 1. *)
Fixpoint sets1 (r : regex) : bool :=
  match r with
  | RSeq a b => sets1 a || sets1 b
  | RAlt a b => sets1 a && sets1 b
  | RRep a lo _ => sets1 a && (0 <? lo)%nat
  | RGroup i a => (i =? 1)%nat || sets1 a
  | RLook a => sets1 a
  | _ => false
  end.

(** Group 1 is set at this point of a match. *)
Definition has1 (st : mstate) : Prop := is_Some (cap_lookup 1 (caps st)).

(** What a successful match hands to its continuation. *)
Definition passes_group (b : bool) (st : mstate) (k : mstate → option mstate)
    (e : mstate) : Prop :=
  ∃ st', k st' = Some e ∧ (has1 st → has1 st') ∧ (b = true → has1 st').

(** A pattern whose value [_find_match] can always take: it has no group, or
    its group 1 takes part in every match. *)
Definition well_grouped (pattern : string) : bool :=
  (ngroups (re_compile pattern) =? 0)%nat || sets1 (re_compile pattern).

(** The same with a group, for [match.group(1)]. *)
Definition strictly_grouped (pattern : string) : bool :=
  negb (ngroups (re_compile pattern) =? 0)%nat && sets1 (re_compile pattern).

(** A digit part followed by the end or a character that is neither a digit
    nor an underscore. *)
Definition ends_digits (r : str) : Prop :=
  r = [] ∨ ∃ c r', r = c :: r' ∧ is_digit c = false ∧ c ≠ ch "_".

(** [s] neither starts nor ends with white space. *)
Definition trimmed (s : str) : Prop :=
  (∀ c s', s = c :: s' → is_space c = false)
  ∧ (∀ c s', s = s' ++ [c] → is_space c = false).

(** A line the bank-name heuristic accepts: it contains Bank, is shorter than
    40 characters and has none of ref, id, no in its lower-case form. *)
Definition bank_candidate (line : str) : bool :=
  contains (u8 "Bank") line
  && (length line <? 40)%nat
  && negb (existsb (λ x, contains x (lower line)) [u8 "ref"; u8 "id"; u8 "no"]).

(** The characters the class [[\s\-]] matches. *)
Definition sep_char (c : char) : bool := is_space c || (c =? ch "-").

(** What the post-processing of a passbook record establishes: no separator
    in the account and mobile numbers, an account type that the table maps to
    itself, different IFSC and MICR codes, and a balance that is not the MICR
    code read as nine digits. *)
Definition post_normal (d : dict) : Prop :=
  (∀ v, d !! "Account Number" = Some v → forallb (λ c, negb (sep_char c)) v = true)
  ∧ (∀ v full, d !! "Account Type" = Some v → type_map !! upper v = Some full → v = full)
  ∧ (∀ v, d !! "IFSC Code" = Some v → d !! "MICR Code" = Some v → v = [])
  ∧ (∀ b, d !! "Balance (₹)" = Some b → b ≠ [] →
          length (remove_char (ch ",") (remove_char (ch ".") b)) = 9%nat →
          b ≠ remove_char (ch " ") (default [] (d !! "MICR Code")))
  ∧ (∀ v, d !! "Mobile Number" = Some v → forallb (λ c, negb (sep_char c)) v = true).

(** The (file name, message) pairs of the error records of a list. *)
Definition error_pairs (data : list dict) : list (str * str) :=
  omap (λ r : dict, e ← r !! "Error"; f ← r !! "File Name"; Some (f, e)) data.

(** What the OCR call of a document adds to [summary['errors']]. *)
Definition ocr_failure (basename : str → str) (ocr_extract_text : str → str → M str)
    (source_type img_path : str) : option (str * str) :=
  match ocr_extract_text img_path source_type with
  | Raise e => Some (basename img_path, e)
  | Ok _ => None
  end.

(** The progress reports made when [i] documents are done: their number,
    their counters and their order. *)
Definition reported (cb : bool) (total i : nat) (s : batch) : Prop :=
  length (progress s)
  = (if cb then i + failed (summary s) + duplicates (summary s) else 0)%nat
  ∧ Forall (λ ev, (1 ≤ ev.1.1 ≤ i)%nat ∧ ev.1.2 = total) (progress s)
  ∧ StronglySorted (λ a b : nat * nat * str, (a.1.1 ≤ b.1.1)%nat) (progress s).

(** Two records that agree outside the keys of [K]. *)
Definition agree_off (K : gset string) (d1 d2 : dict) : Prop :=
  ∀ k, k ∉ K → d1 !! k = d2 !! k.

(** ** The strings a pattern reads *)

(** The strings a pattern can read: anchors, word boundaries and lookaheads
    read nothing. *)
Fixpoint lang (fl : flags) (r : regex) (w : str) : Prop :=
  match r with
  | REmpty => w = []
  | RChar c => ∃ x, w = [x] ∧ char_matches fl c x = true
  | RAny => ∃ x, w = [x] ∧ negb (x =? NL) = true
  | RSet neg items => ∃ x, w = [x] ∧ set_matches fl neg items x = true
  | RBol | REol | RWordB => w = []
  | RSeq r1 r2 => ∃ w1 w2, w = w1 ++ w2 ∧ lang fl r1 w1 ∧ lang fl r2 w2
  | RAlt r1 r2 => lang fl r1 w ∨ lang fl r2 w
  | RRep r1 lo hi =>
      ∃ ws, w = concat ws ∧ Forall (lang fl r1) ws ∧ (lo ≤ length ws)%nat
            ∧ ∀ h, hi = Some h → (length ws ≤ h)%nat
  | RGroup _ r1 => lang fl r1 w
  | RLook _ => w = []
  end.

(** Every way to fill group 1 of [r] reads a string with [P]. *)
Fixpoint groups1_ok (fl : flags) (P : str → Prop) (r : regex) : Prop :=
  match r with
  | RSeq r1 r2 | RAlt r1 r2 => groups1_ok fl P r1 ∧ groups1_ok fl P r2
  | RRep r1 _ _ | RLook r1 => groups1_ok fl P r1
  | RGroup i r1 => (i = 1%nat → ∀ w, lang fl r1 w → P w) ∧ groups1_ok fl P r1
  | _ => True
  end.

(** Group 1, when set, holds a string with [P]. *)
Definition caps1_ok (P : str → Prop) (st : mstate) : Prop :=
  ∀ v, cap_lookup 1 (caps st) = Some v → P v.

(** From [st] the match has read [w] to come to [st']. *)
Definition reads (st st' : mstate) (w : str) : Prop :=
  rest st = w ++ rest st' ∧ pos st' = (pos st + length w)%nat.

Definition sound_step (fl : flags) (P : str → Prop) (L : str → Prop)
    (st : mstate) (k : mstate → option mstate) (e : mstate) : Prop :=
  ∃ st' w, k st' = Some e ∧ reads st st' w ∧ L w ∧ (caps1_ok P st → caps1_ok P st').

(** The bodies of the groups numbered 1 in a pattern. *)
Fixpoint group1_bodies (r : regex) : list regex :=
  match r with
  | RSeq r1 r2 | RAlt r1 r2 => group1_bodies r1 ++ group1_bodies r2
  | RRep r1 _ _ | RLook r1 => group1_bodies r1
  | RGroup i r1 => (if (i =? 1)%nat then [r1] else []) ++ group1_bodies r1
  | _ => []
  end.

(** Bounds on the length of the strings the pattern reads. *)
Fixpoint min_len (r : regex) : nat :=
  match r with
  | RChar _ | RAny | RSet _ _ => 1
  | RSeq r1 r2 => min_len r1 + min_len r2
  | RAlt r1 r2 => Nat.min (min_len r1) (min_len r2)
  | RRep r1 lo _ => lo * min_len r1
  | RGroup _ r1 => min_len r1
  | _ => 0
  end.

Fixpoint max_len (r : regex) : option nat :=
  match r with
  | RChar _ | RAny | RSet _ _ => Some 1%nat
  | RSeq r1 r2 =>
      match max_len r1, max_len r2 with
      | Some a, Some b => Some (a + b)%nat
      | _, _ => None
      end
  | RAlt r1 r2 =>
      match max_len r1, max_len r2 with
      | Some a, Some b => Some (Nat.max a b)
      | _, _ => None
      end
  | RRep r1 _ hi =>
      match hi, max_len r1 with
      | Some h, Some a => Some (h * a)%nat
      | _, _ => None
      end
  | RGroup _ r1 => max_len r1
  | _ => Some 0%nat
  end.

(** A class item without a white-space character. *)
Definition item_no_space (it : cset_item) : bool :=
  match it with
  | CChar c => negb (is_space c)
  | CRange lo hi => (33 <=? lo) && (hi <=? 127)
  | CDigit | CWord => true
  | CSpace => false
  end.

(** The pattern reads no white space: a sufficient test. *)
Fixpoint no_space (r : regex) : bool :=
  match r with
  | RChar c => negb (is_space c)
  | RAny => false
  | RSet neg items => negb neg && forallb item_no_space items
  | RSeq r1 r2 | RAlt r1 r2 => no_space r1 && no_space r2
  | RRep r1 _ _ | RGroup _ r1 => no_space r1
  | _ => true
  end.

(** Every group 1 of the pattern holds exactly [n] characters, none of them
    white space: a sufficient test. *)
Definition fixed_width (n : nat) (r : regex) : bool :=
  forallb (λ b, (min_len b =? n)%nat && bool_decide (max_len b = Some n) && no_space b)
    (group1_bodies r).

(** [y] is [x] or the other case of [x]. *)
Definition folds (x y : char) : Prop :=
  y = x ∨ (65 ≤ x ∧ x ≤ 90 ∧ y = x + 32) ∨ (97 ≤ x ∧ x ≤ 122 ∧ y = x - 32).

(** Every rule of a key has groups, and all the bodies of its groups 1
    have [Q]. *)
Definition rules_bodies (key : string) (pd : option (gmap string (list string)))
    (Q : regex → Prop) : Prop :=
  Forall (λ p, ngroups (re_compile p) ≠ 0%nat ∧ Forall Q (group1_bodies (re_compile p)))
    (rules_of key pd).

(** ** The shapes of the inline fields *)

(** A text of Basic Latin characters and rupee signs: on such a text the
    character classes of this development are those of Python. *)
Definition plain_text (s : str) : bool :=
  forallb (λ c, (c <? 128) || bool_decide ([c] = u8 "₹")) s.

(** Between [lo] and [hi] digits. *)
Definition digits (lo hi : nat) (s : str) : Prop :=
  forallb is_digit s = true ∧ (lo ≤ length s)%nat ∧ (length s ≤ hi)%nat.

(** The characters of the name part of a UPI id. *)
Definition upi_name_char (c : char) : bool :=
  is_alpha c || is_digit c || (c =? ch ".") || (c =? ch "-") || (c =? ch "_").

(** name@handle: a name of letters, digits, points, hyphens and underscores
    and a handle of letters. *)
Definition upi_id_format (v : str) : Prop :=
  ∃ name handle : str,
    v = name ++ ch "@" :: handle ∧ name ≠ [] ∧ handle ≠ []
    ∧ forallb upi_name_char name = true ∧ forallb is_alpha handle = true.

(** A decimal number with at most two digits behind the point. *)
Definition decimal2 (v : str) : Prop :=
  ∃ ip fp : str,
    forallb is_digit ip = true ∧ forallb is_digit fp = true ∧ (length fp ≤ 2)%nat
    ∧ (v = ip ∧ ip ≠ [] ∨ v = ip ++ ch "." :: fp ∧ ip ++ fp ≠ []).

(** Commas and at most one point behind them, without a digit. *)
Definition bare_separators (v : str) : Prop :=
  ∃ cs p : str, v = cs ++ p ∧ cs ≠ [] ∧ Forall (λ c, c = ch ",") cs
                ∧ (p = [] ∨ p = [ch "."]).

(** h:mm or hh:mm, with or without AM or PM behind it. *)
Definition time_format (v : str) : Prop :=
  ∃ h m sfx : str,
    v = h ++ ch ":" :: m ++ sfx ∧ digits 1 2 h ∧ digits 2 2 m
    ∧ (sfx = [] ∨ ∃ (sp : str) (a b : char),
         sfx = sp ++ [a; b] ∧ forallb is_space sp = true
         ∧ a ∈ u8 "APap" ∧ b ∈ u8 "Mm").

(** The three shapes of a date: 5 Jan 2024, 5/1/24 and 2024-01-05. *)
Definition date_format (v : str) : Prop :=
  (∃ d sp1 mon sp2 y : str,
     v = d ++ sp1 ++ mon ++ sp2 ++ y ∧ digits 1 2 d
     ∧ sp1 ≠ [] ∧ forallb is_space sp1 = true
     ∧ (3 ≤ length mon)%nat ∧ forallb is_alpha mon = true
     ∧ sp2 ≠ [] ∧ forallb is_space sp2 = true ∧ digits 4 4 y)
  ∨ (∃ (a : str) (s1 : char) (b : str) (s2 : char) (c : str),
       v = a ++ s1 :: b ++ s2 :: c ∧ digits 1 2 a ∧ s1 ∈ u8 "/-"
       ∧ digits 1 2 b ∧ s2 ∈ u8 "/-" ∧ digits 2 4 c)
  ∨ (∃ y m d : str,
       v = y ++ ch "-" :: m ++ ch "-" :: d ∧ digits 4 4 y ∧ digits 2 2 m ∧ digits 2 2 d).

(** The bodies of group 1 in the rules of the four inline fields. *)
Definition upi_body : regex :=
  RSeq (RRep (RSet false [CRange 97 122; CRange 65 90; CRange 48 57;
                          CChar 46; CChar 45; CChar 95]) 1 None)
    (RSeq (RChar 64) (RRep (RSet false [CRange 97 122; CRange 65 90]) 1 None)).

Definition amount_body : regex :=
  RSeq (RRep (RSet false [CDigit; CChar 44]) 1 None)
    (RSeq (RRep (RChar 46) 0 (Some 1%nat)) (RRep (RSet false [CDigit]) 0 (Some 2%nat))).

Definition clock_body : regex :=
  RSeq (RRep (RSet false [CDigit]) 1 (Some 2%nat))
    (RSeq (RChar 58) (RRep (RSet false [CDigit]) 2 (Some 2%nat))).

Definition clock_ampm_body : regex :=
  RSeq (RRep (RSet false [CDigit]) 1 (Some 2%nat))
    (RSeq (RChar 58)
       (RSeq (RRep (RSet false [CDigit]) 2 (Some 2%nat))
          (RSeq (RRep (RSet false [CSpace]) 0 None)
             (RSeq (RSet false [CChar 65; CChar 80; CChar 97; CChar 112])
                (RSet false [CChar 77; CChar 109]))))).

Definition date_words_body : regex :=
  RSeq (RRep (RSet false [CDigit]) 1 (Some 2%nat))
    (RSeq (RRep (RSet false [CSpace]) 1 None)
       (RSeq (RRep (RSet false [CRange 65 90; CRange 97 122]) 3 None)
          (RSeq (RRep (RSet false [CSpace]) 1 None)
             (RRep (RSet false [CDigit]) 4 (Some 4%nat))))).

Definition date_numeric_body : regex :=
  RSeq (RRep (RSet false [CDigit]) 1 (Some 2%nat))
    (RSeq (RSet false [CChar 47; CChar 45])
       (RSeq (RRep (RSet false [CDigit]) 1 (Some 2%nat))
          (RSeq (RSet false [CChar 47; CChar 45])
             (RRep (RSet false [CDigit]) 2 (Some 4%nat))))).

Definition date_iso_body : regex :=
  RSeq (RRep (RSet false [CDigit]) 4 (Some 4%nat))
    (RSeq (RChar 45)
       (RSeq (RRep (RSet false [CDigit]) 2 (Some 2%nat))
          (RSeq (RChar 45) (RRep (RSet false [CDigit]) 2 (Some 2%nat))))).

(** ** The widths of the bank codes *)

(** An IFSC code has eleven characters and a MICR code nine. *)
Definition code_width (field : string) : option nat :=
  if String.eqb field "IFSC Code" then Some 11%nat
  else if String.eqb field "MICR Code" then Some 9%nat
  else None.

(** The bank codes of a record are empty or have their widths. *)
Definition codes_ok (d : dict) : Prop :=
  ∀ f n v, code_width f = Some n → d !! f = Some v → v = [] ∨ length v = n.

(** A label of the line scanner that fills a bank code reads a value of the
    width of the code. *)
Definition label_width_ok (t : string * string * string) : bool :=
  match code_width t.1.2 with
  | Some n => fixed_width n (re_compile t.2)
  | None => true
  end.

(** ** Sample inputs *)

(** A passbook page with an inline IFSC code and a second, different code
    split over two lines. *)
Definition two_ifsc_page : str :=
  u8 "IFSC Code: SBIN0001234" ++ [NL] ++ u8 "IFSC" ++ [NL] ++ u8 "HDFC0005678".

(** A record in which the MICR pattern and the IFSC field hold the same
    nine characters. *)
Definition colliding_codes : dict :=
  <["IFSC Code" := u8 "380002011"]> (<["MICR Code" := u8 "380002011"]>
    (<["Account Number" := []]> (<["Account Type" := []]> ∅))).

(** The text of a payment receipt. *)
Definition receipt_text : str :=
  u8 "Payment Successful" ++ [NL] ++ u8 "Amount: ₹ 1,500.00" ++ [NL]
  ++ u8 "Txn ID: 123456789012".

(** What the OCR collaborator raises when it cannot write its error log. *)
Definition OCR_ERROR : str := u8 "[Errno 13] Permission denied: 'ocr_errors.log'".

(** Two crops of one receipt, one unreadable file, no text otherwise. *)
Definition sample_ocr (img_path source_type : str) : M str :=
  if str_eqb img_path (u8 "scans/broken.png") then Raise OCR_ERROR
  else if str_eqb img_path (u8 "scans/receipt.png")
          || str_eqb img_path (u8 "scans/receipt_crop.png")
  then Ok receipt_text
  else Ok [].

(** A hash without collisions. *)
Definition sample_hash (s : gset (string * str)) : Z := Z.pos (encode s).

(** A receipt, an unreadable file, a second crop of the receipt and a blank
    image. *)
Definition sample_batch : list str :=
  [u8 "scans/receipt.png"; u8 "scans/broken.png"; u8 "scans/receipt_crop.png";
   u8 "scans/blank.png"].

(** The sample run: its state after [n] documents, its result, and the
    extraction of one of its documents. *)
Definition sample_upto (n : nat) : batch :=
  run_upto iter_first posix_basename sample_ocr sample_hash true
    sample_batch (u8 "screenshot") n.

Definition sample_result : list dict * summary_t :=
  extract_all iter_first posix_basename sample_ocr sample_hash true
    sample_batch (u8 "screenshot").

Definition sample_extract (img_path : str) : M dict :=
  extract_one iter_first posix_basename sample_ocr img_path (u8 "screenshot").

(** A screenshot with a numeric reference and a Google transaction id. *)
Definition two_ids_text : str :=
  u8 "Txn ID: 123456789012" ++ [NL] ++ u8 "Google Transaction ID: CICAgKDx12".


(** Two images without text around a receipt. *)
Definition blank_batch : list str :=
  [u8 "scans/blank.png"; u8 "scans/receipt.png"; u8 "scans/empty.png"].

(** A Tesseract that cannot be run, under an engine whose log can be
    written. *)
Definition sample_tesseract (image : unit + option unit) (config : str) : M str :=
  Raise (u8 "tesseract is not installed or it's not in your PATH").

Definition sample_engine : str → str → M str :=
  extract_text unit unit (λ _, None) (λ _, None) sample_tesseract (λ _ _, Ok tt).

(** A folder with two images and a text file. *)
Definition sample_walk (folder_path : str) : list (str * list str * list str) :=
  [(folder_path, [], [u8 "a.PNG"; u8 "notes.txt"; u8 "b.jpeg"])].

(** A passbook record whose account number is grouped by spaces. *)
Definition grouped_account : dict :=
  <["Account Number" := u8 "1234 5678 9012"]> (<["Account Type" := u8 "sb"]>
    (<["IFSC Code" := u8 "SBIN0001234"]> (<["MICR Code" := u8 "380002011"]> ∅))).

(** A receipt with a payee address, an amount, a date and a time. *)
Definition upi_receipt_text : str :=
  u8 "Paid to ravi.k@okaxis" ++ [NL] ++ u8 "Rs. 1,234.50" ++ [NL]
  ++ u8 "12 Jan 2024 at 9:45 PM".

(** * Properties *)

Arguments re_search : simpl never.
Arguments re_match : simpl never.
Arguments re_sub : simpl never.
Arguments re_findall : simpl never.
Arguments re_compile : simpl never.
Arguments u8 : simpl never.
Arguments find_match : simpl never.
Arguments clean_amount : simpl never.
Arguments all_txn_ids : simpl never.
Arguments patterns : simpl never.
Arguments passbook_patterns : simpl never.
Arguments passbook_multiline_labels : simpl never.
Arguments foldM : simpl nomatch.
Arguments strip : simpl never.

(** ** The error monad and small facts *)

Lemma bind_Ok {A B} (c : M A) (f : A → M B) (b : B) :
  c ≫= f = Ok b ↔ ∃ a, c = Ok a ∧ f a = Ok b.
Proof.
  destruct c as [a|e]; simpl; split.
  - intros H. by exists a.
  - by intros (a' & [= ->] & H).
  - intros [=].
  - by intros (a' & [=] & _).
Qed.

Lemma bind_Raise {A B} (c : M A) (f : A → M B) (e : str) :
  c ≫= f = Raise e ↔ c = Raise e ∨ ∃ a, c = Ok a ∧ f a = Raise e.
Proof.
  destruct c as [a|e']; simpl; split.
  - intros H. right. by exists a.
  - intros [[=]|(a' & [= ->] & H)]. done.
  - intros [= ->]. by left.
  - intros [[= ->]|(a' & [=] & _)]. done.
Qed.

#[global] Instance Ok_inj {A} : Inj (=) (=) (@Ok A).
Proof. by intros a b [= ->]. Qed.

Lemma fmap_Ok {A B} (f : A → B) (c : M A) (b : B) :
  f <$> c = Ok b ↔ ∃ a, c = Ok a ∧ b = f a.
Proof.
  destruct c as [a|e]; simpl; split.
  - intros [= <-]. by exists a.
  - by intros (a' & [= ->] & ->).
  - intros [=].
  - by intros (a' & [=] & _).
Qed.

Lemma Ok_bind {A B} (a : A) (f : A → M B) : Ok a ≫= f = f a.
Proof. reflexivity. Qed.

Ltac inv_bind :=
  repeat match goal with
    | H : _ ≫= _ = Ok _ |- _ =>
        let a := fresh "a" in
        let Ha := fresh "Ha" in
        let Hk := fresh "Hk" in
        apply bind_Ok in H; destruct H as (a & Ha & Hk)
    | H : _ <$> _ = Ok _ |- _ =>
        let a := fresh "a" in
        let Ha := fresh "Ha" in
        apply fmap_Ok in H; destruct H as (a & Ha & ->)
    | H : Ok _ = Ok _ |- _ => let E := fresh "E" in injection H as E; try subst
    | H : Raise _ = Ok _ |- _ => discriminate H
    end.

(** Closed decidable facts (membership in a literal set, and the like). *)
Ltac by_compute :=
  match goal with
  | |- ?P => apply (@bool_decide_unpack P _); vm_compute; exact I
  end.

Lemma is_ok_get {A} (dflt : A) (x : M A) : is_ok x = true → x = Ok (get_ok dflt x).
Proof. by destruct x. Qed.

Lemma truthy_nonempty (s : str) : truthy s = true ↔ s ≠ [].
Proof. by destruct s. Qed.

Lemma truthy_false (s : str) : truthy s = false ↔ s = [].
Proof. by destruct s. Qed.

Lemma get_truthy_false (d : dict) (k : string) (v : str) :
  get_truthy d k = false → d !! k = Some v → v = [].
Proof. unfold get_truthy. intros H Hk. rewrite Hk in H. by apply truthy_false. Qed.

Lemma item_Ok (d : dict) (k : string) (v : str) : item d k = Ok v ↔ d !! k = Some v.
Proof. unfold item. destruct (d !! k); split; congruence. Qed.

Lemma item_total (d : dict) (k : string) : k ∈ dom d → ∃ v, item d k = Ok v.
Proof. intros [v Hv]%elem_of_dom. exists v. by apply item_Ok. Qed.

Lemma foldM_inv {A S} (P : S → S → Prop) (body : A → S → M S) (l : list A) :
  (∀ s, P s s) →
  (∀ s1 s2 s3, P s1 s2 → P s2 s3 → P s1 s3) →
  (∀ x s s', body x s = Ok s' → P s s') →
  ∀ s s', foldM body l s = Ok s' → P s s'.
Proof.
  intros Hrefl Htrans Hbody. induction l as [|x l IH]; simpl; intros s s' H.
  - injection H as <-. apply Hrefl.
  - inv_bind. eauto.
Qed.

Lemma foldM_total {A S} (body : A → S → M S) (l : list A) :
  Forall (λ x, ∀ s, ∃ s', body x s = Ok s') l → ∀ s, ∃ s', foldM body l s = Ok s'.
Proof.
  induction 1 as [|x l Hx _ IH]; intros s; cbn [foldM]; [by eexists|].
  destruct (Hx s) as [s1 ->]. rewrite Ok_bind. apply IH.
Qed.

(** ** The regular expression engine *)

(** Deleting the matches of a one-character class keeps the other
    characters. *)
Section SubClass.

Context (fl : flags) (neg : bool) (items : list cset_item).

Local Abbreviation hit := (set_matches fl neg items).
Local Abbreviation keep := (λ c : char, negb (set_matches fl neg items c)).

Lemma search_class_cons (p : nat) (pv : option char) (c : char) (s : str) :
  search_go fl (RSet neg items) p pv (c :: s)
  = if hit c
    then Some (RMatch (MState p pv (c :: s) []) (MState (S p) (Some c) s []))
    else search_go fl (RSet neg items) (S p) (Some c) s.
Proof.
  cbn [search_go]. unfold match_at. cbn [re_m]. unfold one_char. cbn [rest].
  by destruct (hit c).
Qed.

Lemma search_class_nil (p : nat) (pv : option char) :
  search_go fl (RSet neg items) p pv [] = None.
Proof. reflexivity. Qed.

Lemma search_class_None (s : str) (p : nat) (pv : option char) :
  search_go fl (RSet neg items) p pv s = None → List.filter keep s = s.
Proof.
  revert p pv. induction s as [|c s IH]; intros p pv; [done|].
  rewrite search_class_cons. cbn [List.filter].
  destruct (hit c); [done|]. intros H. cbn. f_equal. by eapply IH.
Qed.

Lemma search_class_Some (s : str) (p : nat) (pv : option char) (mt : rmatch) :
  search_go fl (RSet neg items) p pv s = Some mt →
  ∃ pre c post pv',
    s = pre ++ c :: post ∧ List.filter keep pre = pre ∧ hit c = true
    ∧ m_begin mt = MState (p + length pre) pv' (c :: post) []
    ∧ m_end mt = MState (S (p + length pre)) (Some c) post [].
Proof.
  revert p pv. induction s as [|c s IH]; intros p pv; [done|].
  rewrite search_class_cons. destruct (hit c) eqn:Hc.
  - intros [= <-]. exists [], c, s, pv. cbn. rewrite Nat.add_0_r. done.
  - intros H. apply IH in H as (pre & c' & post & pv' & -> & Hpre & Hc' & Hb & He).
    exists (c :: pre), c', post, pv'. cbn [List.filter app length]. rewrite Hc. cbn.
    rewrite Hpre, Hb, He, !Nat.add_succ_r. done.
Qed.

Lemma sub_class_go (fuel : nat) (s : str) (p : nat) (pv : option char) :
  (length s < fuel)%nat →
  sub_go fl (RSet neg items) [] fuel p pv s = List.filter keep s.
Proof.
  revert s p pv. induction fuel as [|f IH]; intros s p pv Hf; [lia|].
  cbn [sub_go]. destruct (search_go _ _ p pv s) as [mt|] eqn:Hs.
  - apply search_class_Some in Hs as (pre & c & post & pv' & -> & Hpre & Hc & Hb & He).
    rewrite Hb, He. cbn [pos prev rest app].
    replace (p + length pre - p)%nat with (length pre) by lia.
    rewrite take_app_length.
    assert ((p + length pre <? S (p + length pre))%nat = true) as ->
      by (apply Nat.ltb_lt; lia).
    rewrite IH by (rewrite length_app in Hf; cbn in Hf; lia).
    rewrite List.filter_app. cbn [List.filter]. by rewrite Hc, Hpre.
  - symmetry. by eapply search_class_None.
Qed.

Lemma re_sub_class (s : str) :
  re_sub fl (RSet neg items) [] s = List.filter keep s.
Proof. unfold re_sub. apply sub_class_go. lia. Qed.

End SubClass.

(** Group 1 of a pattern with [sets1] takes part in every match. *)

Lemma one_char_group (p : char → bool) (st : mstate) (k : mstate → option mstate)
    (e : mstate) :
  one_char p st k = Some e → passes_group false st k e.
Proof.
  unfold one_char. destruct (rest st) as [|x s']; [done|].
  destruct (p x); [|done]. intros H. exists (advance st x s'). by split_and!.
Qed.

Lemma rep_loop_group (mr : mstate → (mstate → option mstate) → option mstate)
    (b : bool) (lo : nat) (hi : option nat) (k : mstate → option mstate) :
  (∀ st k' e, mr st k' = Some e → passes_group b st k' e) →
  ∀ fuel cnt st0 e,
    rep_loop mr lo hi k fuel cnt st0 = Some e →
    ∃ st', k st' = Some e ∧ (has1 st0 → has1 st')
           ∧ (b = true → (cnt < lo)%nat → has1 st').
Proof.
  intros Hmr. induction fuel as [|f IH]; intros cnt st0 e; cbn [rep_loop]; [done|].
  destruct (if under hi cnt then _ else None) as [e'|] eqn:Hmore.
  - intros [= ->]. destruct (under hi cnt); [|done].
    apply Hmr in Hmore as (st1 & Hk & Hkeep & Hset).
    destruct (_ || _); [|done].
    apply IH in Hk as (st' & Hk' & Hkeep' & _).
    exists st'. split_and!; [done|tauto|tauto].
  - destruct (lo <=? cnt)%nat eqn:Hlo; [|done]. intros Hk.
    exists st0. split_and!; [done|done|].
    intros _ Hlt. apply Nat.leb_le in Hlo. lia.
Qed.

Lemma re_m_group (fl : flags) (r : regex) (st : mstate) (k : mstate → option mstate)
    (e : mstate) :
  re_m fl r st k = Some e → passes_group (sets1 r) st k e.
Proof.
  revert st k e. induction r as [|c| |neg items| | | |r1 IH1 r2 IH2|r1 IH1 r2 IH2|r1 IH1 lo hi|i r1 IH1|r1 IH1];
    intros st k e; cbn [re_m sets1].
  - intros H. exists st. by split_and!.
  - apply one_char_group.
  - apply one_char_group.
  - apply one_char_group.
  - destruct (at_bol fl st); [|done]. intros H. exists st. by split_and!.
  - destruct (at_eol fl st); [|done]. intros H. exists st. by split_and!.
  - destruct (at_wordb st); [|done]. intros H. exists st. by split_and!.
  - intros H. apply IH1 in H as (st1 & H & K1 & S1).
    apply IH2 in H as (st2 & H & K2 & S2).
    exists st2. split_and!; [done|tauto|].
    intros [?|?]%orb_true_iff; tauto.
  - destruct (re_m fl r1 st k) as [e1|] eqn:H1.
    + intros [= ->]. apply IH1 in H1 as (st1 & H & K1 & S1).
      exists st1. split_and!; [done|tauto|]. intros [? _]%andb_true_iff. tauto.
    + intros H. apply IH2 in H as (st2 & H & K2 & S2).
      exists st2. split_and!; [done|tauto|]. intros [_ ?]%andb_true_iff. tauto.
  - intros H. eapply (rep_loop_group _ (sets1 r1)) in H as (st' & H & K & S); [|apply IH1].
    exists st'. split_and!; [done|done|].
    intros [? ?%Nat.ltb_lt]%andb_true_iff. tauto.
  - intros H. apply IH1 in H as (st1 & H & K1 & S1).
    eexists. split; [exact H|]. unfold has1. cbn [caps cap_lookup].
    destruct (i =? 1)%nat eqn:Hi; cbn; [by split|]. split; tauto.
  - destruct (re_m fl r1 st Some) as [e1|] eqn:H1; [|done].
    apply IH1 in H1 as (st1 & [= ->] & K1 & S1).
    intros H. eexists. split; [exact H|]. split; tauto.
Qed.

Lemma match_at_group (fl : flags) (r : regex) (p : nat) (pv : option char) (s : str)
    (mt : rmatch) :
  sets1 r = true → match_at fl r p pv s = Some mt → is_Some (group 1 mt).
Proof.
  intros Hs. unfold match_at.
  destruct (re_m fl r _ Some) as [e|] eqn:H; [|done]. intros [= <-].
  apply re_m_group in H as (st' & [= ->] & _ & S). by apply S.
Qed.

Lemma re_search_group (fl : flags) (r : regex) (text : str) (mt : rmatch) :
  sets1 r = true → re_search fl r text = Some mt → is_Some (group 1 mt).
Proof.
  intros Hs. unfold re_search. generalize 0%nat at 1. generalize (@None char).
  induction text as [|c s IH]; intros pv p; cbn [search_go];
    destruct (match_at fl r p pv _) as [mt'|] eqn:H; try done.
  - intros [= <-]. by eapply match_at_group.
  - intros [= <-]. by eapply match_at_group.
  - apply IH.
Qed.

Lemma re_match_group (fl : flags) (r : regex) (text : str) (mt : rmatch) :
  sets1 r = true → re_match fl r text = Some mt → is_Some (group 1 mt).
Proof. intros Hs. unfold re_match. by apply match_at_group. Qed.

(** ** Fields a pass keeps *)

Lemma keeps_set_refl (d : dict) : keeps_set d d.
Proof. by intros k v. Qed.

Lemma keeps_set_trans (d1 d2 d3 : dict) :
  keeps_set d1 d2 → keeps_set d2 d3 → keeps_set d1 d3.
Proof. intros H12 H23 k v Hk Hv. apply H23; [by apply H12 | done]. Qed.

Lemma keeps_set_insert_falsy (d : dict) (k : string) (x : str) :
  get_truthy d k = false → keeps_set d (<[k := x]> d).
Proof.
  intros Hf k' v Hk Hv. destruct (decide (k = k')) as [<-|Hne].
  - by pose proof (get_truthy_false _ _ _ Hf Hk).
  - by rewrite lookup_insert_ne.
Qed.

Lemma keeps_set_insert_empty (d : dict) (k : string) (x : str) :
  d !! k = Some [] → keeps_set d (<[k := x]> d).
Proof.
  intros Hf. apply keeps_set_insert_falsy. unfold get_truthy. by rewrite Hf.
Qed.

Lemma scan_label_skip (line next_line : str) (label field value : string) (d : dict) :
  get_truthy d field = true →
  scan_label line next_line (label, field, value) d = Ok d.
Proof. intros H. unfold scan_label. by rewrite H. Qed.

Lemma scan_label_keeps (line next_line : str) (t : string * string * string) (d d' : dict) :
  scan_label line next_line t d = Ok d' → keeps_set d d'.
Proof.
  destruct t as [[label field] value]. unfold scan_label.
  destruct (get_truthy d field) eqn:Hg.
  { intros [= <-]. apply keeps_set_refl. }
  repeat case_match; intros ?; inv_bind;
    first [ apply keeps_set_refl | by apply keeps_set_insert_falsy ].
Qed.

Lemma scan_standalone_keeps (line : str) (d : dict) :
  keeps_set d (scan_standalone line d).
Proof.
  unfold scan_standalone.
  set (d1 := if get_truthy d "Account Number" then d else _).
  assert (keeps_set d d1) as H1.
  { subst d1. destruct (get_truthy d "Account Number") eqn:Hg; [apply keeps_set_refl|].
    case_match; [by apply keeps_set_insert_falsy | apply keeps_set_refl]. }
  eapply keeps_set_trans; [exact H1|]. clearbody d1.
  destruct (get_truthy d1 "IFSC Code") eqn:Hg; [apply keeps_set_refl|].
  repeat case_match; first [ apply keeps_set_refl | by apply keeps_set_insert_falsy ].
Qed.

Lemma scan_lines_keeps (lines : list str) (d d' : dict) :
  scan_lines lines d = Ok d' → keeps_set d d'.
Proof.
  revert d. induction lines as [|line after IH]; cbn [scan_lines]; intros d H.
  - injection H as <-. apply keeps_set_refl.
  - destruct (truthy line); [|by apply IH]. inv_bind.
    apply IH in Hk.
    eapply keeps_set_trans; [|eapply keeps_set_trans; [apply scan_standalone_keeps|exact Hk]].
    exact (foldM_inv keeps_set _ _ keeps_set_refl keeps_set_trans
             (scan_label_keeps line _) _ _ Ha).
Qed.

Lemma heuristic_bank_keeps (line : str) (d d' : dict) :
  heuristic_bank line d = Ok d' → keeps_set d d'.
Proof.
  unfold heuristic_bank. destruct (contains _ line); [|intros [= <-]; apply keeps_set_refl].
  intros H. inv_bind. apply item_Ok in Ha.
  destruct (truthy a) eqn:Ht; simpl in Hk; [injection Hk as <-; apply keeps_set_refl|].
  apply truthy_false in Ht as ->.
  case_match; injection Hk as <-; [by apply keeps_set_insert_empty|apply keeps_set_refl].
Qed.

Lemma heuristic_party_keeps (label field : string) (b : bool) (line : str)
    (after : list str) (d d' : dict) :
  heuristic_party label field b line after d = Ok d' → keeps_set d d'.
Proof.
  unfold heuristic_party. destruct b; [|intros [= <-]; apply keeps_set_refl].
  intros H. inv_bind. apply item_Ok in Ha.
  destruct (truthy a) eqn:Ht; simpl in Hk; [injection Hk as <-; apply keeps_set_refl|].
  apply truthy_false in Ht as ->.
  repeat case_match; injection Hk as <-;
    first [ by apply keeps_set_insert_empty | apply keeps_set_refl ].
Qed.

Lemma heuristic_line_keeps (line : str) (after : list str) (d d' : dict) :
  heuristic_line line after d = Ok d' → keeps_set d d'.
Proof.
  unfold heuristic_line. intros H. inv_bind.
  eapply keeps_set_trans; [by eapply heuristic_bank_keeps|].
  eapply keeps_set_trans; by eapply heuristic_party_keeps.
Qed.

Lemma heuristic_lines_keeps (lines : list str) (d d' : dict) :
  heuristic_lines lines d = Ok d' → keeps_set d d'.
Proof.
  revert d. induction lines as [|line after IH]; simpl; intros d H.
  - injection H as <-. apply keeps_set_refl.
  - inv_bind. eapply keeps_set_trans; [by eapply heuristic_line_keeps|by apply IH].
Qed.

(** ** Keys a pass may write *)

Lemma only_writes_refl (K : gset string) (d : dict) : only_writes K d d.
Proof. by split. Qed.

Lemma only_writes_trans (K : gset string) (d1 d2 d3 : dict) :
  only_writes K d1 d2 → only_writes K d2 d3 → only_writes K d1 d3.
Proof.
  intros [F1 D1] [F2 D2]. split; [|set_solver].
  intros k Hk. by rewrite F2, F1.
Qed.

Lemma only_writes_mono (K K' : gset string) (d d' : dict) :
  K ⊆ K' → only_writes K d d' → only_writes K' d d'.
Proof. intros HK [F D]. split; [|done]. intros k Hk. apply F. set_solver. Qed.

Lemma only_writes_insert (K : gset string) (d : dict) (k : string) (v : str) :
  k ∈ K → only_writes K d (<[k := v]> d).
Proof.
  intros Hk. split.
  - intros k' Hk'. rewrite lookup_insert_ne; [done|]. by intros ->.
  - rewrite dom_insert_L. set_solver.
Qed.

Lemma only_writes_dom (K : gset string) (d d' : dict) :
  only_writes K d d' → K ⊆ dom d → dom d' = dom d.
Proof.
  intros [F D] HK. apply set_eq. intros k. split; [|by apply D].
  intros Hk'. destruct (decide (k ∈ K)) as [Hk|Hk]; [by apply HK|].
  apply elem_of_dom. rewrite <- (F k Hk). by apply elem_of_dom.
Qed.

Lemma foldM_only_writes {A} (K : gset string) (body : A → dict → M dict) (l : list A) :
  (∀ x s s', x ∈ l → body x s = Ok s' → only_writes K s s') →
  ∀ s s', foldM body l s = Ok s' → only_writes K s s'.
Proof.
  induction l as [|x l IH]; cbn [foldM]; intros Hbody s s' H.
  - injection H as <-. apply only_writes_refl.
  - inv_bind. eapply only_writes_trans.
    + eapply Hbody; [|eassumption]. set_solver.
    + eapply IH; [|eassumption]. intros y t t' Hy. apply Hbody. set_solver.
Qed.

Ltac ow_solve :=
  repeat case_match; simplify_eq;
  first [ apply only_writes_refl | apply only_writes_insert; set_solver ].

Lemma scan_label_writes (line next_line : str) (t : string * string * string) (d d' : dict) :
  scan_label line next_line t d = Ok d' → only_writes {[t.1.2]} d d'.
Proof.
  destruct t as [[label field] value]. unfold scan_label. cbn [fst snd].
  repeat case_match; intros ?; inv_bind;
    first [ apply only_writes_refl | apply only_writes_insert; set_solver ].
Qed.

Lemma scan_standalone_writes (line : str) (d : dict) :
  only_writes standalone_fields d (scan_standalone line d).
Proof.
  unfold scan_standalone, standalone_fields.
  set (d1 := if get_truthy d "Account Number" then d else _).
  assert (only_writes {["Account Number"; "IFSC Code"]} d d1) as H1.
  { subst d1. ow_solve. }
  eapply only_writes_trans; [exact H1|]. clearbody d1. ow_solve.
Qed.

Lemma scan_lines_writes (lines : list str) (d d' : dict) :
  scan_lines lines d = Ok d' →
  only_writes (multiline_fields ∪ standalone_fields) d d'.
Proof.
  revert d. induction lines as [|line after IH]; cbn [scan_lines]; intros d H.
  - injection H as <-. apply only_writes_refl.
  - destruct (truthy line); [|by apply IH]. inv_bind. apply IH in Hk.
    eapply only_writes_trans; [|eapply only_writes_trans; [|exact Hk]].
    + eapply only_writes_mono; [apply union_subseteq_l|].
      eapply foldM_only_writes; [|eassumption].
      intros t s s' Ht Hs. eapply only_writes_mono; [|by eapply scan_label_writes].
      apply singleton_subseteq_l. unfold multiline_fields.
      apply elem_of_list_to_set, list_elem_of_fmap. by exists t.
    + eapply only_writes_mono; [apply union_subseteq_r|apply scan_standalone_writes].
Qed.

Lemma heuristic_bank_writes (line : str) (d d' : dict) :
  heuristic_bank line d = Ok d' → only_writes heuristic_fields d d'.
Proof.
  unfold heuristic_bank, heuristic_fields.
  repeat case_match; intros ?; inv_bind; ow_solve.
Qed.

Lemma heuristic_party_writes (label field : string) (b : bool) (line : str)
    (after : list str) (d d' : dict) :
  field ∈ heuristic_fields →
  heuristic_party label field b line after d = Ok d' →
  only_writes heuristic_fields d d'.
Proof.
  unfold heuristic_party. intros Hf.
  repeat case_match; intros ?; inv_bind;
    repeat case_match; simplify_eq;
    first [ apply only_writes_refl | by apply only_writes_insert ].
Qed.

Lemma heuristic_line_writes (line : str) (after : list str) (d d' : dict) :
  heuristic_line line after d = Ok d' → only_writes heuristic_fields d d'.
Proof.
  unfold heuristic_line. intros H.
  apply bind_Ok in H as (d1 & H1 & H'). apply bind_Ok in H' as (d2 & H2 & H3).
  eapply only_writes_trans; [by eapply heuristic_bank_writes|].
  eapply only_writes_trans;
    (eapply heuristic_party_writes; [|eassumption]); by_compute.
Qed.

Lemma heuristic_lines_writes (lines : list str) (d d' : dict) :
  heuristic_lines lines d = Ok d' → only_writes heuristic_fields d d'.
Proof.
  revert d. induction lines as [|line after IH]; cbn [heuristic_lines]; intros d H.
  - injection H as <-. apply only_writes_refl.
  - inv_bind. apply IH in Hk. unfold heuristic_line in Ha. inv_bind.
    eapply only_writes_trans; [by eapply heuristic_bank_writes|].
    eapply only_writes_trans; [|eapply only_writes_trans; [|exact Hk]];
      (eapply heuristic_party_writes; [|eassumption]);
      unfold heuristic_fields; set_solver.
Qed.

Lemma screenshot_inline_writes (text : str) (d d' : dict) :
  screenshot_inline text d = Ok d' → only_writes inline_fields d d'.
Proof.
  unfold screenshot_inline, inline_fields. intros H. inv_bind.
  eapply only_writes_trans; [apply (only_writes_insert _ _ "Amount"); set_solver|].
  eapply only_writes_trans; [apply (only_writes_insert _ _ "UPI ID / VPA"); set_solver|].
  eapply only_writes_trans; [apply (only_writes_insert _ _ "Date"); set_solver|].
  eapply only_writes_trans; [apply (only_writes_insert _ _ "Time"); set_solver|].
  ow_solve.
Qed.

Lemma assign_txn_other (d : dict) (txn : str) (k : string) :
  k ∉ txn_fields → assign_txn d txn !! k = d !! k.
Proof.
  intros Hk. unfold assign_txn.
  repeat case_match; try done; rewrite lookup_insert_ne; try done;
    intros <-; apply Hk; unfold txn_fields; set_solver.
Qed.

Lemma foldl_assign_txn_other (l : list str) (d : dict) (k : string) :
  k ∉ txn_fields → foldl assign_txn d l !! k = d !! k.
Proof.
  intros Hk. revert d. induction l as [|t l IH]; simpl; intros d; [done|].
  by rewrite IH, assign_txn_other.
Qed.

Lemma foldl_assign_txn_writes (l : list str) (d : dict) :
  only_writes (list_to_set txn_fields) d (foldl assign_txn d l).
Proof.
  revert d. induction l as [|t l IH]; cbn [foldl]; intros d; [apply only_writes_refl|].
  eapply only_writes_trans; [|apply IH].
  unfold assign_txn, txn_fields. ow_solve.
Qed.

Lemma screenshot_init_txn_empty (text filename : str) (k : string) :
  k ∈ txn_fields → screenshot_init text filename !! k = Some [].
Proof.
  unfold txn_fields. rewrite !elem_of_cons, elem_of_nil.
  intros [->|[->|[->|[]]]]; reflexivity.
Qed.

Lemma screenshot_inline_txn_empty (text filename : str) (d0 : dict) (k : string) :
  screenshot_inline text (screenshot_init text filename) = Ok d0 →
  k ∈ txn_fields → d0 !! k = Some [].
Proof.
  intros H Hk. apply screenshot_inline_writes in H as [F _].
  rewrite F; [by apply screenshot_init_txn_empty|].
  revert Hk. unfold txn_fields. rewrite !elem_of_cons, elem_of_nil.
  intros [->|[->|[->|[]]]]; by_compute.
Qed.

Lemma post_account_number_writes (d d' : dict) :
  post_account_number d = Ok d' → only_writes {["Account Number"]} d d'.
Proof. unfold post_account_number. intros H. inv_bind. ow_solve. Qed.

Lemma post_account_type_writes (d d' : dict) :
  post_account_type d = Ok d' → only_writes {["Account Type"]} d d'.
Proof. unfold post_account_type. intros H. inv_bind. ow_solve. Qed.

Lemma post_ifsc_micr_writes (d d' : dict) :
  post_ifsc_micr d = Ok d' → only_writes {["MICR Code"]} d d'.
Proof.
  unfold post_ifsc_micr. intros H. inv_bind.
  destruct (truthy a); [|inv_bind; apply only_writes_refl]. inv_bind. ow_solve.
Qed.

Lemma post_balance_writes (d : dict) : only_writes {["Balance (₹)"]} d (post_balance d).
Proof. unfold post_balance. ow_solve. Qed.

Lemma post_mobile_writes (d : dict) : only_writes {["Mobile Number"]} d (post_mobile d).
Proof. unfold post_mobile. ow_solve. Qed.

Lemma passbook_post_writes (d d' : dict) :
  passbook_post d = Ok d' → only_writes post_fields d d'.
Proof.
  unfold passbook_post. intros H. inv_bind.
  eapply only_writes_trans;
    [eapply only_writes_mono; [|by eapply post_account_number_writes]; by_compute|].
  eapply only_writes_trans;
    [eapply only_writes_mono; [|by eapply post_account_type_writes]; by_compute|].
  eapply only_writes_trans;
    [eapply only_writes_mono; [|by eapply post_ifsc_micr_writes]; by_compute|].
  eapply only_writes_trans;
    [eapply only_writes_mono; [|by eapply post_balance_writes]; by_compute|].
  eapply only_writes_mono; [|by eapply post_mobile_writes]. by_compute.
Qed.

(** ** The field keys of a record *)

Lemma screenshot_init_dom (text filename : str) :
  dom (screenshot_init text filename) = screenshot_keys.
Proof.
  unfold screenshot_init. rewrite dom_list_to_map_L. cbn [fmap list_fmap fst].
  reflexivity.
Qed.

Lemma passbook_pass1_dom (text filename : str) (d : dict) :
  passbook_pass1 text filename = Ok d → dom d = passbook_keys.
Proof.
  unfold passbook_pass1. intros H.
  repeat (apply bind_Ok in H; destruct H as (? & _ & H)).
  apply (inj Ok) in H. subst d.
  rewrite dom_list_to_map_L. cbn [fmap list_fmap fst]. reflexivity.
Qed.

Lemma parse_passbook_details_dom (text filename : str) (d : dict) :
  parse_passbook_details text filename = Ok d → dom d = passbook_keys.
Proof.
  unfold parse_passbook_details. intros H.
  apply bind_Ok in H as (d1 & H1 & H'). apply bind_Ok in H' as (d2 & H2 & H3).
  apply passbook_pass1_dom in H1. apply scan_lines_writes in H2.
  apply passbook_post_writes in H3.
  apply only_writes_dom in H2; [|rewrite H1; by_compute].
  apply only_writes_dom in H3; [|rewrite H2, H1; by_compute].
  congruence.
Qed.

Lemma parse_details_dom (it : list str → list str) (text filename source_type : str)
    (d : dict) :
  parse_details it text filename source_type = Ok d → dom d = field_keys source_type.
Proof.
  unfold parse_details, field_keys. destruct (str_eqb source_type _).
  { apply parse_passbook_details_dom. }
  intros H. apply bind_Ok in H as (d0 & H0 & H1).
  apply screenshot_inline_writes in H0. apply heuristic_lines_writes in H1.
  pose proof (foldl_assign_txn_writes (it (all_txn_ids text)) d0) as H2.
  pose proof (screenshot_init_dom text filename) as Hi.
  apply only_writes_dom in H0; [|rewrite Hi; by_compute].
  apply only_writes_dom in H2; [|rewrite H0, Hi; by_compute].
  apply only_writes_dom in H1; [|rewrite H2, H0, Hi; by_compute].
  congruence.
Qed.

Lemma error_record_dom (filename e : str) : dom (error_record filename e) = error_keys.
Proof.
  unfold error_record, error_keys. rewrite !dom_insert_L, dom_empty_L. set_solver.
Qed.

Lemma error_key_undeclared (source_type : str) : "Error" ∉ field_keys source_type.
Proof. unfold field_keys. destruct (str_eqb _ _); by_compute. Qed.

(** ** [parse_details] returns *)

Lemma group1_strip_total (fl : flags) (pattern : string) (text : str) (mt : rmatch) :
  strictly_grouped pattern = true →
  re_search fl (re_compile pattern) text = Some mt
  ∨ re_match fl (re_compile pattern) text = Some mt →
  ∃ v, group1_strip (re_compile pattern) mt = Ok v.
Proof.
  unfold strictly_grouped, group1_strip.
  intros [Hn Hs]%andb_true_iff Hm.
  destruct (ngroups (re_compile pattern)); [done|].
  assert (is_Some (group 1 mt)) as [g ->]; [|by eexists].
  destruct Hm; [by eapply re_search_group|by eapply re_match_group].
Qed.

Lemma first_match_total (pats : list string) (text : str) :
  forallb well_grouped pats = true → ∃ v, first_match pats text = Ok v.
Proof.
  induction pats as [|p pats IH]; cbn [first_match forallb]; [by eexists|].
  intros [Hp Hps]%andb_true_iff.
  destruct (re_search _ (re_compile p) text) as [mt|] eqn:Hm; [|by apply IH].
  unfold matched_value. unfold well_grouped in Hp.
  destruct (ngroups (re_compile p)) eqn:Hn; [by eexists|]. cbn in Hp.
  unfold group1_strip. rewrite Hn.
  destruct (re_search_group _ _ _ _ Hp Hm) as [g ->]. by eexists.
Qed.

Lemma patterns_well_grouped :
  map_Forall (λ _ pats, forallb well_grouped pats = true) patterns.
Proof. by_compute. Qed.

Lemma passbook_patterns_well_grouped :
  map_Forall (λ _ pats, forallb well_grouped pats = true) passbook_patterns.
Proof. by_compute. Qed.

Lemma labels_strictly_grouped :
  Forall (λ t : string * string * string, strictly_grouped t.2 = true)
    passbook_multiline_labels.
Proof. by_compute. Qed.

Lemma find_match_total (key : string) (text : str)
    (pd : option (gmap string (list string))) :
  pd = None ∨ pd = Some passbook_patterns →
  ∃ v, find_match key text pd = Ok v.
Proof.
  intros Hpd. unfold find_match. apply first_match_total. unfold rules_of.
  destruct Hpd as [->| ->].
  - destruct (patterns !! key) as [pats|] eqn:E; [|done].
    by apply patterns_well_grouped in E.
  - assert (bool_decide (passbook_patterns = ∅) = false) as -> by (vm_compute; reflexivity).
    destruct (passbook_patterns !! key) as [pats|] eqn:E; [|done].
    by apply passbook_patterns_well_grouped in E.
Qed.

Ltac find_ok :=
  match goal with
  | |- context [find_match ?key ?text ?pd] =>
      let v := fresh "v" in
      let E := fresh "E" in
      destruct (find_match_total key text pd) as [v E]; [auto|];
      rewrite E; cbn [mbind M_bind bindM fmap M_fmap]
  end.

Lemma screenshot_inline_total (text : str) (d : dict) :
  ∃ d', screenshot_inline text d = Ok d'.
Proof.
  unfold screenshot_inline. do 5 find_ok. repeat case_match; by eexists.
Qed.

Lemma heuristic_line_total (line : str) (after : list str) (d : dict) :
  heuristic_fields ⊆ dom d → ∃ d', heuristic_line line after d = Ok d'.
Proof.
  intros Hd. unfold heuristic_line.
  assert (∃ d1, heuristic_bank line d = Ok d1) as [d1 H1].
  { unfold heuristic_bank. destruct (item_total d "Bank Name") as [v ->]; [set_solver|].
    rewrite Ok_bind. repeat case_match; by eexists. }
  rewrite H1, Ok_bind. apply heuristic_bank_writes in H1 as [_ D1].
  assert (∀ label field b d1, heuristic_fields ⊆ dom d1 → field ∈ heuristic_fields →
            ∃ d2, heuristic_party label field b line after d1 = Ok d2) as Hparty.
  { intros label field b d0 Hd0 Hf. unfold heuristic_party.
    destruct (item_total d0 field) as [v ->]; [set_solver|].
    rewrite Ok_bind. repeat case_match; by eexists. }
  destruct (Hparty "^to\s*[:\-]?\s*" "To (Receiver)"
              (startswith (u8 "to") (lower line) || str_eqb (lower line) (u8 "paid to"))
              d1) as [d2 H2]; [set_solver|by_compute|].
  rewrite H2, Ok_bind.
  apply heuristic_party_writes in H2 as [_ D2]; [|by_compute].
  apply Hparty; [set_solver|by_compute].
Qed.

Lemma heuristic_lines_total (lines : list str) (d : dict) :
  heuristic_fields ⊆ dom d → ∃ d', heuristic_lines lines d = Ok d'.
Proof.
  revert d. induction lines as [|line after IH]; intros d Hd; cbn [heuristic_lines].
  - by eexists.
  - destruct (heuristic_line_total line after d Hd) as [d1 H1].
    rewrite H1, Ok_bind. apply IH.
    apply heuristic_line_writes in H1 as [_ D]. set_solver.
Qed.

Lemma scan_label_total (line next_line : str) (t : string * string * string) (d : dict) :
  strictly_grouped t.2 = true → ∃ d', scan_label line next_line t d = Ok d'.
Proof.
  destruct t as [[label field] value]. cbn [snd]. intros Hg. unfold scan_label.
  repeat case_match; try by eexists.
  edestruct (group1_strip_total IGNORECASE value next_line) as [v ->]; [done|by right|].
  by eexists.
Qed.

Lemma scan_lines_total (lines : list str) (d : dict) :
  ∃ d', scan_lines lines d = Ok d'.
Proof.
  revert d. induction lines as [|line after IH]; intros d; cbn [scan_lines]; [by eexists|].
  destruct (truthy line); [|apply IH].
  edestruct (foldM_total (scan_label line (next_nonempty after)) passbook_multiline_labels)
    as [d1 ->]; [|rewrite Ok_bind; apply IH].
  eapply Forall_impl; [apply labels_strictly_grouped|].
  intros t Ht s. by apply scan_label_total.
Qed.

Lemma passbook_pass1_total (text filename : str) :
  ∃ d, passbook_pass1 text filename = Ok d.
Proof. unfold passbook_pass1. do 23 find_ok. by eexists. Qed.

Lemma passbook_post_total (d : dict) :
  dom d = passbook_keys → ∃ d', passbook_post d = Ok d'.
Proof.
  intros Hd. unfold passbook_post.
  assert (∃ d1, post_account_number d = Ok d1) as [d1 H1].
  { unfold post_account_number.
    destruct (item_total d "Account Number") as [v ->]; [rewrite Hd; by_compute|].
    rewrite Ok_bind. case_match; by eexists. }
  rewrite H1, Ok_bind. apply post_account_number_writes in H1.
  apply only_writes_dom in H1; [|rewrite Hd; by_compute].
  assert (∃ d2, post_account_type d1 = Ok d2) as [d2 H2].
  { unfold post_account_type.
    destruct (item_total d1 "Account Type") as [v ->]; [rewrite H1, Hd; by_compute|].
    rewrite Ok_bind. cbn zeta. case_match; by eexists. }
  rewrite H2, Ok_bind. apply post_account_type_writes in H2.
  apply only_writes_dom in H2; [|rewrite H1, Hd; by_compute].
  assert (∃ d3, post_ifsc_micr d2 = Ok d3) as [d3 ->]; [|rewrite Ok_bind; by eexists].
  unfold post_ifsc_micr.
  destruct (item_total d2 "IFSC Code") as [v ->]; [rewrite H2, H1, Hd; by_compute|].
  rewrite Ok_bind. destruct (truthy v); [|by eexists].
  destruct (item_total d2 "MICR Code") as [w ->]; [rewrite H2, H1, Hd; by_compute|].
  rewrite Ok_bind. case_match; by eexists.
Qed.

(** Parsing never raises: the catalog's patterns always set the group that is
    read, and the keys that are read are in the record. *)
Lemma parse_details_total (it : list str → list str) (text filename source_type : str) :
  ∃ d, parse_details it text filename source_type = Ok d.
Proof.
  unfold parse_details. destruct (str_eqb source_type _).
  - unfold parse_passbook_details.
    destruct (passbook_pass1_total text filename) as [d1 H1]. rewrite H1, Ok_bind.
    destruct (scan_lines_total (strip <$> split NL text) d1) as [d2 H2].
    unfold scan_passbook_lines. rewrite H2, Ok_bind.
    apply passbook_post_total.
    apply passbook_pass1_dom in H1. apply scan_lines_writes in H2.
    apply only_writes_dom in H2; [congruence|rewrite H1; by_compute].
  - destruct (screenshot_inline_total text (screenshot_init text filename)) as [d0 H0].
    rewrite H0, Ok_bind. apply heuristic_lines_total.
    apply screenshot_inline_writes in H0 as [_ D0].
    pose proof (foldl_assign_txn_writes (it (all_txn_ids text)) d0) as [_ D1].
    rewrite screenshot_init_dom in D0.
    assert (heuristic_fields ⊆ screenshot_keys) by by_compute. set_solver.
Qed.

(** ** The field matcher *)





(** ** Amount normalisation *)

Lemma clean_amount_spec (raw : str) :
  clean_amount raw =
    if truthy raw
    then if float_ok (List.filter amount_char raw)
         then List.filter amount_char raw else raw
    else [].
Proof.
  unfold clean_amount. destruct (truthy raw); [|done]. cbn [negb].
  assert (re_compile "[^\d\.]" = RSet true [CDigit; CChar 46]) as ->
    by (vm_compute; reflexivity).
  rewrite re_sub_class.
  assert (List.filter (λ c, negb (set_matches NOFLAGS true [CDigit; CChar 46] c)) raw
          = List.filter amount_char raw) as ->; [|done].
  apply List.filter_ext. intros c. unfold amount_char. change (ch ".") with 46.
  unfold set_matches, set_has, item_has. cbn [icase NOFLAGS existsb xorb].
  by destruct (is_digit c), (c =? 46).
Qed.

(** *** [float] on strings of digits and decimal points *)

Lemma amount_char_spec (c : char) :
  amount_char c = true ↔ (48 ≤ c ∧ c ≤ 57) ∨ c = 46.
Proof.
  unfold amount_char, is_digit. change (ch ".") with 46.
  rewrite orb_true_iff, andb_true_iff, !N.leb_le, N.eqb_eq. tauto.
Qed.

Lemma is_digit_spec (c : char) : is_digit c = true ↔ 48 ≤ c ∧ c ≤ 57.
Proof. unfold is_digit. by rewrite andb_true_iff, !N.leb_le. Qed.

Lemma amount_char_not_space (c : char) : amount_char c = true → is_space c = false.
Proof.
  rewrite amount_char_spec. intros Hc. apply not_true_iff_false. unfold is_space.
  rewrite !orb_true_iff, !andb_true_iff, !N.leb_le, !N.eqb_eq. lia.
Qed.

Lemma lstrip_amount (s : str) : forallb amount_char s = true → lstrip s = s.
Proof.
  destruct s as [|c s]; [done|]. cbn [forallb lstrip].
  intros [Hc _]%andb_true_iff. by rewrite (amount_char_not_space _ Hc).
Qed.

Lemma strip_amount (s : str) : forallb amount_char s = true → strip s = s.
Proof.
  intros H. unfold strip, rstrip. rewrite (lstrip_amount _ H).
  rewrite lstrip_amount; [apply rev_involutive|].
  apply forallb_forall. intros c Hc%in_rev.
  by apply (proj1 (forallb_forall _ _) H).
Qed.

Lemma skip_sign_amount (s : str) : forallb amount_char s = true → skip_sign s = s.
Proof.
  destruct s as [|c s]; [done|]. cbn [forallb skip_sign].
  intros [Hc%amount_char_spec _]%andb_true_iff.
  change (ch "+") with 43. change (ch "-") with 45.
  assert ((c =? 43) || (c =? 45) = false) as ->; [|done].
  apply not_true_iff_false. rewrite orb_true_iff, !N.eqb_eq. lia.
Qed.

Lemma lower_amount (s : str) : forallb amount_char s = true → lower s = s.
Proof.
  induction s as [|c s IH]; [done|]. cbn [forallb lower map].
  intros [Hc%amount_char_spec Hs]%andb_true_iff. fold (lower s). rewrite (IH Hs).
  f_equal. unfold lower_char, is_upper.
  assert ((65 <=? c) && (c <=? 90) = false) as ->; [|done].
  apply not_true_iff_false. rewrite andb_true_iff, !N.leb_le. lia.
Qed.

Lemma float_ok_amount (s : str) :
  forallb amount_char s = true → float_ok s = float_number s.
Proof.
  intros H. unfold float_ok. cbv zeta.
  rewrite (strip_amount _ H), (skip_sign_amount _ H), (lower_amount _ H).
  assert (∀ w : str, forallb amount_char w = false → str_eqb s w = false) as Hne.
  { intros w Hw. unfold str_eqb. apply bool_decide_eq_false. intros ->. congruence. }
  rewrite !Hne; [done|by vm_compute..].
Qed.

Lemma digits_tail_app (ds r : str) :
  forallb is_digit ds = true → ends_digits r → digits_tail (ds ++ r) = r.
Proof.
  intros Hds Hr. induction ds as [|d ds IH]; cbn [app].
  - destruct Hr as [->|(c & r' & -> & Hc & Hu)]; [done|]. cbn [digits_tail].
    rewrite Hc. by rewrite (proj2 (N.eqb_neq _ _) Hu).
  - cbn [forallb] in Hds. apply andb_true_iff in Hds as [Hd Hds].
    cbn [digits_tail]. rewrite Hd. by apply IH.
Qed.

Lemma digitpart_app (ds r : str) :
  ds ≠ [] → forallb is_digit ds = true → ends_digits r →
  digitpart (ds ++ r) = Some r.
Proof.
  destruct ds as [|d ds]; [done|]. intros _ Hds Hr. cbn [forallb] in Hds.
  apply andb_true_iff in Hds as [Hd Hds]. cbn [app digitpart]. rewrite Hd.
  by rewrite digits_tail_app.
Qed.

Lemma digitpart_none (r : str) :
  ends_digits r → digitpart r = None.
Proof. intros [->|(c & r' & -> & Hc & _)]; [done|]. cbn. by rewrite Hc. Qed.

Lemma ends_digits_dot (r : str) : ends_digits (ch "." :: r).
Proof. right. exists (ch "."), r. by split_and!. Qed.

(** The leading digits of a string of digits and decimal points. *)
Lemma amount_leading_digits (s : str) :
  forallb amount_char s = true →
  ∃ ds r, s = ds ++ r ∧ forallb is_digit ds = true
          ∧ (r = [] ∨ ∃ r', r = ch "." :: r' ∧ forallb amount_char r' = true).
Proof.
  induction s as [|c s IH]; cbn [forallb].
  - intros _. exists [], []. by split_and!; [| |left].
  - intros [Hc Hs]%andb_true_iff. destruct (is_digit c) eqn:Hd.
    + destruct (IH Hs) as (ds & r & -> & Hds & Hr).
      exists (c :: ds), r. cbn [forallb]. rewrite Hd, Hds. by split_and!.
    + exists [], (c :: s). split_and!; [done|done|]. right. exists s.
      split; [|done]. f_equal.
      apply amount_char_spec in Hc as [Hc| ->]; [|done].
      apply is_digit_spec in Hc. congruence.
Qed.

Lemma float_number_decimal (s : str) :
  forallb amount_char s = true → (float_number s = true ↔ decimal_number s).
Proof.
  intros Hs. split.
  - destruct (amount_leading_digits s Hs) as (ip & r & -> & Hip & Hr).
    destruct Hr as [->|(r' & -> & Hr')].
    + rewrite app_nil_r. destruct ip as [|d ip]; [done|].
      intros _. exists (d :: ip), []. split_and!; [done|done|]. by left.
    + destruct (amount_leading_digits r' Hr') as (fp & r2 & -> & Hfp & Hr2).
      assert (ends_digits r2) as Hend.
      { destruct Hr2 as [->|(r3 & -> & _)]; [by left|apply ends_digits_dot]. }
      assert (float_number (ip ++ ch "." :: fp ++ r2) = true → r2 = [] ∧ ip ++ fp ≠ [])
        as Hshape.
      { unfold float_number. destruct ip as [|d ip].
        - cbn [app]. rewrite (digitpart_none _ (ends_digits_dot _)).
          change (ch "." =? ch ".") with true. cbv iota.
          destruct fp as [|f fp].
          + cbn [app]. by rewrite (digitpart_none _ Hend).
          + rewrite (digitpart_app (f :: fp) r2) by done.
            destruct Hr2 as [->|(r3 & -> & _)]; [done|].
            change ((ch "." =? ch "e") || (ch "." =? ch "E")) with false. done.
        - rewrite (digitpart_app (d :: ip)) by (done || apply ends_digits_dot).
          change (ch "." =? ch ".") with true. cbv iota. intros H. split; [|done].
          destruct fp as [|f fp].
          + cbn [app] in H. rewrite (digitpart_none _ Hend) in H. cbn [default] in H.
            destruct Hr2 as [->|(r3 & -> & _)]; [done|].
            change ((ch "." =? ch "e") || (ch "." =? ch "E")) with false in H. done.
          + rewrite (digitpart_app (f :: fp) r2) in H by done. cbn [default] in H.
            destruct Hr2 as [->|(r3 & -> & _)]; [done|].
            change ((ch "." =? ch "e") || (ch "." =? ch "E")) with false in H. done. }
      intros H. apply Hshape in H as [-> Hne]. rewrite app_nil_r.
      exists ip, fp. split_and!; [done|done|]. by right.
  - intros (ip & fp & Hip & Hfp & [[-> Hne]|[-> Hne]]); unfold float_number.
    + rewrite <- (app_nil_r ip). rewrite digitpart_app by (done || by left). done.
    + destruct ip as [|d ip].
      * cbn [app] in *. rewrite (digitpart_none _ (ends_digits_dot _)).
        change (ch "." =? ch ".") with true. cbv iota.
        rewrite <- (app_nil_r fp). rewrite digitpart_app by (done || by left). done.
      * rewrite (digitpart_app (d :: ip)) by (done || apply ends_digits_dot).
        change (ch "." =? ch ".") with true. cbv iota.
        destruct fp as [|f fp]; [done|].
        rewrite <- (app_nil_r (f :: fp)). rewrite digitpart_app by (done || by left).
        done.
Qed.

Lemma filter_amount_char (raw : str) :
  forallb amount_char (List.filter amount_char raw) = true.
Proof.
  apply forallb_forall. intros c Hc. by apply List.filter_In in Hc as [_ Hc].
Qed.






(** ** Transaction-id classification *)


Lemma txn_class_field (token : str) (f : string) :
  txn_class token = Some f → f ∈ txn_fields.
Proof.
  unfold txn_class, txn_fields. repeat case_match; intros [= <-]; set_solver.
Qed.




(** ** First writer wins *)

(** C1. First writer wins across passes. The multi-line scanner skips a rule
    triple whose destination field is already non-empty, and neither the
    scanner nor the positional heuristics (bank name, sender, receiver) change
    a field that is non-empty when they start. Hence in passbook mode what the
    inline rules found survives the scanner, and the normalisation that follows
    leaves every field but Account Number, Account Type, MICR Code, Balance and
    Mobile Number as the scanner left it; in screenshot mode what the inline
    rules found survives the transaction-id classification and the heuristics:
    it is the value of the returned record. *)
Theorem first_writer_wins :
  (∀ (line next_line : str) (label field value : string) (d : dict),
     get_truthy d field = true →
     scan_label line next_line (label, field, value) d = Ok d)
  ∧ (∀ (text : str) (d d' : dict),
       scan_passbook_lines text d = Ok d' → keeps_set d d')
  ∧ (∀ (lines : list str) (d d' : dict),
       heuristic_lines lines d = Ok d' → keeps_set d d')
  ∧ (∀ (it : list str → list str) (text filename : str),
       ∃ d1 d2 d : dict,
         passbook_pass1 text filename = Ok d1
         ∧ scan_passbook_lines text d1 = Ok d2
         ∧ parse_details it text filename (u8 "passbook") = Ok d
         ∧ keeps_set d1 d2
         ∧ ∀ k, k ∉ post_fields → d !! k = d2 !! k)
  ∧ (∀ (it : list str → list str) (text filename source_type : str),
       source_type ≠ u8 "passbook" →
       ∃ d0 d : dict,
         screenshot_inline text (screenshot_init text filename) = Ok d0
         ∧ parse_details it text filename source_type = Ok d
         ∧ keeps_set d0 d).
Proof.
  split_and!.
  - intros. by apply scan_label_skip.
  - intros text d d'. apply scan_lines_keeps.
  - apply heuristic_lines_keeps.
  - intros it text filename.
    destruct (parse_details_total it text filename (u8 "passbook")) as [d Hd].
    pose proof Hd as Hd'. unfold parse_details, str_eqb in Hd'.
    rewrite bool_decide_eq_true_2 in Hd' by done. unfold parse_passbook_details in Hd'.
    apply bind_Ok in Hd' as (d1 & H1 & H'). apply bind_Ok in H' as (d2 & H2 & H3).
    exists d1, d2, d. split_and!; try done.
    + by apply scan_lines_keeps in H2.
    + by apply passbook_post_writes in H3 as [F _].
  - intros it text filename source_type Hst.
    destruct (parse_details_total it text filename source_type) as [d Hd].
    pose proof Hd as H. unfold parse_details, str_eqb in H.
    rewrite bool_decide_eq_false_2 in H by done.
    apply bind_Ok in H as (d0 & H0 & H1). exists d0, d. split_and!; try done.
    apply heuristic_lines_keeps in H1.
    intros k v Hk Hv. apply H1; [|done].
    rewrite foldl_assign_txn_other; [done|].
    intros Hin. pose proof (screenshot_inline_txn_empty _ _ _ _ H0 Hin). congruence.
Qed.

Lemma first_writer_wins_witness :
  ∃ d1 d2 : dict,
    passbook_pass1 two_ifsc_page (u8 "page.png") = Ok d1
    ∧ scan_passbook_lines two_ifsc_page d1 = Ok d2
    ∧ d1 !! "IFSC Code" = Some (u8 "SBIN0001234")
    ∧ d2 !! "IFSC Code" = Some (u8 "SBIN0001234").
Proof.
  destruct (proj1 (proj2 (proj2 (proj2 first_writer_wins)))
              iter_first two_ifsc_page (u8 "page.png"))
    as (d1 & d2 & d & H1 & H2 & _ & K & _).
  exists d1, d2. split; [exact H1|]. split; [exact H2|].
  assert (d1 !! "IFSC Code" = Some (u8 "SBIN0001234")) as H3.
  { assert (passbook_pass1 two_ifsc_page (u8 "page.png") ≫= (λ d, item d "IFSC Code")
            = Ok (u8 "SBIN0001234")) as E by (vm_compute; reflexivity).
    rewrite H1 in E. by apply item_Ok in E. }
  split; [exact H3|]. apply (K _ _ H3). discriminate.
Defined.

(** ** The IFSC/MICR collision guard *)

(** What the collision guard does to the two codes. *)
Lemma post_ifsc_micr_collide (d : dict) (v : str) :
  d !! "IFSC Code" = Some v → d !! "MICR Code" = Some v → v ≠ [] →
  post_ifsc_micr d = Ok (<["MICR Code" := []]> d).
Proof.
  intros Hi Hm Hv. unfold post_ifsc_micr, item. rewrite Hi. cbn.
  apply truthy_nonempty in Hv. rewrite Hv, Hm. cbn. rewrite Hv.
  unfold str_eqb. by rewrite bool_decide_eq_true_2.
Qed.

Lemma post_ifsc_micr_distinct (d d' : dict) (v : str) :
  post_ifsc_micr d = Ok d' →
  d' !! "IFSC Code" = Some v → d' !! "MICR Code" = Some v → v = [].
Proof.
  unfold post_ifsc_micr. intros H Hi Hm. inv_bind. apply item_Ok in Ha.
  destruct (truthy a) eqn:Ht.
  - inv_bind. apply item_Ok in Ha0.
    destruct (truthy a0 && str_eqb a a0) eqn:Hc; inv_bind.
    + rewrite lookup_insert_eq in Hm. congruence.
    + rewrite Ha in Hi. rewrite Ha0 in Hm. simplify_eq.
      rewrite Ht in Hc. unfold str_eqb in Hc. by rewrite bool_decide_eq_true_2 in Hc.
  - inv_bind. rewrite Ha in Hi. simplify_eq. by apply truthy_false.
Qed.

Lemma scan_standalone_ifsc (line : str) (d : dict) (val : str) :
  scan_standalone line d !! "IFSC Code" = Some val →
  d !! "IFSC Code" ≠ Some val →
  d !! "MICR Code" ≠ Some val.
Proof.
  unfold scan_standalone.
  set (d1 := if get_truthy d "Account Number" then d else _).
  assert (d1 !! "IFSC Code" = d !! "IFSC Code" ∧ d1 !! "MICR Code" = d !! "MICR Code")
    as [Ei Em].
  { subst d1. repeat case_match; split; try done; by rewrite lookup_insert_ne. }
  rewrite <- Ei, <- Em. clearbody d1. clear Ei Em.
  destruct (get_truthy d1 "IFSC Code"); [congruence|].
  destruct (re_match _ _ line) as [im|]; [|congruence].
  case_bool_decide as Hd; [|congruence].
  rewrite lookup_insert_eq. intros [= <-] _. congruence.
Qed.

(** C8. IFSC/MICR collision guard. When the post-processing of a passbook
    record starts with equal non-empty IFSC Code and MICR Code, it ends with
    MICR Code empty and IFSC Code unchanged. The standalone IFSC recogniser of
    the scanner stores a value only if it differs from the MICR Code held at
    that moment. No record returned in passbook mode has equal non-empty IFSC
    and MICR codes. *)
Theorem ifsc_micr_collision_guard :
  (∀ (d : dict) (v : str),
     d !! "IFSC Code" = Some v → d !! "MICR Code" = Some v → v ≠ [] →
     is_Some (d !! "Account Number") → is_Some (d !! "Account Type") →
     ∃ d', passbook_post d = Ok d'
           ∧ d' !! "MICR Code" = Some [] ∧ d' !! "IFSC Code" = Some v)
  ∧ (∀ (line : str) (d : dict) (val : str),
       scan_standalone line d !! "IFSC Code" = Some val →
       d !! "IFSC Code" ≠ Some val →
       d !! "MICR Code" ≠ Some val)
  ∧ (∀ (text filename : str) (d : dict) (v : str),
       parse_passbook_details text filename = Ok d →
       d !! "IFSC Code" = Some v → d !! "MICR Code" = Some v → v = []).
Proof.
  split_and!.
  - intros d v Hi Hm Hv [an Han] [at_ Hat].
    destruct (post_account_number d) as [d1|e] eqn:H1;
      [|unfold post_account_number, item in H1; rewrite Han in H1; cbn in H1;
        by destruct (truthy an)].
    destruct (post_account_type d1) as [d2|e] eqn:H2.
    2:{ apply post_account_number_writes in H1 as [F1 _].
        unfold post_account_type, item in H2.
        rewrite F1, Hat in H2 by by_compute. cbn in H2. by repeat case_match. }
    pose proof (post_account_number_writes _ _ H1) as [F1 _].
    pose proof (post_account_type_writes _ _ H2) as [F2 _].
    assert (d2 !! "IFSC Code" = Some v) as Hi2 by (rewrite F2, F1 by by_compute; done).
    assert (d2 !! "MICR Code" = Some v) as Hm2 by (rewrite F2, F1 by by_compute; done).
    exists (post_mobile (post_balance (<["MICR Code" := []]> d2))).
    unfold passbook_post. rewrite H1. cbn. rewrite H2. cbn.
    rewrite (post_ifsc_micr_collide _ _ Hi2 Hm2 Hv). cbn. split; [done|].
    pose proof (post_balance_writes (<["MICR Code" := []]> d2)) as [F3 _].
    pose proof (post_mobile_writes (post_balance (<["MICR Code" := []]> d2))) as [F4 _].
    rewrite !F4, !F3 by by_compute.
    rewrite lookup_insert_eq, lookup_insert_ne by done. done.
  - apply scan_standalone_ifsc.
  - intros text filename d v H Hi Hm. unfold parse_passbook_details in H.
    apply bind_Ok in H as (d1 & _ & H'). apply bind_Ok in H' as (d2 & _ & Hp).
    unfold passbook_post in Hp.
    apply bind_Ok in Hp as (p1 & _ & Hp'). apply bind_Ok in Hp' as (p2 & _ & Hp'').
    apply bind_Ok in Hp'' as (p3 & Hg & Hd). injection Hd as <-.
    pose proof (post_balance_writes p3) as [F3 _].
    pose proof (post_mobile_writes (post_balance p3)) as [F4 _].
    rewrite F4, F3 in Hi, Hm by by_compute.
    by eapply post_ifsc_micr_distinct.
Qed.

Lemma ifsc_micr_collision_guard_witness :
  ∃ d', passbook_post colliding_codes = Ok d'
        ∧ d' !! "MICR Code" = Some [] ∧ d' !! "IFSC Code" = Some (u8 "380002011").
Proof.
  apply (proj1 ifsc_micr_collision_guard).
  - vm_compute. reflexivity.
  - vm_compute. reflexivity.
  - discriminate.
  - vm_compute. eauto.
  - vm_compute. eauto.
Defined.

(** ** Determinism and the order of set iteration *)


Lemma set_order_first : set_order iter_first.
Proof.
  intros l. unfold iter_first. split; [apply NoDup_remove_dups|].
  intros x. apply elem_of_remove_dups.
Qed.






(** ** Duplicate signatures *)



(** ** The batch pipeline *)

Section PipelineProperties.

Local Open Scope nat_scope.

Context (set_iter : list str → list str) (basename : str → str)
  (ocr_extract_text : str → str → M str) (py_hash : gset (string * str) → Z)
  (progress_callback : bool).

Local Abbreviation step := (process_image set_iter basename ocr_extract_text py_hash progress_callback).
Local Abbreviation loop := (batch_loop set_iter basename ocr_extract_text py_hash progress_callback).
Local Abbreviation upto := (run_upto set_iter basename ocr_extract_text py_hash progress_callback).
Local Abbreviation run := (extract_run set_iter basename ocr_extract_text py_hash progress_callback).
Local Abbreviation extract := (extract_one set_iter basename ocr_extract_text).

(** What one turn of the loop does to the records, the hashes and the
    summary. *)
Lemma process_image_spec (st : str) (total i : nat) (p : str) (s : batch) :
  match extract p st with
  | Raise e =>
      all_data (step st total i p s) = all_data s ++ [error_record (basename p) e]
      ∧ seen_hashes (step st total i p s) = seen_hashes s
      ∧ summary (step st total i p s) = add_failed (basename p) e (summary s)
  | Ok r =>
      if bool_decide (py_hash (signature r) ∈ seen_hashes s) then
        all_data (step st total i p s) = all_data s
        ∧ seen_hashes (step st total i p s) = seen_hashes s
        ∧ summary (step st total i p s) = add_duplicate (summary s)
      else
        all_data (step st total i p s) = all_data s ++ [r]
        ∧ seen_hashes (step st total i p s) = {[py_hash (signature r)]} ∪ seen_hashes s
        ∧ summary (step st total i p s) = add_success (summary s)
  end.
Proof.
  unfold process_image, notify.
  destruct (extract p st) as [r|e]; destruct progress_callback; cbn;
    try case_bool_decide; cbn; done.
Qed.

Lemma batch_loop_app (st : str) (total i : nat) (pre post : list str) (s : batch) :
  loop st total i (pre ++ post) s
  = loop st total (i + length pre) post (loop st total i pre s).
Proof.
  revert i s. induction pre as [|p pre IH]; intros i s; cbn [batch_loop app length].
  - by rewrite Nat.add_0_r.
  - rewrite IH. f_equal. lia.
Qed.

Lemma run_upto_S (paths : list str) (st : str) (n : nat) (p : str) :
  paths !! n = Some p →
  upto paths st (S n) = step st (length paths) n p (upto paths st n).
Proof.
  intros Hp. unfold run_upto. rewrite (take_S_r _ _ _ Hp), batch_loop_app.
  cbn [batch_loop]. rewrite length_take_le; [done|].
  apply lookup_lt_Some in Hp. lia.
Qed.

Lemma run_upto_ge (paths : list str) (st : str) (n : nat) :
  length paths ≤ n → upto paths st n = run paths st.
Proof. intros Hn. unfold run_upto, extract_run. by rewrite take_ge. Qed.

(** Induction over the documents of a run. *)
Lemma run_upto_ind (paths : list str) (st : str) (P : nat → batch → Prop) :
  P 0%nat batch_init →
  (∀ n p, paths !! n = Some p → P n (upto paths st n) →
          P (S n) (step st (length paths) n p (upto paths st n))) →
  ∀ n, n ≤ length paths → P n (upto paths st n).
Proof.
  intros H0 HS. induction n as [|n IH]; intros Hn; [done|].
  destruct (lookup_lt_is_Some_2 paths n) as [p Hp]; [lia|].
  rewrite (run_upto_S _ _ _ _ Hp). apply (HS _ _ Hp), IH. lia.
Qed.

(** *** Accounting *)

Lemma process_image_accounted (st : str) (total i : nat) (p : str) (s : batch) (n : nat) :
  accounted n s → accounted (S n) (step st total i p s).
Proof.
  intros (H1 & H2 & H3). pose proof (process_image_spec st total i p s) as H.
  unfold accounted.
  destruct (extract p st) as [r|e]; [case_bool_decide|];
    destruct H as (-> & _ & ->); cbn; rewrite ?length_app; cbn; lia.
Qed.

Lemma run_upto_accounted (paths : list str) (st : str) (n : nat) :
  n ≤ length paths → accounted n (upto paths st n).
Proof.
  apply (run_upto_ind paths st accounted).
  - by cbv.
  - intros m p _. apply process_image_accounted.
Qed.

(** C10. Summary accounting. After [extract_all] on [n] documents the counters
    success, failed and duplicates add up to [n], the record list has
    success + failed entries and the error list has failed entries. *)
Theorem summary_accounting (image_paths : list str) (source_type : str) :
  let '(records, sm) :=
    extract_all set_iter basename ocr_extract_text py_hash progress_callback
      image_paths source_type in
  (success sm + failed sm + duplicates sm = length image_paths)%nat
  ∧ (length records = success sm + failed sm)%nat
  ∧ length (errors sm) = failed sm.
Proof.
  unfold extract_all. rewrite <- (run_upto_ge _ _ (length image_paths)) by done.
  by apply run_upto_accounted.
Qed.

(** *** Error isolation *)

Lemma batch_loop_prefix (st : str) (total i : nat) (l : list str) (s : batch) :
  all_data s `prefix_of` all_data (loop st total i l s).
Proof.
  revert i s. induction l as [|p l IH]; intros i s; cbn [batch_loop]; [done|].
  etrans; [|apply IH].
  pose proof (process_image_spec st total i p s) as H.
  destruct (extract p st) as [r|e]; [case_bool_decide|];
    destruct H as (-> & _ & _); first [done | by apply prefix_app_r].
Qed.

Lemma run_from_upto (paths : list str) (st : str) (n : nat) :
  run paths st
  = loop st (length paths) (length (take n paths)) (drop n paths) (upto paths st n).
Proof.
  unfold extract_run, run_upto.
  rewrite <- (take_drop n paths) at 2. by rewrite batch_loop_app.
Qed.

(** C4. Per-document error isolation. When extracting the document of index
    [n] raises (in the OCR call or in parsing) with message [e], that turn of
    the loop appends the record holding only File Name and Error, increments
    [failed], appends (filename, e) to [errors], and leaves the other counters
    and the duplicate signatures alone; every document, before or after, gets
    its turn, and [extract_all] returns the state after the last one, with
    the error record still in its list. *)
Theorem error_isolation (image_paths : list str) (source_type : str) (n : nat)
    (p e : str) :
  image_paths !! n = Some p →
  extract p source_type = Raise e →
  let before := upto image_paths source_type n in
  let after := upto image_paths source_type (S n) in
  let final :=
    extract_all set_iter basename ocr_extract_text py_hash progress_callback
      image_paths source_type in
  all_data after = all_data before ++ [error_record (basename p) e]
  ∧ dom (error_record (basename p) e) = {["File Name"; "Error"]}
  ∧ error_record (basename p) e !! "File Name" = Some (basename p)
  ∧ error_record (basename p) e !! "Error" = Some e
  ∧ failed (summary after) = S (failed (summary before))
  ∧ errors (summary after) = errors (summary before) ++ [(basename p, e)]
  ∧ success (summary after) = success (summary before)
  ∧ duplicates (summary after) = duplicates (summary before)
  ∧ seen_hashes after = seen_hashes before
  ∧ (∀ m q, image_paths !! m = Some q →
       upto image_paths source_type (S m)
       = step source_type (length image_paths) m q (upto image_paths source_type m))
  ∧ final = (all_data (upto image_paths source_type (length image_paths)),
             summary (upto image_paths source_type (length image_paths)))
  ∧ all_data after `prefix_of` final.1.
Proof.
  intros Hp He before after final.
  pose proof (process_image_spec source_type (length image_paths) n p before) as H.
  rewrite He in H. fold before in H.
  assert (after = step source_type (length image_paths) n p before) as Ha
    by apply (run_upto_S _ _ _ _ Hp).
  rewrite <- Ha in H. destruct H as (Hd & Hs & Hm).
  split_and!; try (rewrite Hm; reflexivity); try done.
  - intros m q. apply run_upto_S.
  - unfold final, extract_all. by rewrite run_upto_ge.
  - unfold final, extract_all. cbn [fst]. rewrite (run_from_upto _ _ (S n)).
    apply batch_loop_prefix.
Qed.

(** *** Field keys of the records *)

Lemma run_upto_keys (paths : list str) (st : str) (n : nat) :
  n ≤ length paths →
  Forall (λ r, dom r = field_keys st ∨ dom r = error_keys) (all_data (upto paths st n)).
Proof.
  apply (run_upto_ind paths st
           (λ _ s, Forall (λ r, dom r = field_keys st ∨ dom r = error_keys) (all_data s))).
  - constructor.
  - intros m p _ IH.
    pose proof (process_image_spec st (length paths) m p (upto paths st m)) as H.
    destruct (extract p st) as [r|e] eqn:He; [case_bool_decide|];
      destruct H as (-> & _ & _); [done| |].
    + apply Forall_app. split; [done|]. constructor; [|constructor]. left.
      unfold extract_one in He. apply bind_Ok in He as (raw & _ & He).
      by apply parse_details_dom in He.
    + apply Forall_app. split; [done|]. constructor; [|constructor]. right.
      apply error_record_dom.
Qed.

(** C2, as the code has it. A record returned by [parse_details] holds exactly
    the declared field keys of its mode, so a field that was not found is
    present with the empty string. Every record of the list [extract_all]
    returns holds either those keys or, for a document whose extraction
    raised, exactly File Name and Error. *)
Theorem uniform_field_keys (image_paths : list str) (source_type : str) :
  (∀ (text filename : str),
     ∃ d : dict,
       parse_details set_iter text filename source_type = Ok d
       ∧ dom d = field_keys source_type
       ∧ ∀ k, k ∈ field_keys source_type → is_Some (d !! k))
  ∧ Forall (λ r, dom r = field_keys source_type ∨ dom r = error_keys)
      (extract_all set_iter basename ocr_extract_text py_hash progress_callback
         image_paths source_type).1.
Proof.
  split.
  - intros text filename.
    destruct (parse_details_total set_iter text filename source_type) as [d Hd].
    exists d. split; [done|]. apply parse_details_dom in Hd. split; [done|].
    intros k Hk. apply elem_of_dom. by rewrite Hd.
  - unfold extract_all. cbn [fst].
    rewrite <- (run_upto_ge _ _ (length image_paths)) by done.
    by apply run_upto_keys.
Qed.

(** *** Duplicate detection *)

Lemma extract_no_error_key (p st : str) (r : dict) :
  extract p st = Ok r → "Error" ∉ dom r.
Proof.
  unfold extract_one. intros H. apply bind_Ok in H as (raw & _ & H).
  apply parse_details_dom in H. rewrite H. apply error_key_undeclared.
Qed.


(** The hashes seen after [n] documents are those of the documents extracted
    so far. *)
Lemma run_upto_seen (paths : list str) (st : str) (n : nat) :
  n ≤ length paths →
  ∀ h, h ∈ seen_hashes (upto paths st n)
       ↔ ∃ m q r, m < n ∧ paths !! m = Some q ∧ extract q st = Ok r
                  ∧ py_hash (signature r) = h.
Proof.
  apply (run_upto_ind paths st
           (λ n s, ∀ h, h ∈ seen_hashes s
                        ↔ ∃ m q r, m < n ∧ paths !! m = Some q ∧ extract q st = Ok r
                                   ∧ py_hash (signature r) = h)).
  - intros h. split; [set_solver|]. intros (m & _ & _ & Hm & _). lia.
  - intros m p Hp IH h.
    pose proof (process_image_spec st (length paths) m p (upto paths st m)) as H.
    assert (∀ m' q r, m' < S m → paths !! m' = Some q → extract q st = Ok r →
                      m' < m ∨ (m' = m ∧ q = p)) as Hcase.
    { intros m' q r Hlt Hq _. destruct (decide (m' = m)) as [->|]; [|left; lia].
      right. split; [done|]. congruence. }
    destruct (extract p st) as [r|e] eqn:He; [case_bool_decide as Hin|];
      destruct H as (_ & -> & _).
    + rewrite IH. split.
      * intros (m' & q & r' & ? & ?). exists m', q, r'. split; [lia|done].
      * intros (m' & q & r' & Hlt & Hq & Hr & Hh).
        destruct (Hcase _ _ _ Hlt Hq Hr) as [?|[-> ->]]; [by exists m', q, r'|].
        apply IH. rewrite He in Hr. injection Hr as <-. by rewrite <- Hh.
    + rewrite elem_of_union, elem_of_singleton, IH. split.
      * intros [->|(m' & q & r' & ? & ?)].
        -- exists m, p, r. split; [lia|done].
        -- exists m', q, r'. split; [lia|done].
      * intros (m' & q & r' & Hlt & Hq & Hr & Hh).
        destruct (Hcase _ _ _ Hlt Hq Hr) as [?|[-> ->]]; [right; by exists m', q, r'|].
        left. rewrite He in Hr. by injection Hr as <-.
    + rewrite IH. split.
      * intros (m' & q & r' & ? & ?). exists m', q, r'. split; [lia|done].
      * intros (m' & q & r' & Hlt & Hq & Hr & Hh).
        destruct (Hcase _ _ _ Hlt Hq Hr) as [?|[-> ->]]; [by exists m', q, r'|].
        congruence.
Qed.



End PipelineProperties.

(** ** The sample run *)

Lemma error_isolation_witness :
  all_data (sample_upto 2)
  = all_data (sample_upto 1)
    ++ [error_record (posix_basename (u8 "scans/broken.png")) OCR_ERROR]
  ∧ failed (summary (sample_upto 2)) = S (failed (summary (sample_upto 1)))
  ∧ errors (summary (sample_upto 2))
    = errors (summary (sample_upto 1))
      ++ [(posix_basename (u8 "scans/broken.png"), OCR_ERROR)]
  ∧ all_data (sample_upto 2) `prefix_of` sample_result.1.
Proof.
  assert (sample_batch !! 1%nat = Some (u8 "scans/broken.png")) as H1
    by (vm_compute; reflexivity).
  assert (sample_extract (u8 "scans/broken.png") = Raise OCR_ERROR) as H2
    by (vm_compute; reflexivity).
  pose proof (error_isolation iter_first posix_basename sample_ocr sample_hash true
                sample_batch (u8 "screenshot") 1 (u8 "scans/broken.png") OCR_ERROR
                H1 H2) as W.
  cbv zeta in W.
  destruct W as (A & _ & _ & _ & B & C & _ & _ & _ & _ & _ & D).
  unfold sample_upto, sample_result.
  exact (conj A (conj B (conj C D))).
Defined.


(** C2 as stated fails: the record of a document whose extraction raised has
    the keys File Name and Error, not the field keys of the mode. *)
Lemma uniform_field_keys_counterexample :
  ∃ r : dict,
    sample_result.1 !! 1%nat = Some r
    ∧ sample_extract (u8 "scans/broken.png") = Raise OCR_ERROR
    ∧ dom r = {["File Name"; "Error"]}
    ∧ dom r ≠ field_keys (u8 "screenshot")
    ∧ "Amount" ∉ dom r.
Proof.
  exists (error_record (posix_basename (u8 "scans/broken.png")) OCR_ERROR).
  split_and!.
  - vm_compute. reflexivity.
  - vm_compute. reflexivity.
  - apply error_record_dom.
  - by_compute.
  - by_compute.
Qed.

Lemma uniform_field_keys_witness :
  ∃ d : dict,
    parse_details iter_first receipt_text (u8 "receipt.png") (u8 "screenshot") = Ok d
    ∧ dom d = field_keys (u8 "screenshot")
    ∧ ∀ k, k ∈ field_keys (u8 "screenshot") → is_Some (d !! k).
Proof.
  exact (proj1 (uniform_field_keys iter_first posix_basename sample_ocr sample_hash
                  true sample_batch (u8 "screenshot"))
           receipt_text (u8 "receipt.png")).
Defined.

(** * Further properties of the extractor and of the modules around it *)

(** ** Trimmed strings *)

Lemma lstrip_head (s : str) (c : char) (s' : str) :
  lstrip s = c :: s' → is_space c = false.
Proof.
  induction s as [|x s IH]; cbn [lstrip]; [done|].
  destruct (is_space x) eqn:Hx; [done|]. by intros [= <- _].
Qed.

Lemma lstrip_nonspace (c : char) (s : str) : is_space c = false → lstrip (c :: s) = c :: s.
Proof. intros H. cbn [lstrip]. by rewrite H. Qed.

Lemma lstrip_snoc (s : str) (c : char) :
  is_space c = false → lstrip (s ++ [c]) = lstrip s ++ [c].
Proof.
  intros Hc. induction s as [|x s IH]; cbn [app lstrip]; [by rewrite Hc|].
  by destruct (is_space x).
Qed.

Lemma strip_trimmed (s : str) : trimmed (strip s).
Proof.
  unfold strip, rstrip. split.
  - intros c s' H.
    destruct (lstrip s) as [|x t] eqn:Hl; [done|].
    pose proof (lstrip_head _ _ _ Hl) as Hx.
    cbn [rev] in H. rewrite lstrip_snoc, rev_app_distr in H by done.
    cbn in H. by injection H as <- _.
  - intros c s' H. apply (f_equal (@rev _)) in H.
    rewrite rev_involutive, rev_app_distr in H. cbn in H.
    by apply lstrip_head in H.
Qed.

Lemma trimmed_strip (s : str) : trimmed s → strip s = s.
Proof.
  intros [Hh Ht]. unfold strip, rstrip.
  assert (lstrip s = s) as ->.
  { destruct s as [|c s']; [done|]. apply lstrip_nonspace. by eapply Hh. }
  assert (lstrip (rev s) = rev s) as ->; [|apply rev_involutive].
  destruct (rev s) as [|c t] eqn:Hr; [done|]. apply lstrip_nonspace.
  apply (Ht c (rev t)). apply (f_equal (@rev _)) in Hr.
  by rewrite rev_involutive in Hr.
Qed.

Lemma first_match_trimmed (pats : list string) (text v : str) :
  first_match pats text = Ok v → trimmed v.
Proof.
  induction pats as [|p pats IH]; cbn [first_match].
  - intros [= <-]. by split; intros c s' H; [|destruct s'].
  - destruct (re_search _ _ text) as [mt|]; [|done].
    unfold matched_value, group1_strip.
    repeat case_match; intros ?; simplify_eq; apply strip_trimmed.
Qed.

(** X2. The value [_find_match] returns neither starts nor ends with white
    space, so trimming it again changes nothing; with either catalog the call
    returns for every key and text; a key the catalog does not have gives the
    empty string; and an empty pattern dictionary is read as no dictionary:
    the default catalog is searched. *)
Theorem find_match_trimmed (key : string) (text : str) :
  (∀ pd v, find_match key text pd = Ok v → trimmed v ∧ strip v = v)
  ∧ (∃ v, find_match key text None = Ok v ∧ strip v = v)
  ∧ (∃ v, find_match key text (Some passbook_patterns) = Ok v ∧ strip v = v)
  ∧ (patterns !! key = None → find_match key text None = Ok [])
  ∧ (passbook_patterns !! key = None →
     find_match key text (Some passbook_patterns) = Ok [])
  ∧ find_match key text (Some ∅) = find_match key text None.
Proof.
  assert (∀ pd v, find_match key text pd = Ok v → trimmed v ∧ strip v = v) as H.
  { intros pd v Hv. apply first_match_trimmed in Hv. split; [done|by apply trimmed_strip]. }
  split_and!; [done| | | | |].
  - destruct (find_match_total key text None) as [v Hv]; [by left|].
    exists v. split; [done|]. by eapply H.
  - destruct (find_match_total key text (Some passbook_patterns)) as [v Hv]; [by right|].
    exists v. split; [done|]. by eapply H.
  - intros Hk. unfold find_match, rules_of. by rewrite Hk.
  - intros Hk. unfold find_match, rules_of.
    assert (bool_decide (passbook_patterns = ∅) = false) as -> by (vm_compute; reflexivity).
    by rewrite Hk.
  - reflexivity.
Qed.

(** ** [_clean_amount] as a normalisation *)








(** ** Fields that are passed through, and fields with few values *)

Lemma parse_details_file_name (it : list str → list str) (text filename source_type : str)
    (d : dict) :
  parse_details it text filename source_type = Ok d →
  d !! "File Name" = Some filename ∧ d !! "All Extracted Text" = Some (strip text).
Proof.
  unfold parse_details. destruct (str_eqb source_type _); intros Hd.
  - unfold parse_passbook_details in Hd.
    apply bind_Ok in Hd as (d1 & H1 & H'). apply bind_Ok in H' as (d2 & H2 & H3).
    apply scan_lines_writes in H2 as [F2 _]. apply passbook_post_writes in H3 as [F3 _].
    rewrite !F3, !F2 by by_compute.
    unfold passbook_pass1 in H1.
    repeat (apply bind_Ok in H1; destruct H1 as (? & _ & H1)).
    apply (inj Ok) in H1. subst d1. split; reflexivity.
  - apply bind_Ok in Hd as (d0 & H0 & H1).
    apply screenshot_inline_writes in H0 as [F0 _].
    apply heuristic_lines_writes in H1 as [F1 _].
    pose proof (foldl_assign_txn_writes (it (all_txn_ids text)) d0) as [F2 _].
    rewrite !F1, !F2, !F0 by by_compute. split; reflexivity.
Qed.

(** X3. In both modes the record [parse_details] returns holds the file name
    it was given under File Name and the trimmed text under All Extracted
    Text: no pass rewrites these two fields. *)
Theorem record_passthrough (it : list str → list str) (text filename source_type : str) :
  ∃ d, parse_details it text filename source_type = Ok d
       ∧ d !! "File Name" = Some filename
       ∧ d !! "All Extracted Text" = Some (strip text).
Proof.
  destruct (parse_details_total it text filename source_type) as [d Hd].
  exists d. split; [done|]. by apply parse_details_file_name in Hd.
Qed.

Lemma screenshot_inline_status (text : str) (d d' : dict) :
  screenshot_inline text d = Ok d' →
  d !! "Payment Status" = Some [] →
  d' !! "Payment Status" ∈ [Some []; Some (u8 "SUCCESS"); Some (u8 "FAILED");
                            Some (u8 "PENDING")].
Proof.
  unfold screenshot_inline. intros H Hd.
  apply bind_Ok in H as (amount & _ & H). apply bind_Ok in H as (upi & _ & H).
  apply bind_Ok in H as (date & _ & H). apply bind_Ok in H as (time & _ & H).
  apply bind_Ok in H as (status & _ & H).
  repeat case_match; apply (inj Ok) in H; subst d';
    rewrite ?lookup_insert_eq; rewrite ?lookup_insert_ne by done; rewrite ?Hd;
    set_solver.
Qed.

(** X4. In screenshot mode (every source type but passbook) the Payment
    Status of the returned record is one of the empty string, SUCCESS, FAILED
    and PENDING, and the Transaction Note is the empty string for every text:
    the field is declared and never filled. *)
Theorem status_and_note (it : list str → list str) (text filename source_type : str) :
  source_type ≠ u8 "passbook" →
  ∃ d, parse_details it text filename source_type = Ok d
       ∧ d !! "Payment Status" ∈ [Some []; Some (u8 "SUCCESS"); Some (u8 "FAILED");
                                  Some (u8 "PENDING")]
       ∧ d !! "Transaction Note" = Some [].
Proof.
  intros Hst.
  destruct (parse_details_total it text filename source_type) as [d Hd].
  exists d. split; [done|]. unfold parse_details, str_eqb in Hd.
  rewrite bool_decide_eq_false_2 in Hd by done.
  apply bind_Ok in Hd as (d0 & H0 & H1).
  apply heuristic_lines_writes in H1 as [F1 _].
  pose proof (foldl_assign_txn_writes (it (all_txn_ids text)) d0) as [F2 _].
  rewrite !F1, !F2 by by_compute. split.
  - by eapply screenshot_inline_status.
  - apply screenshot_inline_writes in H0 as [F0 _]. by rewrite F0 by by_compute.
Qed.

Lemma status_and_note_witness :
  ∃ d, parse_details iter_first receipt_text (u8 "receipt.png") (u8 "screenshot") = Ok d
       ∧ d !! "Payment Status" ∈ [Some []; Some (u8 "SUCCESS"); Some (u8 "FAILED");
                                  Some (u8 "PENDING")]
       ∧ d !! "Transaction Note" = Some [].
Proof.
  apply (status_and_note iter_first receipt_text (u8 "receipt.png") (u8 "screenshot")).
  discriminate.
Defined.

(** ** The bank-name heuristic *)

Lemma heuristic_party_field (label field : string) (b : bool) (line : str)
    (after : list str) (d d' : dict) (k : string) :
  heuristic_party label field b line after d = Ok d' → k ≠ field → d' !! k = d !! k.
Proof.
  unfold heuristic_party. intros H Hk.
  repeat case_match; inv_bind; repeat case_match; simplify_eq;
    try done; by rewrite lookup_insert_ne.
Qed.

Lemma heuristic_line_bank (line : str) (after : list str) (d d' : dict) (v : str) :
  heuristic_line line after d = Ok d' →
  d !! "Bank Name" = Some v →
  d' !! "Bank Name" = Some (if truthy v then v else if bank_candidate line then line else []).
Proof.
  unfold heuristic_line. intros H Hv.
  apply bind_Ok in H as (d1 & H1 & H'). apply bind_Ok in H' as (d2 & H2 & H3).
  rewrite (heuristic_party_field _ _ _ _ _ _ _ "Bank Name" H3) by done.
  rewrite (heuristic_party_field _ _ _ _ _ _ _ "Bank Name" H2) by done.
  unfold heuristic_bank in H1. unfold bank_candidate.
  destruct (contains (u8 "Bank") line) eqn:Hc; cbn [andb].
  - apply bind_Ok in H1 as (bank & Hb & H1). apply item_Ok in Hb.
    assert (bank = v) as -> by congruence.
    destruct (truthy v) eqn:Htv; cbn [negb] in H1.
    + by apply (inj Ok) in H1 as <-.
    + apply truthy_false in Htv as ->.
      destruct (_ && _); apply (inj Ok) in H1 as <-; [apply lookup_insert_eq|done].
  - apply (inj Ok) in H1 as <-. rewrite Hv. destruct (truthy v) eqn:Htv; [done|].
    by apply truthy_false in Htv as ->.
Qed.

Lemma heuristic_lines_bank (lines : list str) (d d' : dict) (v : str) :
  heuristic_lines lines d = Ok d' →
  d !! "Bank Name" = Some v →
  d' !! "Bank Name"
  = Some (if truthy v then v else default [] (head (List.filter bank_candidate lines))).
Proof.
  revert d v. induction lines as [|line after IH]; cbn [heuristic_lines]; intros d v H Hv.
  - apply (inj Ok) in H as <-. rewrite Hv. destruct (truthy v) eqn:Htv; [done|].
    by apply truthy_false in Htv as ->.
  - apply bind_Ok in H as (d1 & H1 & H2).
    pose proof (heuristic_line_bank _ _ _ _ _ H1 Hv) as Hb.
    rewrite (IH _ _ H2 Hb). cbn [List.filter].
    destruct (truthy v) eqn:Htv; [by rewrite Htv|].
    destruct (bank_candidate line) eqn:Hc; [|done].
    cbn [head default].
    assert (truthy line = true) as ->; [|done].
    unfold bank_candidate in Hc. apply andb_true_iff in Hc as [[Hc _]%andb_true_iff _].
    by destruct line.
Qed.

(** X5. In screenshot mode the Bank Name of the returned record is the first
    non-blank line of the text (trimmed) that contains Bank, is shorter than
    40 characters and has none of ref, id, no in its lower-case form; it is
    the empty string when the text has no such line. *)
Theorem bank_name_first_candidate (it : list str → list str)
    (text filename source_type : str) :
  source_type ≠ u8 "passbook" →
  ∃ d, parse_details it text filename source_type = Ok d
       ∧ d !! "Bank Name"
         = Some (default [] (head (List.filter bank_candidate (nonblank_lines text)))).
Proof.
  intros Hst.
  destruct (parse_details_total it text filename source_type) as [d Hd].
  exists d. split; [done|]. unfold parse_details, str_eqb in Hd.
  rewrite bool_decide_eq_false_2 in Hd by done.
  apply bind_Ok in Hd as (d0 & H0 & H1).
  apply (heuristic_lines_bank _ _ _ []) in H1; [exact H1|].
  pose proof (foldl_assign_txn_writes (it (all_txn_ids text)) d0) as [F2 _].
  apply screenshot_inline_writes in H0 as [F0 _].
  rewrite F2, F0 by by_compute. reflexivity.
Qed.

Lemma bank_name_first_candidate_witness :
  ∃ d, parse_details iter_first
         (u8 "Bank Ref No 1234" ++ [NL] ++ u8 "  State Bank of India ")
         (u8 "a.png") (u8 "auto") = Ok d
       ∧ d !! "Bank Name" = Some (u8 "State Bank of India").
Proof.
  destruct (bank_name_first_candidate iter_first
              (u8 "Bank Ref No 1234" ++ [NL] ++ u8 "  State Bank of India ")
              (u8 "a.png") (u8 "auto")) as (d & Hd & Hb); [discriminate|].
  exists d. split; [exact Hd|]. rewrite Hb. vm_compute. reflexivity.
Defined.

(** ** The post-processing of a passbook record *)

Lemma strip_seps_spec (v : str) :
  strip_seps v = List.filter (λ c, negb (sep_char c)) v.
Proof.
  unfold strip_seps.
  assert (re_compile "[\s\-]" = RSet false [CSpace; CChar 45]) as ->
    by (vm_compute; reflexivity).
  rewrite re_sub_class. apply List.filter_ext. intros c.
  unfold set_matches, set_has, item_has, sep_char. change (ch "-") with 45.
  cbn [icase NOFLAGS existsb xorb]. by rewrite orb_false_r.
Qed.

Lemma strip_seps_clean (v : str) : forallb (λ c, negb (sep_char c)) (strip_seps v) = true.
Proof.
  rewrite strip_seps_spec. apply forallb_forall. intros c Hc.
  by apply List.filter_In in Hc as [_ Hc].
Qed.

Lemma strip_seps_fixed (v : str) :
  forallb (λ c, negb (sep_char c)) v = true → strip_seps v = v.
Proof.
  rewrite strip_seps_spec. induction v as [|c v IH]; [done|].
  cbn [forallb List.filter]. intros [-> Hv]%andb_true_iff. by rewrite IH.
Qed.

Lemma post_account_number_normal (d d' : dict) (v : str) :
  post_account_number d = Ok d' → d' !! "Account Number" = Some v →
  forallb (λ c, negb (sep_char c)) v = true.
Proof.
  unfold post_account_number. intros H Hv.
  apply bind_Ok in H as (a & Ha & H). apply item_Ok in Ha.
  destruct (truthy a) eqn:Ht; apply (inj Ok) in H as <-.
  - rewrite lookup_insert_eq in Hv. injection Hv as <-. apply strip_seps_clean.
  - apply truthy_false in Ht as ->. by simplify_eq.
Qed.

Lemma upper_truthy (v : str) : (if truthy v then upper v else []) = upper v.
Proof. by destruct v. Qed.

Lemma type_map_values (k full : str) :
  type_map !! k = Some full →
  full ∈ [u8 "Savings"; u8 "Current"; u8 "Fixed Deposit"; u8 "Recurring Deposit"].
Proof.
  intros Hk. apply elem_of_list_to_map_2 in Hk.
  repeat (apply elem_of_cons in Hk as [[= _ ->]|Hk]; [set_solver|]).
  by apply elem_of_nil in Hk.
Qed.

Lemma type_map_canonical (k full full' : str) :
  type_map !! k = Some full → type_map !! upper full = Some full' → full = full'.
Proof.
  intros Hk%type_map_values.
  repeat (apply elem_of_cons in Hk as [->|Hk]; [vm_compute; by intros [= <-]|]).
  by apply elem_of_nil in Hk.
Qed.

Lemma post_account_type_normal (d d' : dict) (v full : str) :
  post_account_type d = Ok d' → d' !! "Account Type" = Some v →
  type_map !! upper v = Some full → v = full.
Proof.
  unfold post_account_type. intros H Hv Hfull.
  apply bind_Ok in H as (a & Ha & H). apply item_Ok in Ha.
  cbv zeta in H. rewrite upper_truthy in H.
  destruct (type_map !! upper a) as [f0|] eqn:Hm; apply (inj Ok) in H as <-.
  - rewrite lookup_insert_eq in Hv. injection Hv as <-. by eapply type_map_canonical.
  - simplify_eq.
Qed.

Lemma post_balance_normal (d : dict) (b : str) :
  post_balance d !! "Balance (₹)" = Some b → b ≠ [] →
  length (remove_char (ch ",") (remove_char (ch ".") b)) = 9%nat →
  b ≠ remove_char (ch " ") (default [] (post_balance d !! "MICR Code")).
Proof.
  pose proof (post_balance_writes d) as [F _]. rewrite (F "MICR Code") by by_compute.
  unfold post_balance.
  destruct (d !! "Balance (₹)") as [bal|] eqn:Hb; cbn [default from_option id].
  - destruct (truthy bal
              && (length (remove_char (ch ",") (remove_char (ch ".") bal)) =? 9)%nat) eqn:Hc.
    + destruct (str_eqb bal (remove_char (ch " ") (default [] (d !! "MICR Code")))) eqn:He.
      * rewrite lookup_insert_eq. by intros [= <-].
      * rewrite Hb. intros [= <-] _ _. unfold str_eqb in He.
        by apply bool_decide_eq_false in He.
    + rewrite Hb. intros [= <-] Hne Hl.
      apply truthy_nonempty in Hne. rewrite Hne in Hc. cbn in Hc.
      apply Nat.eqb_neq in Hc. done.
  - cbn. by rewrite Hb.
Qed.

Lemma post_mobile_normal (d : dict) (v : str) :
  post_mobile d !! "Mobile Number" = Some v →
  forallb (λ c, negb (sep_char c)) v = true.
Proof.
  unfold post_mobile, get_truthy.
  destruct (d !! "Mobile Number") as [m|] eqn:Hm; cbn [default from_option id].
  - destruct (truthy m) eqn:Ht.
    + rewrite lookup_insert_eq. intros [= <-]. apply strip_seps_clean.
    + rewrite Hm. intros [= <-]. by apply truthy_false in Ht as ->.
  - cbn. by rewrite Hm.
Qed.

Lemma passbook_post_normal (d d' : dict) : passbook_post d = Ok d' → post_normal d'.
Proof.
  unfold passbook_post. intros H.
  apply bind_Ok in H as (d1 & H1 & H). apply bind_Ok in H as (d2 & H2 & H).
  apply bind_Ok in H as (d3 & H3 & H). apply (inj Ok) in H as <-.
  pose proof (post_account_type_writes _ _ H2) as [F2 _].
  pose proof (post_ifsc_micr_writes _ _ H3) as [F3 _].
  pose proof (post_balance_writes d3) as [F4 _].
  pose proof (post_mobile_writes (post_balance d3)) as [F5 _].
  split_and!.
  - intros v. rewrite F5, F4, F3, F2 by by_compute.
    by apply (post_account_number_normal _ _ _ H1).
  - intros v full. rewrite F5, F4, F3 by by_compute.
    by apply (post_account_type_normal _ _ _ _ H2).
  - intros v. rewrite !F5, !F4 by by_compute. by apply (post_ifsc_micr_distinct _ _ _ H3).
  - intros b. rewrite !F5 by by_compute. apply post_balance_normal.
  - apply post_mobile_normal.
Qed.

Lemma passbook_post_fixed (d : dict) :
  post_normal d →
  is_Some (d !! "Account Number") → is_Some (d !! "Account Type") →
  is_Some (d !! "IFSC Code") → (d !! "IFSC Code" ≠ Some [] → is_Some (d !! "MICR Code")) →
  passbook_post d = Ok d.
Proof.
  intros (P1 & P2 & P3 & P4 & P5) [an Han] [aty Hat] [ifsc Hi] Hmicr.
  unfold passbook_post.
  assert (post_account_number d = Ok d) as ->.
  { unfold post_account_number. rewrite (proj2 (item_Ok _ _ _) Han), Ok_bind.
    destruct (truthy an); [|done]. rewrite strip_seps_fixed by by apply P1.
    by rewrite insert_id. }
  rewrite Ok_bind.
  assert (post_account_type d = Ok d) as ->.
  { unfold post_account_type. rewrite (proj2 (item_Ok _ _ _) Hat), Ok_bind.
    cbv zeta. rewrite upper_truthy.
    destruct (type_map !! upper aty) as [full|] eqn:Hm; [|done].
    rewrite <- (P2 _ _ Hat Hm). by rewrite insert_id. }
  rewrite Ok_bind.
  assert (post_ifsc_micr d = Ok d) as ->.
  { unfold post_ifsc_micr. rewrite (proj2 (item_Ok _ _ _) Hi), Ok_bind.
    destruct (truthy ifsc) eqn:Ht; [|done].
    destruct Hmicr as [m Hm]. { intros E. rewrite Hi in E. by injection E as ->. }
    rewrite (proj2 (item_Ok _ _ _) Hm), Ok_bind.
    destruct (truthy m) eqn:Htm; [|done]. cbn [andb].
    unfold str_eqb. case_bool_decide as He; [|done]. subst m.
    rewrite (P3 _ Hi Hm) in Ht. done. }
  rewrite Ok_bind.
  assert (post_balance d = d) as ->.
  { unfold post_balance.
    destruct (d !! "Balance (₹)") as [b|] eqn:Hb; cbn [default from_option id]; [|done].
    destruct (truthy b) eqn:Hbt; [|done]. cbn [andb].
    destruct (_ =? 9)%nat eqn:Hl; [|done]. apply Nat.eqb_eq in Hl.
    unfold str_eqb. case_bool_decide as He; [|done].
    exfalso. eapply (P4 b); try done. by apply truthy_nonempty. }
  f_equal. unfold post_mobile, get_truthy.
  destruct (d !! "Mobile Number") as [m|] eqn:Hm; cbn [default from_option id]; [|done].
  destruct (truthy m); [|done]. rewrite strip_seps_fixed by by apply P5.
  by rewrite insert_id.
Qed.

Lemma parse_passbook_normal (it : list str → list str) (text filename : str) :
  ∃ d, parse_details it text filename (u8 "passbook") = Ok d ∧ post_normal d.
Proof.
  destruct (parse_details_total it text filename (u8 "passbook")) as [d Hd].
  exists d. split; [done|]. unfold parse_details, str_eqb in Hd.
  rewrite bool_decide_eq_true_2 in Hd by done. unfold parse_passbook_details in Hd.
  apply bind_Ok in Hd as (d1 & _ & H). apply bind_Ok in H as (d2 & _ & H).
  by apply passbook_post_normal in H.
Qed.

(** X6. The Account Number and the Mobile Number of a record returned in
    passbook mode have no white space and no hyphen: [re.sub] with the class
    of the two deletes exactly these characters. *)
Theorem passbook_numbers_unseparated (it : list str → list str) (text filename : str) :
  (∀ v c, c ∈ strip_seps v ↔ c ∈ v ∧ is_space c = false ∧ c ≠ ch "-")
  ∧ ∃ d, parse_details it text filename (u8 "passbook") = Ok d
         ∧ ∀ k v c, k = "Account Number" ∨ k = "Mobile Number" →
                    d !! k = Some v → c ∈ v → is_space c = false ∧ c ≠ ch "-".
Proof.
  assert (∀ c, negb (sep_char c) = true ↔ is_space c = false ∧ c ≠ ch "-") as Hsep.
  { intros c. unfold sep_char. rewrite negb_true_iff, orb_false_iff, N.eqb_neq. done. }
  split.
  - intros v c. rewrite strip_seps_spec, list_elem_of_In, List.filter_In, <- list_elem_of_In.
    by rewrite Hsep.
  - destruct (parse_passbook_normal it text filename) as (d & Hd & P1 & _ & _ & _ & P5).
    exists d. split; [done|]. intros k v c Hk Hv Hc.
    apply Hsep. assert (forallb (λ c, negb (sep_char c)) v = true) as Hall
      by (destruct Hk as [-> | ->]; auto).
    apply (proj1 (forallb_forall _ _) Hall). by apply list_elem_of_In.
Qed.



(** X8. Balance and MICR code. A non-empty Balance that has nine characters
    besides points and commas and equals the MICR Code without its spaces is
    cleared by the post-processing; no record returned in passbook mode has
    such a Balance. *)
Theorem balance_micr_guard (it : list str → list str) (text filename : str) :
  (∀ d b, d !! "Balance (₹)" = Some b → b ≠ [] →
     length (remove_char (ch ",") (remove_char (ch ".") b)) = 9%nat →
     b = remove_char (ch " ") (default [] (d !! "MICR Code")) →
     post_balance d = <["Balance (₹)" := []]> d)
  ∧ ∃ d, parse_details it text filename (u8 "passbook") = Ok d
         ∧ ∀ b, d !! "Balance (₹)" = Some b → b ≠ [] →
                length (remove_char (ch ",") (remove_char (ch ".") b)) = 9%nat →
                b ≠ remove_char (ch " ") (default [] (d !! "MICR Code")).
Proof.
  split.
  - intros d b Hb Hne Hl He. unfold post_balance. rewrite Hb. cbn [default from_option id].
    rewrite (proj2 (truthy_nonempty b) Hne), Hl. cbn [andb Nat.eqb].
    unfold str_eqb. by rewrite bool_decide_eq_true_2.
  - destruct (parse_passbook_normal it text filename) as (d & Hd & _ & _ & _ & P4 & _).
    by exists d.
Qed.

(** X9. The post-processing of a passbook record is idempotent: applied to
    its own result it returns that result. *)
Theorem postprocessing_idempotent (d d' : dict) :
  passbook_post d = Ok d' → passbook_post d' = Ok d'.
Proof.
  intros H. pose proof (passbook_post_normal _ _ H) as Hn.
  pose proof (passbook_post_writes _ _ H) as [F D].
  unfold passbook_post in H.
  apply bind_Ok in H as (d1 & H1 & H). apply bind_Ok in H as (d2 & H2 & H).
  apply bind_Ok in H as (d3 & H3 & _).
  pose proof (post_account_number_writes _ _ H1) as [F1 D1].
  pose proof (post_account_type_writes _ _ H2) as [F2 D2].
  assert (∀ k, is_Some (d !! k) → is_Some (d' !! k)) as Hdom.
  { intros k Hk. apply elem_of_dom. apply D. by apply elem_of_dom. }
  unfold post_account_number in H1. apply bind_Ok in H1 as (an & Han%item_Ok & _).
  unfold post_account_type in H2. apply bind_Ok in H2 as (aty & Hat%item_Ok & _).
  unfold post_ifsc_micr in H3. apply bind_Ok in H3 as (ifsc & Hi%item_Ok & H3).
  rewrite F1 in Hat by by_compute. rewrite F2, F1 in Hi by by_compute.
  apply passbook_post_fixed; [done|by apply Hdom..|].
  intros Hne. apply Hdom.
  destruct (truthy ifsc) eqn:Ht.
  - apply bind_Ok in H3 as (m & Hm%item_Ok & _). rewrite F2, F1 in Hm by by_compute. done.
  - apply truthy_false in Ht as ->. exfalso. apply Hne.
    by rewrite F by by_compute.
Qed.

Lemma postprocessing_idempotent_witness :
  ∃ d', passbook_post grouped_account = Ok d'
        ∧ d' !! "Account Number" = Some (u8 "123456789012")
        ∧ d' !! "Account Type" = Some (u8 "Savings")
        ∧ passbook_post d' = Ok d'.
Proof.
  exists (get_ok ∅ (passbook_post grouped_account)).
  assert (passbook_post grouped_account = Ok (get_ok ∅ (passbook_post grouped_account)))
    as H by (apply is_ok_get; vm_compute; reflexivity).
  split; [exact H|]. split; [vm_compute; reflexivity|].
  split; [vm_compute; reflexivity|]. exact (postprocessing_idempotent _ _ H).
Defined.

(** ** A document without text *)

Lemma key_fields_empty (d : dict) :
  key_fields d = ∅
  ↔ ∀ k v, d !! k = Some v → k = "File Name" ∨ k = "All Extracted Text" ∨ v = [].
Proof.
  unfold key_fields. rewrite map_empty. split.
  - intros H k v Hk. specialize (H k). apply map_lookup_filter_None in H as [H|H];
      [congruence|]. specialize (H v Hk). cbn in H.
    destruct (decide (k = "File Name")); [tauto|].
    destruct (decide (k = "All Extracted Text")); [tauto|].
    destruct (decide (v = [])); tauto.
  - intros H k. apply map_lookup_filter_None. right. intros v Hk. cbn.
    specialize (H k v Hk). tauto.
Qed.

Lemma screenshot_init_blank (text filename : str) (k : string) (v : str) :
  screenshot_init text filename !! k = Some v →
  k = "File Name" ∨ k = "All Extracted Text" ∨ v = [].
Proof.
  unfold screenshot_init. intros H%elem_of_list_to_map_2.
  repeat (apply elem_of_cons in H as [[= -> ->]|H]; [tauto|]).
  by apply elem_of_nil in H.
Qed.

Lemma blank_insert (d : dict) (f : string) :
  (∀ k v, d !! k = Some v → k = "File Name" ∨ k = "All Extracted Text" ∨ v = []) →
  ∀ k v, <[f := []]> d !! k = Some v →
         k = "File Name" ∨ k = "All Extracted Text" ∨ v = [].
Proof.
  intros Hd k v. destruct (decide (f = k)) as [->|Hne].
  - rewrite lookup_insert_eq. intros [= <-]. tauto.
  - rewrite lookup_insert_ne by done. apply Hd.
Qed.

Ltac find_blank :=
  repeat match goal with
    | |- context [find_match ?k [] ?pd] =>
        let H := fresh in
        assert (find_match k [] pd = Ok []) as H by (vm_compute; reflexivity);
        rewrite H; clear H
    end.

Lemma parse_screenshot_blank (it : list str → list str) (filename source_type : str) :
  it [] = [] → source_type ≠ u8 "passbook" →
  ∃ d, parse_details it [] filename source_type = Ok d ∧ key_fields d = ∅.
Proof.
  intros Hit Hst. unfold parse_details, str_eqb.
  rewrite bool_decide_eq_false_2 by done.
  unfold screenshot_inline. find_blank.
  cbn [mbind M_bind bindM fmap M_fmap].
  assert (clean_amount [] = []) as -> by reflexivity.
  assert (upper [] = []) as -> by reflexivity.
  assert (contains (u8 "SUCCESS") [] = false) as -> by reflexivity.
  assert (contains (u8 "COMPLETED") [] = false) as -> by reflexivity.
  assert (contains (u8 "FAIL") [] = false) as -> by reflexivity.
  assert (contains (u8 "PENDING") [] = false) as -> by reflexivity.
  assert (contains (u8 "PROCESSING") [] = false) as -> by reflexivity.
  cbn [orb mbind M_bind bindM].
  assert (all_txn_ids [] = []) as -> by (vm_compute; reflexivity).
  rewrite Hit. cbn [foldl].
  assert (nonblank_lines [] = []) as -> by (vm_compute; reflexivity).
  cbn [heuristic_lines].
  eexists. split; [reflexivity|]. apply key_fields_empty.
  repeat apply blank_insert. apply screenshot_init_blank.
Qed.

Lemma parse_passbook_blank (filename : str) :
  ∃ d, parse_passbook_details [] filename = Ok d ∧ key_fields d = ∅.
Proof.
  unfold parse_passbook_details, passbook_pass1. find_blank.
  cbn [mbind M_bind bindM].
  assert (clean_amount [] = []) as -> by reflexivity.
  assert (strip [] = []) as -> by reflexivity.
  set (d := list_to_map _).
  assert (∀ k v, d !! k = Some v → k = "File Name" ∨ k = "All Extracted Text" ∨ v = [])
    as Hd.
  { subst d. intros k v H%elem_of_list_to_map_2.
    repeat (apply elem_of_cons in H as [[= -> ->]|H]; [tauto|]).
    by apply elem_of_nil in H. }
  assert (scan_passbook_lines [] d = Ok d) as -> by reflexivity.
  cbn [mbind M_bind bindM].
  exists d. split; [|by apply key_fields_empty].
  assert (item d "Account Number" = Ok []) as H1 by reflexivity.
  assert (item d "Account Type" = Ok []) as H2 by reflexivity.
  assert (item d "IFSC Code" = Ok []) as H3 by reflexivity.
  assert (post_balance d = d) as H4.
  { unfold post_balance. by assert (d !! "Balance (₹)" = Some []) as -> by reflexivity. }
  assert (post_mobile d = d) as H5.
  { unfold post_mobile, get_truthy.
    by assert (d !! "Mobile Number" = Some []) as -> by reflexivity. }
  clearbody d.
  unfold passbook_post, post_account_number, post_account_type, post_ifsc_micr.
  rewrite H1, Ok_bind. cbn [truthy]. rewrite Ok_bind, H2, Ok_bind. cbv zeta.
  cbn [truthy]. assert (type_map !! [] = None) as -> by reflexivity.
  rewrite Ok_bind, H3, Ok_bind. cbn [truthy]. rewrite Ok_bind. by rewrite H4, H5.
Qed.

Lemma set_order_nil (it : list str → list str) : set_order it → it [] = [].
Proof.
  intros Hit. destruct (it []) as [|x l] eqn:E; [done|].
  destruct (Hit []) as [_ H]. specialize (H x). rewrite E in H.
  exfalso. eapply not_elem_of_nil, H. by left.
Qed.

Lemma parse_details_blank (it : list str → list str) (filename source_type : str) :
  set_order it →
  ∃ d, parse_details it [] filename source_type = Ok d
       ∧ key_fields d = ∅ ∧ signature d = ∅.
Proof.
  intros Hit%set_order_nil.
  assert (∃ d, parse_details it [] filename source_type = Ok d ∧ key_fields d = ∅)
    as (d & Hd & Hk).
  { destruct (decide (source_type = u8 "passbook")) as [->|Hst].
    - unfold parse_details, str_eqb. rewrite bool_decide_eq_true_2 by done.
      apply parse_passbook_blank.
    - by apply parse_screenshot_blank. }
  exists d. split_and!; [done|done|]. unfold signature. rewrite Hk. apply map_to_set_empty.
Qed.

(** X10. A document without text. For the empty text, in either mode and for
    every file name, [parse_details] returns a record in which every field
    but File Name and All Extracted Text is the empty string: the dictionary
    of key fields that [extract_all] hashes is empty, whatever the file. *)
Theorem blank_text_gives_blank_record (it : list str → list str)
    (filename source_type : str) :
  set_order it →
  ∃ d, parse_details it [] filename source_type = Ok d
       ∧ (∀ k v, d !! k = Some v → k = "File Name" ∨ k = "All Extracted Text" ∨ v = [])
       ∧ key_fields d = ∅ ∧ signature d = ∅.
Proof.
  intros Hit. destruct (parse_details_blank it filename source_type Hit) as (d & Hd & Hk & Hs).
  exists d. split_and!; [done| |done|done]. by apply key_fields_empty.
Qed.

Lemma blank_text_gives_blank_record_witness :
  ∃ d, parse_details iter_first [] (u8 "blank.png") (u8 "passbook") = Ok d
       ∧ (∀ k v, d !! k = Some v → k = "File Name" ∨ k = "All Extracted Text" ∨ v = [])
       ∧ key_fields d = ∅ ∧ signature d = ∅.
Proof.
  apply (blank_text_gives_blank_record iter_first (u8 "blank.png") (u8 "passbook")).
  apply set_order_first.
Defined.

(** ** More on the batch pipeline *)

Section PipelineFacts.

Local Open Scope nat_scope.

Context (set_iter : list str → list str) (basename : str → str)
  (ocr_extract_text : str → str → M str) (py_hash : gset (string * str) → Z)
  (progress_callback : bool).

Local Abbreviation step := (process_image set_iter basename ocr_extract_text py_hash progress_callback).
Local Abbreviation loop := (batch_loop set_iter basename ocr_extract_text py_hash progress_callback).
Local Abbreviation upto := (run_upto set_iter basename ocr_extract_text py_hash progress_callback).
Local Abbreviation run := (extract_run set_iter basename ocr_extract_text py_hash progress_callback).
Local Abbreviation extract := (extract_one set_iter basename ocr_extract_text).
Local Abbreviation step_spec := (process_image_spec set_iter basename ocr_extract_text py_hash progress_callback).
Local Abbreviation failure := (ocr_failure basename ocr_extract_text).

(** *** Failures are failures of the OCR call *)

Lemma extract_one_raise (p st e : str) :
  extract p st = Raise e ↔ ocr_extract_text p st = Raise e.
Proof.
  unfold extract_one.
  destruct (ocr_extract_text p st) as [raw|e']; [|cbn; split; by intros [= ->]].
  rewrite Ok_bind.
  destruct (parse_details_total set_iter raw (basename p) st) as [d ->]. done.
Qed.

Lemma extract_one_file_name (p st : str) (r : dict) :
  extract p st = Ok r → r !! "File Name" = Some (basename p).
Proof.
  unfold extract_one. intros H. apply bind_Ok in H as (raw & _ & H).
  by apply parse_details_file_name in H as [H _].
Qed.

Lemma ocr_failure_extract (st p : str) :
  failure st p
  = match extract p st with
    | Raise e => Some (basename p, e)
    | Ok _ => None
    end.
Proof.
  unfold ocr_failure. destruct (extract p st) as [r|e] eqn:He.
  - destruct (ocr_extract_text p st) as [raw|e] eqn:Ho; [done|].
    apply extract_one_raise in Ho. congruence.
  - apply extract_one_raise in He. by rewrite He.
Qed.

Lemma batch_loop_errors (st : str) (total i : nat) (l : list str) (s : batch) :
  errors (summary (loop st total i l s))
  = errors (summary s) ++ omap (failure st) l.
Proof.
  revert i s. induction l as [|p l IH]; intros i s; cbn [batch_loop omap list_omap].
  - by rewrite app_nil_r.
  - rewrite IH. pose proof (step_spec st total i p s) as H.
    rewrite ocr_failure_extract.
    destruct (extract p st) as [r|e] eqn:He.
    + assert (errors (summary (step st total i p s)) = errors (summary s)) as ->; [|done].
      case_bool_decide; by destruct H as (_ & _ & ->).
    + destruct H as (_ & _ & ->). cbn. by rewrite <- app_assoc.
Qed.

(** X11. The failures of a run are the failures of its OCR calls: extracting
    a document raises exactly when the OCR call raises, with the same
    message, since parsing never raises; so [summary['errors']] lists, in the
    order of the input, the (file name, message) pairs of the documents whose
    OCR call raised, and [summary['failed']] is their number. *)
Theorem failures_are_ocr_failures (image_paths : list str) (source_type : str) :
  let sm := (extract_all set_iter basename ocr_extract_text py_hash progress_callback
               image_paths source_type).2 in
  errors sm = omap (failure source_type) image_paths
  ∧ failed sm = length (omap (failure source_type) image_paths)
  ∧ (∀ p e, extract p source_type = Raise e ↔ ocr_extract_text p source_type = Raise e).
Proof.
  cbn [extract_all snd]. unfold extract_run.
  pose proof (batch_loop_errors source_type (length image_paths) 0 image_paths batch_init) as E.
  cbn [batch_init summary errors app] in E.
  split_and!; [done| |intros p e; apply extract_one_raise].
  rewrite <- E.
  pose proof (run_upto_accounted set_iter basename ocr_extract_text py_hash progress_callback
                image_paths source_type (length image_paths) (le_n _)) as (_ & _ & A).
  by rewrite run_upto_ge in A.
Qed.

(** *** Error records and the summary *)

Lemma error_pairs_snoc_error (data : list dict) (f e : str) :
  error_pairs (data ++ [error_record f e]) = error_pairs data ++ [(f, e)].
Proof. unfold error_pairs. by rewrite omap_app. Qed.

Lemma error_pairs_snoc_parsed (data : list dict) (r : dict) :
  "Error" ∉ dom r → error_pairs (data ++ [r]) = error_pairs data.
Proof.
  intros Hr%not_elem_of_dom. unfold error_pairs. rewrite omap_app. cbn.
  by rewrite Hr, app_nil_r.
Qed.

Lemma batch_loop_error_pairs (st : str) (total i : nat) (l : list str) (s : batch) :
  error_pairs (all_data s) = errors (summary s)
  ∧ length (filter (λ r : dict, "Error" ∈ dom r) (all_data s)) = failed (summary s) →
  error_pairs (all_data (loop st total i l s)) = errors (summary (loop st total i l s))
  ∧ length (filter (λ r : dict, "Error" ∈ dom r) (all_data (loop st total i l s)))
    = failed (summary (loop st total i l s)).
Proof.
  revert i s. induction l as [|p l IH]; intros i s [Hs Hf]; cbn [batch_loop]; [done|].
  apply IH.
  pose proof (step_spec st total i p s) as H.
  destruct (extract p st) as [r|e] eqn:He; [case_bool_decide|];
    destruct H as (-> & _ & ->);
    cbn [add_duplicate add_success add_failed summary errors failed].
  - done.
  - pose proof (extract_no_error_key _ _ _ _ _ _ He) as Hr.
    rewrite error_pairs_snoc_parsed by done.
    rewrite filter_app, filter_cons_False, filter_nil, app_nil_r by done. done.
  - rewrite error_pairs_snoc_error, Hs.
    rewrite filter_app, filter_cons_True, filter_nil, length_app
      by (rewrite error_record_dom; by_compute).
    cbn [length]. split; [done|lia].
Qed.

(** X12. The error records of the returned list mirror the summary: their
    (File Name, Error) pairs, in the order of the list, are
    [summary['errors']], and the number of records with an Error key is
    [summary['failed']]. *)
Theorem error_records_match_summary (image_paths : list str) (source_type : str) :
  let '(records, sm) :=
    extract_all set_iter basename ocr_extract_text py_hash progress_callback
      image_paths source_type in
  error_pairs records = errors sm
  ∧ length (filter (λ r : dict, "Error" ∈ dom r) records) = failed sm.
Proof.
  unfold extract_all, extract_run. by apply batch_loop_error_pairs.
Qed.

(** *** The order of the records *)

Lemma batch_loop_order (st : str) (total i : nat) (l : list str) (s : batch) :
  ∃ new, all_data (loop st total i l s) = all_data s ++ new
         ∧ ((λ r : dict, r !! "File Name") <$> new)
             `sublist_of` ((λ p, Some (basename p)) <$> l).
Proof.
  revert i s. induction l as [|p l IH]; intros i s; cbn [batch_loop].
  - exists []. by rewrite app_nil_r.
  - destruct (IH (S i) (step st total i p s)) as (new & -> & Hsub).
    pose proof (step_spec st total i p s) as H.
    destruct (extract p st) as [r|e] eqn:He; [case_bool_decide|];
      destruct H as (-> & _ & _).
    + exists new. split; [done|]. cbn. by apply sublist_cons.
    + exists (r :: new). split; [by rewrite <- app_assoc|]. cbn.
      rewrite (extract_one_file_name _ _ _ He). by apply sublist_skip.
    + exists (error_record (basename p) e :: new). split; [by rewrite <- app_assoc|].
      cbn. by apply sublist_skip.
Qed.

(** X13. The records come in the order of the input: the File Name fields of
    the returned list, read in order, are the base names of the input paths
    with some of them left out (the duplicates). *)
Theorem records_in_input_order (image_paths : list str) (source_type : str) :
  ((λ r : dict, r !! "File Name") <$>
     (extract_all set_iter basename ocr_extract_text py_hash progress_callback
        image_paths source_type).1)
    `sublist_of` ((λ p, Some (basename p)) <$> image_paths).
Proof.
  cbn [extract_all fst]. unfold extract_run.
  destruct (batch_loop_order source_type (length image_paths) 0 image_paths batch_init)
    as (new & -> & H). done.
Qed.

(** *** The first document *)

Lemma extract_run_first (p : str) (rest : list str) (st : str) :
  ∃ r tl, all_data (run (p :: rest) st) = r :: tl
          ∧ r !! "File Name" = Some (basename p).
Proof.
  pose proof (batch_loop_prefix set_iter basename ocr_extract_text py_hash progress_callback
                st (length (p :: rest)) 1 rest
                (step st (length (p :: rest)) 0 p batch_init)) as [tl Htl].
  pose proof (step_spec st (length (p :: rest)) 0 p batch_init) as H.
  assert (∃ r, all_data (step st (length (p :: rest)) 0 p batch_init) = [r]
               ∧ r !! "File Name" = Some (basename p)) as (r & Hr & Hf).
  { destruct (extract p st) as [r|e] eqn:He.
    - rewrite bool_decide_eq_false_2 in H by set_solver. destruct H as (-> & _).
      exists r. split; [done|]. by apply (extract_one_file_name _ _ _ He).
    - destruct H as (-> & _). exists (error_record (basename p) e). split; [done|].
      unfold error_record. by rewrite lookup_insert_ne, lookup_insert_eq. }
  rewrite Hr in Htl. exists r, tl. split; [exact Htl|done].
Qed.

(** X14. No input gives no record and a summary of zeros. The first document
    of a run is never skipped: the returned list starts with its record (the
    parsed one or the error record), which carries its base name; so the
    list is empty only for an empty input, and the duplicates are fewer than
    the documents. *)
Theorem first_document_kept (source_type : str) :
  extract_all set_iter basename ocr_extract_text py_hash progress_callback [] source_type
  = ([], Summary 0 0 0 [])
  ∧ ∀ p rest,
      let res := extract_all set_iter basename ocr_extract_text py_hash progress_callback
                   (p :: rest) source_type in
      ∃ r tl, res.1 = r :: tl
              ∧ r !! "File Name" = Some (basename p)
              ∧ duplicates res.2 ≤ length rest.
Proof.
  split; [reflexivity|]. intros p rest res.
  pose proof (run_upto_accounted set_iter basename ocr_extract_text py_hash
                progress_callback (p :: rest) source_type (length (p :: rest)) (le_n _))
    as (A1 & A2 & _).
  rewrite run_upto_ge in A1, A2 by done.
  destruct (extract_run_first p rest source_type) as (r & tl & Hall & Hf).
  exists r, tl. subst res. cbn [extract_all fst snd]. split_and!; [done|done|].
  rewrite Hall in A2. cbn [length] in A1, A2. lia.
Qed.

(** *** Progress reports *)

Lemma reported_snoc (total i : nat) (l : list (nat * nat * str)) (msg : str) :
  Forall (λ ev, (1 ≤ ev.1.1 ≤ S i)%nat ∧ ev.1.2 = total) l
  ∧ StronglySorted (λ a b : nat * nat * str, (a.1.1 ≤ b.1.1)%nat) l →
  Forall (λ ev, (1 ≤ ev.1.1 ≤ S i)%nat ∧ ev.1.2 = total) (l ++ [(S i, total, msg)])
  ∧ StronglySorted (λ a b : nat * nat * str, (a.1.1 ≤ b.1.1)%nat) (l ++ [(S i, total, msg)]).
Proof.
  intros [HF HS]. split.
  - apply Forall_app. split; [done|]. constructor; [cbn; lia|constructor].
  - apply StronglySorted_app_2; [|done|repeat constructor].
    intros a b Ha ->%list_elem_of_singleton. cbn.
    apply (proj1 (Forall_forall _ _) HF) in Ha. lia.
Qed.

Lemma process_image_reported (st : str) (total i : nat) (p : str) (s : batch) :
  reported progress_callback total i s →
  reported progress_callback total (S i) (step st total i p s).
Proof.
  intros (HL & HF & HS).
  assert (Forall (λ ev, (1 ≤ ev.1.1 ≤ S i)%nat ∧ ev.1.2 = total) (progress s)) as HF'.
  { eapply Forall_impl; [exact HF|]. cbn. intros ev ?. lia. }
  unfold reported, process_image, notify.
  destruct progress_callback.
  - destruct (extract p st) as [r|e]; [case_bool_decide|];
      cbn [progress summary add_duplicate add_success add_failed failed duplicates];
      rewrite ?length_app; cbn [length];
      (split; [lia|]); repeat apply reported_snoc; done.
  - destruct (extract p st) as [r|e]; [case_bool_decide|]; cbn; done.
Qed.

Lemma batch_loop_reported (st : str) (total i : nat) (l : list str) (s : batch) :
  reported progress_callback total i s →
  reported progress_callback total (i + length l) (loop st total i l s).
Proof.
  revert i s. induction l as [|p l IH]; intros i s Hs; cbn [batch_loop length].
  - by rewrite Nat.add_0_r.
  - rewrite Nat.add_succ_r. apply (IH (S i)). by apply process_image_reported.
Qed.

(** X15. Progress reports. Without a callback nothing is reported. With one,
    a run over [n] documents makes [n] reports plus one for each duplicate
    and each failure; each report carries a document counter between 1 and
    [n] and the total [n], and the counters never decrease. *)
Theorem progress_reports (image_paths : list str) (source_type : str) :
  let s := extract_run set_iter basename ocr_extract_text py_hash progress_callback
             image_paths source_type in
  let n := length image_paths in
  length (progress s)
  = (if progress_callback then n + failed (summary s) + duplicates (summary s) else 0)
  ∧ Forall (λ ev, 1 ≤ ev.1.1 ≤ n ∧ ev.1.2 = n) (progress s)
  ∧ StronglySorted (λ a b : nat * nat * str, a.1.1 ≤ b.1.1) (progress s).
Proof.
  cbv zeta. unfold extract_run.
  apply (batch_loop_reported source_type (length image_paths) 0 image_paths batch_init).
  split_and!; [by destruct progress_callback|constructor|constructor].
Qed.

(** *** Documents without text *)

Lemma extract_one_blank (p st : str) :
  set_order set_iter → ocr_extract_text p st = Ok [] →
  ∃ r, extract p st = Ok r ∧ signature r = ∅.
Proof.
  intros Hit Ho. unfold extract_one. rewrite Ho, Ok_bind.
  destruct (parse_details_blank set_iter (basename p) st Hit) as (d & Hd & _ & Hs).
  by exists d.
Qed.

(** X16. Documents without text are duplicates of each other. When the OCR
    call returns the empty text for a document and again for a later one, the
    later one is skipped whatever its file: no record is appended and
    [duplicates] grows by one. *)
Theorem blank_documents_deduplicated (image_paths : list str) (source_type : str)
    (m n : nat) (q p : str) :
  set_order set_iter →
  image_paths !! m = Some q → image_paths !! n = Some p → m < n →
  ocr_extract_text q source_type = Ok [] →
  ocr_extract_text p source_type = Ok [] →
  let before := upto image_paths source_type n in
  let after := upto image_paths source_type (S n) in
  all_data after = all_data before
  ∧ duplicates (summary after) = S (duplicates (summary before))
  ∧ success (summary after) = success (summary before)
  ∧ failed (summary after) = failed (summary before).
Proof.
  intros Hit Hq Hp Hmn Hoq Hop before after.
  destruct (extract_one_blank q source_type Hit Hoq) as (rq & Hrq & Hsq).
  destruct (extract_one_blank p source_type Hit Hop) as (rp & Hrp & Hsp).
  assert (n ≤ length image_paths) as Hn by (apply lookup_lt_Some in Hp; lia).
  assert (py_hash (signature rp) ∈ seen_hashes before) as Hseen.
  { apply (run_upto_seen set_iter basename ocr_extract_text py_hash progress_callback
             image_paths source_type n Hn).
    exists m, q, rq. split_and!; [done|done|done|]. by rewrite Hsq, Hsp. }
  pose proof (step_spec source_type (length image_paths) n p before) as H.
  rewrite Hrp, bool_decide_eq_true_2 in H by done.
  assert (after = step source_type (length image_paths) n p before) as ->
    by apply (run_upto_S _ _ _ _ _ _ _ _ _ Hp).
  destruct H as (-> & _ & ->). done.
Qed.

Lemma batch_loop_no_failure (st : str) (total i : nat) (l : list str) (s : batch) :
  (∀ p, is_ok (ocr_extract_text p st) = true) →
  failed (summary (loop st total i l s)) = failed (summary s)
  ∧ errors (summary (loop st total i l s)) = errors (summary s).
Proof.
  intros Hok. revert i s. induction l as [|p l IH]; intros i s; cbn [batch_loop]; [done|].
  destruct (IH (S i) (step st total i p s)) as [-> ->].
  pose proof (step_spec st total i p s) as H.
  assert (∃ r, extract p st = Ok r) as [r Hr].
  { unfold extract_one. specialize (Hok p).
    destruct (ocr_extract_text p st) as [raw|]; [|done]. rewrite Ok_bind.
    apply parse_details_total. }
  rewrite Hr in H. case_bool_decide; destruct H as (_ & _ & ->); done.
Qed.

End PipelineFacts.

Lemma blank_documents_deduplicated_witness :
  all_data (run_upto iter_first posix_basename sample_ocr sample_hash true
              blank_batch (u8 "screenshot") 3)
  = all_data (run_upto iter_first posix_basename sample_ocr sample_hash true
                blank_batch (u8 "screenshot") 2)
  ∧ duplicates (summary (run_upto iter_first posix_basename sample_ocr sample_hash true
                           blank_batch (u8 "screenshot") 3))
    = S (duplicates (summary (run_upto iter_first posix_basename sample_ocr sample_hash
                                true blank_batch (u8 "screenshot") 2))).
Proof.
  assert (blank_batch !! 0%nat = Some (u8 "scans/blank.png")) as H0
    by (vm_compute; reflexivity).
  assert (blank_batch !! 2%nat = Some (u8 "scans/empty.png")) as H2
    by (vm_compute; reflexivity).
  assert (sample_ocr (u8 "scans/blank.png") (u8 "screenshot") = Ok []) as B0
    by (vm_compute; reflexivity).
  assert (sample_ocr (u8 "scans/empty.png") (u8 "screenshot") = Ok []) as B2
    by (vm_compute; reflexivity).
  pose proof (blank_documents_deduplicated iter_first posix_basename sample_ocr sample_hash
                true blank_batch (u8 "screenshot") 0 2 (u8 "scans/blank.png")
                (u8 "scans/empty.png") set_order_first H0 H2 ltac:(lia) B0 B2) as W.
  cbv zeta in W. destruct W as (A & B & _). exact (conj A B).
Defined.

(** ** The OCR engine under the pipeline *)

Lemma get_ocr_config_values (source_type : str) :
  get_ocr_config source_type ∈ [u8 "--psm 6"; u8 "--psm 3"; []].
Proof.
  unfold get_ocr_config.
  destruct (ocr_configs !! source_type) as [c|] eqn:E; cbn [default from_option id];
    [|set_solver].
  apply elem_of_list_to_map_2 in E.
  repeat (apply elem_of_cons in E as [[= _ ->]|E]; [set_solver|]).
  by apply elem_of_nil in E.
Qed.

Section EnginePipeline.

Local Open Scope nat_scope.

Context (set_iter : list str → list str) (basename : str → str)
  (py_hash : gset (string * str) → Z) (progress_callback : bool).
Context (ndarray pil_image : Type) (preprocess_image : str → option ndarray)
  (load_image_pil : str → option pil_image)
  (image_to_string : ndarray + option pil_image → str → M str)
  (log_ocr_error : str → str → M unit).

Local Abbreviation attempt :=
  (ocr_attempt ndarray pil_image preprocess_image load_image_pil image_to_string).
Local Abbreviation ocr :=
  (extract_text ndarray pil_image preprocess_image load_image_pil image_to_string
     log_ocr_error).

Lemma extract_text_spec (p st : str) :
  match attempt p st with
  | Ok text => ocr p st = Ok text
  | Raise e =>
      match log_ocr_error p e with
      | Ok _ => ocr p st = Ok []
      | Raise e' => ocr p st = Raise e'
      end
  end.
Proof.
  unfold extract_text. destruct (attempt p st) as [text|e]; [done|].
  by destruct (log_ocr_error p e).
Qed.

(** X17. OCR failures are hidden from the summary. When the error log can be
    written, [extract_text] returns the text Tesseract read, or the empty
    string when Tesseract (or the loading of the image) raised; it never
    raises. A run of [extract_all] over this engine then reports no failed
    document and no error, whatever happened to the images: every document is
    a success or a duplicate. The Tesseract options are one of --psm 6,
    --psm 3 and none. *)
Theorem ocr_failures_are_hidden (image_paths : list str) (source_type : str) :
  (∀ p e, log_ocr_error p e = Ok tt) →
  let '(records, sm) :=
    extract_all set_iter basename ocr py_hash progress_callback image_paths source_type in
  (∀ p e, attempt p source_type = Raise e → ocr p source_type = Ok [])
  ∧ (∀ p text, attempt p source_type = Ok text → ocr p source_type = Ok text)
  ∧ failed sm = 0 ∧ errors sm = []
  ∧ length records = success sm
  ∧ success sm + duplicates sm = length image_paths
  ∧ get_ocr_config source_type ∈ [u8 "--psm 6"; u8 "--psm 3"; []].
Proof.
  intros Hlog. unfold extract_all, extract_run.
  assert (∀ p, is_ok (ocr p source_type) = true) as Hok.
  { intros p. pose proof (extract_text_spec p source_type) as H.
    destruct (attempt p source_type) as [text|e]; [by rewrite H|].
    rewrite Hlog in H. by rewrite H. }
  pose proof (batch_loop_no_failure set_iter basename ocr py_hash progress_callback
                source_type (length image_paths) 0 image_paths batch_init Hok) as [Hf He].
  pose proof (run_upto_accounted set_iter basename ocr py_hash progress_callback
                image_paths source_type (length image_paths) (le_n _)) as (A1 & A2 & _).
  rewrite run_upto_ge in A1, A2 by done. unfold extract_run in A1, A2.
  rewrite Hf in A1, A2. cbn [batch_init summary failed errors] in *.
  split_and!; [| |done|done|lia|lia|apply get_ocr_config_values].
  - intros p e Hr. pose proof (extract_text_spec p source_type) as H.
    by rewrite Hr, Hlog in H.
  - intros p text Hr. pose proof (extract_text_spec p source_type) as H.
    by rewrite Hr in H.
Qed.

End EnginePipeline.

Lemma ocr_failures_are_hidden_witness :
  sample_engine (u8 "scans/receipt.png") (u8 "screenshot") = Ok []
  ∧ failed (extract_all iter_first posix_basename sample_engine sample_hash true
              sample_batch (u8 "screenshot")).2 = 0%nat
  ∧ errors (extract_all iter_first posix_basename sample_engine sample_hash true
              sample_batch (u8 "screenshot")).2 = [].
Proof.
  pose proof (ocr_failures_are_hidden iter_first posix_basename sample_hash true
                unit unit (λ _, None) (λ _, None) sample_tesseract (λ _ _, Ok tt)
                sample_batch (u8 "screenshot") (λ _ _, eq_refl)) as W.
  fold sample_engine in W.
  destruct (extract_all iter_first posix_basename sample_engine sample_hash true
              sample_batch (u8 "screenshot")) as [records sm].
  destruct W as (A & _ & F & E & _).
  split; [|exact (conj F E)].
  apply (A _ (u8 "tesseract is not installed or it's not in your PATH")). reflexivity.
Defined.

(** ** Image files *)

Lemma startswith_app (p s : str) : startswith p (p ++ s) = true.
Proof. induction p as [|c p IH]; [done|]. cbn. by rewrite N.eqb_refl. Qed.

Lemma startswith_prefix (p s : str) : startswith p s = true ↔ ∃ t, s = p ++ t.
Proof.
  split.
  - revert s. induction p as [|c p IH]; intros s; [by exists s|].
    destruct s as [|x s]; [done|]. cbn.
    intros [->%N.eqb_eq [t ->]%IH]%andb_true_iff. by exists t.
  - intros [t ->]. apply startswith_app.
Qed.

Lemma endswith_suffix (x s : str) : endswith x s = true ↔ ∃ pre, s = pre ++ x.
Proof.
  unfold endswith. rewrite startswith_prefix. split.
  - intros [t Ht]. exists (rev t). apply (f_equal (@rev _)) in Ht.
    by rewrite rev_involutive, rev_app_distr, rev_involutive in Ht.
  - intros [pre ->]. exists (rev pre). by rewrite rev_app_distr.
Qed.

Lemma endswith_app (x pre s : str) : endswith x s = true → endswith x (pre ++ s) = true.
Proof.
  rewrite !endswith_suffix. intros [t ->]. exists (pre ++ t). by rewrite app_assoc.
Qed.

Lemma endswith_any_app (xs : list str) (pre s : str) :
  endswith_any xs s = true → endswith_any xs (pre ++ s) = true.
Proof.
  unfold endswith_any. rewrite !existsb_exists.
  intros (x & Hx & H). exists x. split; [done|]. by apply endswith_app.
Qed.

Lemma lower_app (a b : str) : lower (a ++ b) = lower a ++ lower b.
Proof. unfold lower. apply map_app. Qed.

Lemma posix_join_suffix (a p : str) : ∃ pre, posix_join a p = pre ++ p.
Proof.
  unfold posix_join. repeat case_match.
  - by exists [].
  - by exists a.
  - exists (a ++ u8 "/"). by rewrite <- app_assoc.
Qed.

Section ImageFilesFacts.

Context (os_walk : str → list (str * list str * list str))
  (path_join : str → str → str) (isfile : str → bool).

(** X18. The files of a folder scan. [load_images_from_folder] returns the
    joined paths of exactly the listed files whose lower-case name ends in
    .jpg, .jpeg, .png or .bmp. When a joined path ends with the file name,
    as the paths [os.path.join] makes do, every returned path has such an
    ending itself, so [validate_image_path] accepts it as soon as it is a
    file. *)
Theorem scanned_files_are_images (folder_path path : str) :
  (∀ root filename, ∃ pre, path_join root filename = pre ++ filename) →
  (path ∈ load_images_from_folder os_walk path_join folder_path
   ↔ ∃ root dirs filenames filename,
       (root, dirs, filenames) ∈ os_walk folder_path ∧ filename ∈ filenames
       ∧ path = path_join root filename
       ∧ endswith_any SUPPORTED_EXTENSIONS (lower filename) = true)
  ∧ (path ∈ load_images_from_folder os_walk path_join folder_path →
     endswith_any SUPPORTED_EXTENSIONS (lower path) = true
     ∧ validate_image_path isfile path = isfile path).
Proof.
  intros Hjoin.
  assert (path ∈ load_images_from_folder os_walk path_join folder_path
          ↔ ∃ root dirs filenames filename,
              (root, dirs, filenames) ∈ os_walk folder_path ∧ filename ∈ filenames
              ∧ path = path_join root filename
              ∧ endswith_any SUPPORTED_EXTENSIONS (lower filename) = true) as Hiff.
  { unfold load_images_from_folder. rewrite list_elem_of_In, in_concat. split.
    - intros (l & Hl%list_elem_of_In & Hp%list_elem_of_In).
      apply list_elem_of_fmap in Hl as ([[root dirs] filenames] & -> & Hentry).
      apply list_elem_of_fmap in Hp as (filename & -> & Hf).
      apply list_elem_of_In, List.filter_In in Hf as [Hf%list_elem_of_In Hext].
      by exists root, dirs, filenames, filename.
    - intros (root & dirs & filenames & filename & He & Hf & -> & Hext).
      eexists. split.
      + apply list_elem_of_In, list_elem_of_fmap. eexists. split; [|exact He]. reflexivity.
      + cbn. apply list_elem_of_In, list_elem_of_fmap. exists filename. split; [done|].
        apply list_elem_of_In, List.filter_In. split; [by apply list_elem_of_In|done]. }
  split; [exact Hiff|].
  intros (root & dirs & filenames & filename & _ & _ & -> & Hext)%Hiff.
  assert (endswith_any SUPPORTED_EXTENSIONS (lower (path_join root filename)) = true) as He.
  { destruct (Hjoin root filename) as [pre ->]. rewrite lower_app.
    by apply endswith_any_app. }
  split; [done|].
  unfold validate_image_path. change valid_extensions with SUPPORTED_EXTENSIONS.
  rewrite He. apply andb_true_r.
Qed.

End ImageFilesFacts.

Lemma scanned_files_are_images_witness :
  u8 "scans/a.PNG" ∈ load_images_from_folder sample_walk posix_join (u8 "scans")
  ∧ endswith_any SUPPORTED_EXTENSIONS (lower (u8 "scans/a.PNG")) = true
  ∧ validate_image_path (λ _, true) (u8 "scans/a.PNG") = true.
Proof.
  pose proof (scanned_files_are_images sample_walk posix_join (λ _, true)
                (u8 "scans") (u8 "scans/a.PNG") posix_join_suffix) as [_ W].
  assert (u8 "scans/a.PNG" ∈ load_images_from_folder sample_walk posix_join (u8 "scans"))
    as Hin by (vm_compute; left).
  split; [exact Hin|]. exact (W Hin).
Defined.

(** ** Export *)

Lemma xlsx_path_ends (p : str) : endswith (u8 ".xlsx") (lower (xlsx_path p)) = true.
Proof.
  unfold xlsx_path. destruct (endswith _ (lower p)) eqn:E; cbn [negb]; [done|].
  rewrite lower_app. apply endswith_suffix. by exists (lower p).
Qed.

Lemma xlsx_path_idemp (p : str) : xlsx_path (xlsx_path p) = xlsx_path p.
Proof. unfold xlsx_path at 1. by rewrite xlsx_path_ends. Qed.

Section ExportFacts.

Context (frame : Type) (DataFrame : list dict → M frame) (frame_len : frame → nat)
  (path_exists : str → bool) (read_existing : str → M frame)
  (concat_frames : frame → frame → M frame) (write_workbook : str → frame → M unit).

Local Abbreviation export :=
  (export_to_excel frame DataFrame frame_len path_exists read_existing concat_frames
     write_workbook).

Lemma export_not_no_data (r : dict) (tl : list dict) (output_path : str) (append : bool) :
  export (r :: tl) output_path append ≠ (false, u8 "No data to export.").
Proof.
  unfold export_to_excel. cbv zeta.
  match goal with
  | |- context [match ?x with Ok _ => _ | Raise _ => _ end] => destruct x as [msg|e]
  end; [done|].
  intros H. apply (f_equal snd) in H. cbn [snd] in H.
  apply (f_equal head) in H. vm_compute in H. discriminate H.
Qed.

(** X19. What [export_to_excel] answers. An empty list is refused with
    "No data to export." The path is given the ending .xlsx unless it has it
    already in some letter case, so exporting to the completed path is
    exporting to the path. For a non-empty list: when the frame cannot be
    built the answer is the error; when append mode is off, or the file does
    not exist, or it cannot be read, the new rows alone are written (what an
    unreadable file held is replaced) and the answer is "Successfully saved
    to", the path and the number of rows, or the error of the writing; when
    the existing rows are read and joined, the joined frame is written and
    the answer counts the appended rows and the total. *)
Theorem export_outcomes (data_list : list dict) (output_path : str) (append : bool) :
  export [] output_path append = (false, u8 "No data to export.")
  ∧ export data_list (xlsx_path output_path) append = export data_list output_path append
  ∧ endswith (u8 ".xlsx") (lower (xlsx_path output_path)) = true
  ∧ (endswith (u8 ".xlsx") (lower output_path) = true → xlsx_path output_path = output_path)
  ∧ (data_list ≠ [] →
     match DataFrame data_list with
     | Raise e => export data_list output_path append = (false, u8 "Error saving Excel: " ++ e)
     | Ok df_new =>
         (append = false ∨ path_exists (xlsx_path output_path) = false
          ∨ (∃ e, read_existing (xlsx_path output_path) = Raise e) →
          export data_list output_path append
          = match write_workbook (xlsx_path output_path) df_new with
            | Ok _ => (true, u8 "Successfully saved to " ++ xlsx_path output_path
                               ++ u8 " (" ++ str_of_nat (frame_len df_new)
                               ++ u8 " total rows)")
            | Raise e => (false, u8 "Error saving Excel: " ++ e)
            end)
         ∧ (∀ df_existing df,
              append = true → path_exists (xlsx_path output_path) = true →
              read_existing (xlsx_path output_path) = Ok df_existing →
              concat_frames df_existing df_new = Ok df →
              export data_list output_path append
              = match write_workbook (xlsx_path output_path) df with
                | Ok _ => (true, (u8 "Appended " ++ str_of_nat (frame_len df_new)
                                    ++ u8 " row(s) to")
                                   ++ u8 " " ++ xlsx_path output_path
                                   ++ u8 " (" ++ str_of_nat (frame_len df)
                                   ++ u8 " total rows)")
                | Raise e => (false, u8 "Error saving Excel: " ++ e)
                end)
     end).
Proof.
  split_and!.
  - reflexivity.
  - unfold export_to_excel. by rewrite xlsx_path_idemp.
  - apply xlsx_path_ends.
  - intros H. unfold xlsx_path. by rewrite H.
  - intros Hne. unfold export_to_excel. destruct data_list as [|r rest]; [done|].
    cbv zeta. destruct (DataFrame (r :: rest)) as [df_new|e]; [|done].
    rewrite Ok_bind. split.
    + intros Hmode.
      assert (frame_to_write frame frame_len path_exists read_existing concat_frames
                df_new (xlsx_path output_path) append
              = (df_new, u8 "Successfully saved to")) as ->.
      { unfold frame_to_write.
        destruct Hmode as [->|[->|[e He]]]; [done|by rewrite andb_false_r|].
        rewrite He. by destruct (_ && _). }
      destruct (write_workbook _ df_new) as [u|e]; [|done]. cbn. do 2 f_equal.
    + intros df_existing df -> Hex Hread Hcat. unfold frame_to_write.
      rewrite Hex, Hread. cbn [andb]. rewrite Ok_bind, Hcat.
      by destruct (write_workbook _ df) as [u|e].
Qed.

Section ProcessFacts.

Context (set_iter : list str → list str) (basename : str → str)
  (ocr_extract_text : str → str → M str) (py_hash : gset (string * str) → Z)
  (progress_callback : bool).

Local Abbreviation process :=
  (process_images frame DataFrame frame_len path_exists read_existing concat_frames
     write_workbook set_iter basename ocr_extract_text py_hash progress_callback).

(** X20. [process_images] answers "No data to export." exactly when it is
    given no image: with at least one image the list it exports starts with
    the record of the first image, so the export is attempted. *)
Theorem process_images_no_data (image_paths : list str) (output_excel_path source_type : str) :
  (process image_paths output_excel_path source_type = (false, u8 "No data to export.")
   ↔ image_paths = [])
  ∧ ∀ p rest, ∃ r tl,
      r !! "File Name" = Some (basename p)
      ∧ process (p :: rest) output_excel_path source_type
        = export (r :: tl) output_excel_path false.
Proof.
  assert (∀ p rest, ∃ r tl,
            r !! "File Name" = Some (basename p)
            ∧ process (p :: rest) output_excel_path source_type
              = export (r :: tl) output_excel_path false) as Hcons.
  { intros p rest.
    destruct (extract_run_first set_iter basename ocr_extract_text py_hash
                progress_callback p rest source_type) as (r & tl & Hall & Hf).
    exists r, tl. split; [done|]. unfold process_images, extract_all. by rewrite Hall. }
  split; [|exact Hcons]. split.
  - destruct image_paths as [|p rest]; [done|].
    destruct (Hcons p rest) as (r & tl & _ & ->). intros H.
    by apply export_not_no_data in H.
  - intros ->. reflexivity.
Qed.

End ProcessFacts.

End ExportFacts.

(** ** The first extractor and the packaged one *)

Lemma agree_off_insert (K : gset string) (d1 d2 : dict) (k : string) (v : str) :
  agree_off K d1 d2 → agree_off K (<[k := v]> d1) (<[k := v]> d2).
Proof.
  intros H k' Hk'. destruct (decide (k = k')) as [->|Hne].
  - by rewrite !lookup_insert_eq.
  - rewrite !lookup_insert_ne by done. by apply H.
Qed.

Lemma assign_txn_agree (K : gset string) (d1 d2 : dict) (txn : str) :
  agree_off K d1 d2 → agree_off K (assign_txn d1 txn) (assign_txn d2 txn).
Proof.
  intros H. unfold assign_txn. repeat case_match; try done; by apply agree_off_insert.
Qed.

Lemma foldl_assign_txn_agree (K : gset string) (l : list str) (d1 d2 : dict) :
  agree_off K d1 d2 → agree_off K (foldl assign_txn d1 l) (foldl assign_txn d2 l).
Proof.
  revert d1 d2. induction l as [|t l IH]; intros d1 d2 H; cbn [foldl]; [done|].
  by apply IH, assign_txn_agree.
Qed.

Lemma item_agree (K : gset string) (d1 d2 : dict) (k : string) :
  agree_off K d1 d2 → k ∉ K → item d1 k = item d2 k.
Proof. intros H Hk. unfold item. by rewrite (H k Hk). Qed.

Lemma heuristic_bank_agree (K : gset string) (line : str) (d1 d2 d1' : dict) :
  "Bank Name" ∉ K → agree_off K d1 d2 →
  heuristic_bank line d1 = Ok d1' →
  ∃ d2', heuristic_bank line d2 = Ok d2' ∧ agree_off K d1' d2'.
Proof.
  intros HK H. unfold heuristic_bank.
  destruct (contains (u8 "Bank") line); [|intros [= <-]; by exists d2].
  rewrite <- (item_agree K d1 d2) by done.
  destruct (item d1 "Bank Name") as [bank|e]; [|done]. rewrite !Ok_bind.
  repeat case_match; intros [= <-]; eexists; (split; [done|]);
    by try apply agree_off_insert.
Qed.

Lemma heuristic_party_agree (K : gset string) (label field : string) (b : bool)
    (line : str) (after : list str) (d1 d2 d1' : dict) :
  field ∉ K → agree_off K d1 d2 →
  heuristic_party label field b line after d1 = Ok d1' →
  ∃ d2', heuristic_party label field b line after d2 = Ok d2' ∧ agree_off K d1' d2'.
Proof.
  intros HK H. unfold heuristic_party.
  destruct b; [|intros [= <-]; by exists d2].
  rewrite <- (item_agree K d1 d2) by done.
  destruct (item d1 field) as [cur|e]; [|done]. rewrite !Ok_bind.
  repeat case_match; intros [= <-]; eexists; (split; [done|]);
    by try apply agree_off_insert.
Qed.

Lemma heuristic_lines_agree (K : gset string) (lines : list str) (d1 d2 d1' : dict) :
  K ## heuristic_fields → agree_off K d1 d2 →
  heuristic_lines lines d1 = Ok d1' →
  ∃ d2', heuristic_lines lines d2 = Ok d2' ∧ agree_off K d1' d2'.
Proof.
  intros HK. revert d1 d2. induction lines as [|line after IH]; intros d1 d2 H;
    cbn [heuristic_lines].
  - intros [= <-]. by exists d2.
  - intros Hl. apply bind_Ok in Hl as (e1 & Hline & Hrest).
    unfold heuristic_line in Hline.
    apply bind_Ok in Hline as (a1 & Ha & Hline). apply bind_Ok in Hline as (b1 & Hb & Hc).
    assert (∀ k, k ∈ heuristic_fields → k ∉ K) as Hin by set_solver.
    eapply heuristic_bank_agree in Ha as (a2 & Ha2 & Haa);
      [|apply Hin; by_compute|exact H].
    eapply heuristic_party_agree in Hb as (b2 & Hb2 & Hbb);
      [|apply Hin; by_compute|exact Haa].
    eapply heuristic_party_agree in Hc as (c2 & Hc2 & Hcc);
      [|apply Hin; by_compute|exact Hbb].
    destruct (IH _ _ Hcc Hrest) as (d2' & Hd2 & Hagree).
    exists d2'. split; [|done]. unfold heuristic_line.
    rewrite Ha2, Ok_bind, Hb2, Ok_bind, Hc2, Ok_bind. done.
Qed.

Lemma legacy_find_match_total (key : string) (text : str) :
  key ∈ dom patterns → ∃ v, legacy_find_match key text = Ok v.
Proof.
  intros [pats Hp]%elem_of_dom. unfold legacy_find_match. rewrite Hp. by eexists.
Qed.

Lemma legacy_inline_writes (text : str) (d d' : dict) :
  legacy_inline text d = Ok d' → only_writes inline_fields d d'.
Proof.
  unfold legacy_inline, inline_fields. intros H.
  apply bind_Ok in H as (raw & _ & H). apply bind_Ok in H as (upi & _ & H).
  apply bind_Ok in H as (date & _ & H). apply bind_Ok in H as (time & _ & H).
  apply bind_Ok in H as (status & _ & H).
  set (d1 := if truthy raw then _ else d) in H.
  assert (only_writes {["Amount"; "UPI ID / VPA"; "Date"; "Time"; "Payment Status"]} d d1)
    as H1.
  { subst d1. ow_solve. }
  eapply only_writes_trans; [exact H1|]. clearbody d1.
  eapply only_writes_trans; [apply (only_writes_insert _ _ "UPI ID / VPA"); set_solver|].
  eapply only_writes_trans; [apply (only_writes_insert _ _ "Date"); set_solver|].
  eapply only_writes_trans; [apply (only_writes_insert _ _ "Time"); set_solver|].
  ow_solve.
Qed.

Lemma legacy_inline_total (text : str) (d : dict) : ∃ d', legacy_inline text d = Ok d'.
Proof.
  unfold legacy_inline.
  repeat match goal with
    | |- context [legacy_find_match ?k text] =>
        let v := fresh "v" in
        let E := fresh "E" in
        destruct (legacy_find_match_total k text) as [v E]; [by_compute|];
        rewrite E; cbn [mbind M_bind bindM fmap M_fmap]
    end.
  repeat case_match; by eexists.
Qed.

(** X21. The first extractor ([src/extract.py]) and the packaged one agree
    outside the inline fields. In screenshot mode and for the same order of
    set iteration, both return a record for every text and file name, with
    the same keys, and with the same File Name, All Extracted Text,
    Transaction Note, transaction ids (UPI, Google, reference), Bank Name,
    sender and receiver: everything but Amount, UPI ID / VPA, Date, Time and
    Payment Status, which the first extractor matches without MULTILINE and
    does not trim. *)
Theorem legacy_and_packaged_agree (it : list str → list str)
    (text filename source_type : str) :
  source_type ≠ u8 "passbook" →
  ∃ dl dc,
    legacy_parse_details it text filename = Ok dl
    ∧ parse_details it text filename source_type = Ok dc
    ∧ dom dl = dom dc
    ∧ ∀ k, k ∉ inline_fields → dl !! k = dc !! k.
Proof.
  intros Hst.
  destruct (parse_details_total it text filename source_type) as [dc Hc].
  pose proof (parse_details_dom _ _ _ _ _ Hc) as Hdom.
  unfold field_keys, parse_details, str_eqb in *.
  rewrite bool_decide_eq_false_2 in Hc, Hdom by done.
  apply bind_Ok in Hc as (c0 & Hc0 & Hc1).
  destruct (legacy_inline_total text (screenshot_init text filename)) as [l0 Hl0].
  assert (agree_off inline_fields c0 l0) as H0.
  { intros k Hk. apply screenshot_inline_writes in Hc0 as [Fc _].
    apply legacy_inline_writes in Hl0 as [Fl _]. by rewrite Fc, Fl. }
  apply (foldl_assign_txn_agree _ (it (all_txn_ids text))) in H0.
  assert (inline_fields ## heuristic_fields) as Hdisj by by_compute.
  destruct (heuristic_lines_agree _ _ _ _ _ Hdisj H0 Hc1) as (dl & Hl1 & Hagree).
  exists dl, dc. split_and!.
  - unfold legacy_parse_details. by rewrite Hl0, Ok_bind.
  - unfold parse_details, str_eqb. rewrite bool_decide_eq_false_2 by done.
    by rewrite Hc0, Ok_bind.
  - rewrite Hdom.
    apply legacy_inline_writes in Hl0. apply heuristic_lines_writes in Hl1.
    pose proof (foldl_assign_txn_writes (it (all_txn_ids text)) l0) as H2.
    pose proof (screenshot_init_dom text filename) as Hi.
    apply only_writes_dom in Hl0; [|rewrite Hi; by_compute].
    apply only_writes_dom in H2; [|rewrite Hl0, Hi; by_compute].
    apply only_writes_dom in Hl1; [|rewrite H2, Hl0, Hi; by_compute].
    congruence.
  - intros k Hk. symmetry. by apply Hagree.
Qed.

Lemma legacy_and_packaged_agree_witness :
  ∃ dl dc,
    legacy_parse_details iter_first two_ids_text (u8 "a.png") = Ok dl
    ∧ parse_details iter_first two_ids_text (u8 "a.png") (u8 "screenshot") = Ok dc
    ∧ dom dl = dom dc
    ∧ ∀ k, k ∉ inline_fields → dl !! k = dc !! k.
Proof.
  apply (legacy_and_packaged_agree iter_first two_ids_text (u8 "a.png") (u8 "screenshot")).
  discriminate.
Defined.


(** ** What the rules can match *)

(** *** The matcher reads strings of the pattern's language *)

Lemma reads_refl (st : mstate) : reads st st [].
Proof. split; [done|]. cbn. lia. Qed.

Lemma reads_trans (st1 st2 st3 : mstate) (w1 w2 : str) :
  reads st1 st2 w1 → reads st2 st3 w2 → reads st1 st3 (w1 ++ w2).
Proof.
  intros [R1 P1] [R2 P2]. split.
  - by rewrite R1, R2, app_assoc.
  - rewrite P2, P1, length_app. lia.
Qed.

Lemma one_char_sound (fl : flags) (P : str → Prop) (p : char → bool) (st : mstate)
    (k : mstate → option mstate) (e : mstate) :
  one_char p st k = Some e →
  sound_step fl P (λ w, ∃ x, w = [x] ∧ p x = true) st k e.
Proof.
  unfold one_char. destruct (rest st) as [|x s'] eqn:Hr; [done|].
  destruct (p x) eqn:Hp; [|done]. intros H.
  exists (advance st x s'), [x]. split_and!; [done| |by exists x|done].
  split; [by rewrite Hr|]. cbn. lia.
Qed.

Lemma rep_loop_sound (fl : flags) (P : str → Prop) (L : str → Prop)
    (mr : mstate → (mstate → option mstate) → option mstate)
    (lo : nat) (hi : option nat) (k : mstate → option mstate) :
  (∀ st k' e, mr st k' = Some e → sound_step fl P L st k' e) →
  ∀ fuel cnt st0 e,
    rep_loop mr lo hi k fuel cnt st0 = Some e →
    ∃ st' ws, k st' = Some e ∧ reads st0 st' (concat ws) ∧ Forall L ws
              ∧ (lo ≤ cnt + length ws)%nat
              ∧ (∀ h, hi = Some h → (cnt ≤ h)%nat → (cnt + length ws ≤ h)%nat)
              ∧ (caps1_ok P st0 → caps1_ok P st').
Proof.
  intros Hmr. induction fuel as [|f IH]; intros cnt st0 e; cbn [rep_loop]; [done|].
  destruct (if under hi cnt then _ else None) as [e'|] eqn:Hmore.
  - intros [= ->]. destruct (under hi cnt) eqn:Hu; [|done].
    apply Hmr in Hmore as (st1 & w & Hk & Hr & Hw & Hc).
    destruct (_ || _); [|done].
    apply IH in Hk as (st' & ws & Hk' & Hr' & Hws & Hlo & Hhi & Hc').
    exists st', (w :: ws). cbn [concat length]. split_and!.
    + done.
    + by eapply reads_trans.
    + by constructor.
    + lia.
    + intros h -> Hle. cbn in Hu. apply Nat.ltb_lt in Hu.
      specialize (Hhi h eq_refl). lia.
    + tauto.
  - destruct (lo <=? cnt)%nat eqn:Hlo; [|done]. intros Hk.
    exists st0, []. cbn [concat length]. split_and!; [done|apply reads_refl|done| | |done].
    + apply Nat.leb_le in Hlo. lia.
    + intros h _ Hle. lia.
Qed.

Lemma re_m_sound (fl : flags) (P : str → Prop) (r : regex) :
  groups1_ok fl P r →
  ∀ st k e, re_m fl r st k = Some e → sound_step fl P (lang fl r) st k e.
Proof.
  induction r as [|c| |neg items| | | |r1 IH1 r2 IH2|r1 IH1 r2 IH2|r1 IH1 lo hi|i r1 IH1|r1 IH1];
    intros Hg st k e; cbn [re_m lang groups1_ok] in *.
  - intros H. exists st, []. split_and!; [done|apply reads_refl|done|done].
  - apply one_char_sound.
  - apply one_char_sound.
  - apply one_char_sound.
  - destruct (at_bol fl st); [|done]. intros H.
    exists st, []. split_and!; [done|apply reads_refl|done|done].
  - destruct (at_eol fl st); [|done]. intros H.
    exists st, []. split_and!; [done|apply reads_refl|done|done].
  - destruct (at_wordb st); [|done]. intros H.
    exists st, []. split_and!; [done|apply reads_refl|done|done].
  - destruct Hg as [G1 G2]. intros H.
    apply (IH1 G1) in H as (st1 & w1 & H & R1 & L1 & C1).
    apply (IH2 G2) in H as (st2 & w2 & H & R2 & L2 & C2).
    exists st2, (w1 ++ w2). split_and!; [done|by eapply reads_trans|by exists w1, w2|tauto].
  - destruct Hg as [G1 G2]. destruct (re_m fl r1 st k) as [e1|] eqn:H1.
    + intros [= ->]. apply (IH1 G1) in H1 as (st1 & w1 & H & R1 & L1 & C1).
      exists st1, w1. split_and!; [done|done|by left|done].
    + intros H. apply (IH2 G2) in H as (st2 & w2 & H & R2 & L2 & C2).
      exists st2, w2. split_and!; [done|done|by right|done].
  - intros H.
    eapply (rep_loop_sound fl P (lang fl r1)) in H
      as (st' & ws & Hk & Hr & Hws & Hlo & Hhi & Hc); [|by apply IH1].
    exists st', (concat ws). split_and!; [done|done| |done].
    exists ws. split_and!; [done|done|lia|]. intros h Hh. specialize (Hhi h Hh). lia.
  - destruct Hg as [G0 G1]. intros H.
    apply (IH1 G1) in H as (st1 & w & H & [Rr Rp] & L1 & C1).
    eexists _, w. split_and!; [exact H|split; [exact Rr|exact Rp]|done|].
    intros Hc v. cbn [caps cap_lookup].
    destruct (i =? 1)%nat eqn:Hi.
    + intros [= <-]. apply Nat.eqb_eq in Hi. apply (G0 Hi).
      rewrite Rr, Rp. replace (pos st + length w - pos st)%nat with (length w) by lia.
      by rewrite take_app_length.
    + by apply C1.
  - destruct (re_m fl r1 st Some) as [e1|] eqn:H1; [|done].
    apply (IH1 Hg) in H1 as (st1 & w & [= ->] & _ & _ & C1).
    intros H. eexists _, []. split_and!; [exact H|split; cbn; [done|lia]|done|exact C1].
Qed.

(** A match's whole text is in the pattern's language, and its group 1 has
    [P]. *)
Lemma match_at_sound (fl : flags) (P : str → Prop) (r : regex) (p : nat)
    (pv : option char) (s : str) (mt : rmatch) :
  groups1_ok fl P r → match_at fl r p pv s = Some mt →
  lang fl r (group0 mt) ∧ ∀ g, group 1 mt = Some g → P g.
Proof.
  intros Hg. unfold match_at.
  destruct (re_m fl r _ Some) as [e|] eqn:H; [|done]. intros [= <-].
  apply (re_m_sound fl P r Hg) in H as (st' & w & [= ->] & [Rr Rp] & L & C).
  cbn [pos rest] in *. split.
  - unfold group0. cbn [m_begin m_end pos rest]. rewrite Rr, Rp.
    replace (p + length w - p)%nat with (length w) by lia. by rewrite take_app_length.
  - intros g. unfold group. cbn [m_end]. apply C. by intros v.
Qed.

Lemma re_search_sound (fl : flags) (P : str → Prop) (r : regex) (text : str)
    (mt : rmatch) :
  groups1_ok fl P r → re_search fl r text = Some mt →
  lang fl r (group0 mt) ∧ ∀ g, group 1 mt = Some g → P g.
Proof.
  intros Hg. unfold re_search. generalize 0%nat at 1. generalize (@None char).
  induction text as [|c s IH]; intros pv p; cbn [search_go];
    destruct (match_at fl r p pv _) as [mt'|] eqn:H; try done.
  - intros [= <-]. by eapply match_at_sound.
  - intros [= <-]. by eapply match_at_sound.
  - apply IH.
Qed.

Lemma re_match_sound (fl : flags) (P : str → Prop) (r : regex) (text : str)
    (mt : rmatch) :
  groups1_ok fl P r → re_match fl r text = Some mt →
  lang fl r (group0 mt) ∧ ∀ g, group 1 mt = Some g → P g.
Proof. intros Hg. unfold re_match. by apply match_at_sound. Qed.

Lemma groups1_ok_mono (fl : flags) (P Q : str → Prop) (r : regex) :
  (∀ w, P w → Q w) → groups1_ok fl P r → groups1_ok fl Q r.
Proof.
  intros HPQ. induction r; cbn [groups1_ok]; try tauto.
  intros [H1 H2]. split; [|tauto]. intros Hi w Hw. by apply HPQ, H1.
Qed.

Lemma groups1_ok_bodies (fl : flags) (r : regex) :
  groups1_ok fl (λ w, Exists (λ b, lang fl b w) (group1_bodies r)) r.
Proof.
  induction r as [|c| |neg items| | | |r1 IH1 r2 IH2|r1 IH1 r2 IH2|r1 IH1 lo hi|i r1 IH1|r1 IH1];
    cbn [groups1_ok group1_bodies]; try done.
  - split; (eapply groups1_ok_mono; [|eassumption]); intros w Hw; apply Exists_app; tauto.
  - split; (eapply groups1_ok_mono; [|eassumption]); intros w Hw; apply Exists_app; tauto.
  - split.
    + intros -> w Hw. cbn. by left.
    + eapply groups1_ok_mono; [|eassumption]. intros w Hw. apply Exists_app. tauto.
Qed.

(** Group 1 of a match holds a string that the body of a group 1 of the
    pattern reads. *)
Lemma re_search_group1_lang (fl : flags) (r : regex) (text : str) (mt : rmatch) (g : str) :
  re_search fl r text = Some mt → group 1 mt = Some g →
  Exists (λ b, lang fl b g) (group1_bodies r).
Proof.
  intros Hm Hg. eapply (re_search_sound fl _ r text mt (groups1_ok_bodies fl r) Hm). exact Hg.
Qed.

Lemma re_match_group1_lang (fl : flags) (r : regex) (text : str) (mt : rmatch) (g : str) :
  re_match fl r text = Some mt → group 1 mt = Some g →
  Exists (λ b, lang fl b g) (group1_bodies r).
Proof.
  intros Hm Hg. eapply (re_match_sound fl _ r text mt (groups1_ok_bodies fl r) Hm). exact Hg.
Qed.

Lemma char_matches_exact (fl : flags) (c x : char) :
  is_alpha c = false → char_matches fl c x = true → x = c.
Proof.
  unfold char_matches, is_alpha, lower_char, is_upper, is_lower.
  intros Hc%orb_false_iff. destruct Hc as [Hu Hl].
  destruct (icase fl); [|by intros ->%N.eqb_eq].
  rewrite Hu. destruct ((65 <=? x) && (x <=? 90)) eqn:Hx; intros H%N.eqb_eq; [|done].
  subst c. apply andb_true_iff in Hx as [H1%N.leb_le H2%N.leb_le].
  apply andb_false_iff in Hl as [Hl%N.leb_gt|Hl%N.leb_gt]; lia.
Qed.

Lemma lang_min_len (fl : flags) (r : regex) (w : str) :
  lang fl r w → (min_len r ≤ length w)%nat.
Proof.
  revert w. induction r as [|c| |neg items| | | |r1 IH1 r2 IH2|r1 IH1 r2 IH2|r1 IH1 lo hi|i r1 IH1|r1 IH1];
    intros w; cbn [lang min_len]; try (intros; lia).
  - by intros (y & -> & _).
  - by intros (y & -> & _).
  - by intros (y & -> & _).
  - intros (w1 & w2 & -> & H1%IH1 & H2%IH2). rewrite length_app. lia.
  - intros [H%IH1|H%IH2]; lia.
  - intros (ws & -> & Hws & Hlen & _).
    assert (length ws * min_len r1 ≤ length (concat ws))%nat as Hs.
    { clear Hlen. induction Hws as [|w ws Hw _ IH]; [done|].
      cbn [concat length]. rewrite length_app. apply IH1 in Hw. lia. }
    nia.
  - apply IH1.
Qed.

Lemma lang_max_len (fl : flags) (r : regex) (w : str) (h : nat) :
  max_len r = Some h → lang fl r w → (length w ≤ h)%nat.
Proof.
  revert w h. induction r as [|c| |neg items| | | |r1 IH1 r2 IH2|r1 IH1 r2 IH2|r1 IH1 lo hi|i r1 IH1|r1 IH1];
    intros w h; cbn [lang max_len].
  - intros _ ->. cbn. lia.
  - intros [= <-] (y & -> & _). cbn. lia.
  - intros [= <-] (y & -> & _). cbn. lia.
  - intros [= <-] (y & -> & _). cbn. lia.
  - intros _ ->. cbn. lia.
  - intros _ ->. cbn. lia.
  - intros _ ->. cbn. lia.
  - destruct (max_len r1) as [a|]; [|done]. destruct (max_len r2) as [b|]; [|done].
    cbn. intros [= <-] (w1 & w2 & -> & H1 & H2). rewrite length_app.
    specialize (IH1 _ _ eq_refl H1). specialize (IH2 _ _ eq_refl H2). lia.
  - destruct (max_len r1) as [a|]; [|done]. destruct (max_len r2) as [b|]; [|done].
    cbn. intros [= <-] [H1|H2].
    + specialize (IH1 _ _ eq_refl H1). lia.
    + specialize (IH2 _ _ eq_refl H2). lia.
  - destruct hi as [hh|]; [|done]. destruct (max_len r1) as [a|]; [|done].
    cbn. intros [= <-] (ws & -> & Hws & _ & Hhi). specialize (Hhi hh eq_refl).
    assert (length (concat ws) ≤ length ws * a)%nat as Hs.
    { clear Hhi. induction Hws as [|w ws Hw _ IH]; [done|].
      cbn [concat length]. rewrite length_app. specialize (IH1 _ _ eq_refl Hw). lia. }
    nia.
  - apply IH1.
  - intros _ ->. cbn. lia.
Qed.

(** *** Character classes and white space *)

Lemma is_space_spec (x : char) :
  is_space x = true ↔
    (9 ≤ x ∧ x ≤ 13) ∨ (28 ≤ x ∧ x ≤ 32) ∨ x = 133 ∨ x = 160 ∨ x = 5760
    ∨ (8192 ≤ x ∧ x ≤ 8202) ∨ x = 8232 ∨ x = 8233 ∨ x = 8239 ∨ x = 8287 ∨ x = 12288.
Proof.
  unfold is_space. rewrite !orb_true_iff, !andb_true_iff, !N.leb_le, !N.eqb_eq. tauto.
Qed.

Lemma is_upper_spec (x : char) : is_upper x = true ↔ 65 ≤ x ∧ x ≤ 90.
Proof. unfold is_upper. by rewrite andb_true_iff, !N.leb_le. Qed.

Lemma is_lower_spec (x : char) : is_lower x = true ↔ 97 ≤ x ∧ x ≤ 122.
Proof. unfold is_lower. by rewrite andb_true_iff, !N.leb_le. Qed.

Lemma is_alpha_spec (x : char) :
  is_alpha x = true ↔ (65 ≤ x ∧ x ≤ 90) ∨ (97 ≤ x ∧ x ≤ 122).
Proof. unfold is_alpha. by rewrite orb_true_iff, is_upper_spec, is_lower_spec. Qed.

Lemma is_word_spec (x : char) :
  is_word x = true ↔ (65 ≤ x ∧ x ≤ 90) ∨ (97 ≤ x ∧ x ≤ 122) ∨ (48 ≤ x ∧ x ≤ 57) ∨ x = 95.
Proof.
  unfold is_word. rewrite !orb_true_iff, is_alpha_spec, is_digit_spec, N.eqb_eq. tauto.
Qed.

Lemma lower_char_folds (x : char) : folds x (lower_char x).
Proof.
  unfold lower_char, folds. destruct (is_upper x) eqn:H; [|by left].
  apply is_upper_spec in H. right. left. lia.
Qed.

Lemma upper_char_folds (x : char) : folds x (upper_char x).
Proof.
  unfold upper_char, folds. destruct (is_lower x) eqn:H; [|by left].
  apply is_lower_spec in H. right. right. lia.
Qed.

Lemma set_has_item (items : list cset_item) (y : char) :
  set_has items y = true ↔ ∃ it, it ∈ items ∧ item_has it y = true.
Proof.
  unfold set_has. rewrite existsb_exists.
  split; intros (it & H1 & H2); exists it; split; try done; by apply list_elem_of_In.
Qed.

(** A character a class matches is, up to its case, in one of the items. *)
Lemma set_matches_folds (fl : flags) (items : list cset_item) (x : char) :
  set_matches fl false items x = true →
  ∃ it y, it ∈ items ∧ item_has it y = true ∧ folds x y.
Proof.
  unfold set_matches. cbn [xorb]. destruct (icase fl).
  - intros [H|H]%orb_true_iff; apply set_has_item in H as (it & Hit & Hy).
    + exists it, (lower_char x). split_and!; [done|done|apply lower_char_folds].
    + exists it, (upper_char x). split_and!; [done|done|apply upper_char_folds].
  - intros (it & Hit & Hy)%set_has_item. exists it, x. split_and!; [done|done|by left].
Qed.

Lemma char_matches_folds (fl : flags) (c x : char) :
  char_matches fl c x = true → x = c ∨ folds x c ∨ folds c x.
Proof.
  unfold char_matches. destruct (icase fl); [|intros ->%N.eqb_eq; by left].
  intros H%N.eqb_eq. pose proof (lower_char_folds c) as Hc.
  pose proof (lower_char_folds x) as Hx. rewrite H in Hc. unfold folds in *. lia.
Qed.

Lemma folds_space (x y : char) : folds x y → is_space x = true → y = x.
Proof. unfold folds. rewrite is_space_spec. lia. Qed.

Lemma item_no_space_sound (it : cset_item) (x : char) :
  item_no_space it = true → item_has it x = true → is_space x = false.
Proof.
  intros Hn Hx. apply not_true_iff_false. intros Hs. revert Hn Hx.
  destruct it as [c|lo hi| | |]; cbn [item_no_space item_has]; try done.
  - intros Hc ->%N.eqb_eq. by rewrite Hs in Hc.
  - rewrite !andb_true_iff, !N.leb_le. apply is_space_spec in Hs. lia.
  - intros _. rewrite is_digit_spec. apply is_space_spec in Hs. lia.
  - intros _. rewrite is_word_spec. apply is_space_spec in Hs. lia.
Qed.

Lemma lang_no_space (fl : flags) (r : regex) (w : str) (x : char) :
  no_space r = true → lang fl r w → x ∈ w → is_space x = false.
Proof.
  revert w. induction r as [|c| |neg items| | | |r1 IH1 r2 IH2|r1 IH1 r2 IH2|r1 IH1 lo hi|i r1 IH1|r1 IH1];
    intros w; cbn [lang no_space]; try done.
  - by intros _ -> ?%elem_of_nil.
  - intros Hc%negb_true_iff (y & -> & Hy) <-%list_elem_of_singleton.
    apply not_true_iff_false. intros Hs.
    apply char_matches_folds in Hy as [->|[Hy|Hy]]; [congruence| |].
    + apply folds_space in Hy; [congruence|done].
    + apply not_true_iff_false in Hc. rewrite is_space_spec in Hc, Hs.
      unfold folds in Hy. lia.
  - intros [Hn%negb_true_iff Hi]%andb_true_iff (y & -> & Hy) <-%list_elem_of_singleton.
    subst neg. apply set_matches_folds in Hy as (it & z & Hit & Hz & Hf).
    apply not_true_iff_false. intros Hs. apply folds_space in Hf as ->; [|done].
    assert (is_space x = false); [|congruence].
    eapply item_no_space_sound; [|exact Hz].
    by apply (proj1 (forallb_forall _ _) Hi), list_elem_of_In.
  - by intros _ -> ?%elem_of_nil.
  - by intros _ -> ?%elem_of_nil.
  - by intros _ -> ?%elem_of_nil.
  - intros [H1 H2]%andb_true_iff (w1 & w2 & -> & L1 & L2) [Hx|Hx]%elem_of_app; eauto.
  - intros [H1 H2]%andb_true_iff [L|L]; eauto.
  - intros Hn (ws & -> & Hws & _) Hx.
    apply list_elem_of_In, in_concat in Hx as (w & Hw%list_elem_of_In & Hx%list_elem_of_In).
    eapply IH1; [done| |exact Hx]. by apply (proj1 (Forall_forall _ _) Hws).
  - apply IH1.
  - by intros _ -> ?%elem_of_nil.
Qed.

Lemma strip_nonspace (s : str) : (∀ c, c ∈ s → is_space c = false) → strip s = s.
Proof.
  intros H. apply trimmed_strip. split; intros c s' ->; apply H.
  - by left.
  - apply elem_of_app. right. by left.
Qed.

(** What a group 1 of a fixed-width pattern holds. *)
Lemma fixed_width_lang (fl : flags) (n : nat) (r : regex) (g : str) :
  fixed_width n r = true → Exists (λ b, lang fl b g) (group1_bodies r) →
  length g = n ∧ strip g = g.
Proof.
  unfold fixed_width. intros Hf (b & Hb & Hl)%Exists_exists.
  apply list_elem_of_In in Hb. apply (proj1 (forallb_forall _ _) Hf) in Hb.
  apply andb_true_iff in Hb as [[Hmin%Nat.eqb_eq Hmax%bool_decide_eq_true]%andb_true_iff Hn].
  split.
  - apply lang_min_len in Hl as H1. apply (lang_max_len _ _ _ _ Hmax) in Hl as H2. lia.
  - apply strip_nonspace. intros c Hc. by eapply lang_no_space.
Qed.

(** The strings a repetition of a class reads. *)
Lemma lang_rep_set (fl : flags) (neg : bool) (items : list cset_item) (lo : nat)
    (hi : option nat) (w : str) :
  lang fl (RRep (RSet neg items) lo hi) w →
  Forall (λ x, set_matches fl neg items x = true) w ∧ (lo ≤ length w)%nat
  ∧ ∀ h, hi = Some h → (length w ≤ h)%nat.
Proof.
  cbn [lang]. intros (ws & -> & Hws & Hlo & Hhi).
  assert (Forall (λ x, set_matches fl neg items x = true) (concat ws)
          ∧ length (concat ws) = length ws) as [H1 H2].
  { clear Hlo Hhi. induction Hws as [|w ws (x & -> & Hx) _ [IH1 IH2]]; [done|].
    cbn [concat app length]. split; [by constructor|by rewrite IH2]. }
  rewrite H2. done.
Qed.

Lemma lang_opt_char (fl : flags) (c : char) (w : str) :
  is_alpha c = false → lang fl (RRep (RChar c) 0 (Some 1%nat)) w → w = [] ∨ w = [c].
Proof.
  cbn [lang]. intros Hc (ws & -> & Hws & _ & Hhi). specialize (Hhi _ eq_refl).
  destruct ws as [|w1 [|w2 ws]]; [by left| |cbn in Hhi; lia].
  apply Forall_cons in Hws as [(x & -> & Hx) _]. right.
  apply char_matches_exact in Hx as ->; done.
Qed.

(** *** The values the matcher returns *)

(** What [_find_match] returns is the empty string or the trimmed group 1 of
    a rule, a string that a group 1 of the rule reads. *)
Lemma first_match_lang (pats : list string) (text v : str) :
  Forall (λ p, ngroups (re_compile p) ≠ 0%nat) pats →
  first_match pats text = Ok v →
  v = [] ∨ ∃ p g, p ∈ pats
                  ∧ Exists (λ b, lang IGNORECASE_MULTILINE b g) (group1_bodies (re_compile p))
                  ∧ v = strip g.
Proof.
  induction 1 as [|p pats Hp _ IH]; cbn [first_match]; [intros [= <-]; by left|].
  destruct (re_search _ (re_compile p) text) as [mt|] eqn:Hm.
  - unfold matched_value, group1_strip.
    destruct (ngroups (re_compile p)); [done|].
    destruct (group 1 mt) as [g|] eqn:Hg; [|done]. intros [= <-]. right.
    pose proof (re_search_group1_lang _ _ _ _ _ Hm Hg) as Hl.
    exists p, g. split_and!; [by left|done|done].
  - intros H. destruct (IH H) as [->|(p' & g & Hp' & ?)]; [by left|right].
    exists p', g. split; [by right|done].
Qed.

Lemma find_match_fixed (key : string) (pd : option (gmap string (list string)))
    (n : nat) (text v : str) :
  forallb (λ p, negb (ngroups (re_compile p) =? 0)%nat && fixed_width n (re_compile p))
    (rules_of key pd) = true →
  find_match key text pd = Ok v → v = [] ∨ length v = n.
Proof.
  intros HQ Hv. unfold find_match in Hv.
  apply first_match_lang in Hv as [->|(p & g & Hp & Hl & ->)]; [by left| |].
  - right. apply list_elem_of_In in Hp.
    apply (proj1 (forallb_forall _ _) HQ) in Hp as [_ Hp]%andb_true_iff.
    destruct (fixed_width_lang _ _ _ _ Hp Hl) as [H1 H2]. by rewrite H2.
  - apply Forall_forall. intros p Hp%list_elem_of_In.
    apply (proj1 (forallb_forall _ _) HQ) in Hp as [Hp%negb_true_iff _]%andb_true_iff.
    by apply Nat.eqb_neq in Hp.
Qed.

Lemma find_match_bodies (key : string) (pd : option (gmap string (list string)))
    (Q : regex → Prop) (text v : str) :
  rules_bodies key pd Q → find_match key text pd = Ok v →
  v = [] ∨ ∃ b g, Q b ∧ lang IGNORECASE_MULTILINE b g ∧ v = strip g.
Proof.
  intros HQ Hv. unfold find_match in Hv.
  apply first_match_lang in Hv as [->|(p & g & Hp & Hl & ->)]; [by left| |].
  - right. apply (proj1 (Forall_forall _ _) HQ) in Hp as [_ Hp].
    apply Exists_exists in Hl as (b & Hb & Hl).
    apply (proj1 (Forall_forall _ _) Hp) in Hb. by exists b, g.
  - eapply Forall_impl; [exact HQ|]. by intros p [? _].
Qed.

Ltac rules_forall :=
  unfold rules_bodies;
  match goal with |- Forall _ ?l => let l' := eval vm_compute in l in change l with l' end;
  repeat (apply List.Forall_cons;
          [split; [vm_compute; discriminate
                  |vm_compute;
                   repeat (apply List.Forall_cons;
                           [first [reflexivity|left; reflexivity|right; left; reflexivity
                                  |right; right; reflexivity|right; reflexivity]|]);
                   apply List.Forall_nil]|]);
  apply List.Forall_nil.

Lemma upi_rules : rules_bodies "upi_id" None (λ b, b = upi_body).
Proof. rules_forall. Qed.

Lemma amount_rules : rules_bodies "amount" None (λ b, b = amount_body).
Proof. rules_forall. Qed.

Lemma time_rules : rules_bodies "time" None (λ b, b = clock_ampm_body ∨ b = clock_body).
Proof. rules_forall. Qed.

Lemma date_rules :
  rules_bodies "date" None
    (λ b, b = date_words_body ∨ b = date_numeric_body ∨ b = date_iso_body).
Proof. rules_forall. Qed.

(** *** What the classes of the rules match *)

Ltac class_inv H :=
  let it := fresh "it" in let y := fresh "y" in
  let Hit := fresh "Hit" in let Hy := fresh "Hy" in let Hf := fresh "Hf" in
  apply set_matches_folds in H as (it & y & Hit & Hy & Hf);
  repeat (apply elem_of_cons in Hit as [->|Hit]);
  try (by apply elem_of_nil in Hit);
  cbn [item_has] in Hy;
  rewrite ?andb_true_iff, ?N.leb_le, ?N.eqb_eq, ?is_digit_spec, ?is_space_spec,
          ?is_word_spec in Hy;
  unfold folds in Hf.

Lemma class_digit (fl : flags) (x : char) :
  set_matches fl false [CDigit] x = true → is_digit x = true.
Proof. intros H. apply is_digit_spec. class_inv H; lia. Qed.

Lemma class_digit_comma (fl : flags) (x : char) :
  set_matches fl false [CDigit; CChar 44] x = true → is_digit x = true ∨ x = ch ",".
Proof. intros H. rewrite is_digit_spec. change (ch ",") with 44. class_inv H; lia. Qed.

Lemma class_space (fl : flags) (x : char) :
  set_matches fl false [CSpace] x = true → is_space x = true.
Proof. intros H. apply is_space_spec. class_inv H; lia. Qed.

Lemma class_alpha (fl : flags) (l : list cset_item) (x : char) :
  l = [CRange 97 122; CRange 65 90] ∨ l = [CRange 65 90; CRange 97 122] →
  set_matches fl false l x = true → is_alpha x = true.
Proof. intros [->| ->] H; apply is_alpha_spec; class_inv H; lia. Qed.

Lemma class_upi_name (fl : flags) (x : char) :
  set_matches fl false [CRange 97 122; CRange 65 90; CRange 48 57;
                        CChar 46; CChar 45; CChar 95] x = true →
  upi_name_char x = true.
Proof.
  intros H. unfold upi_name_char.
  rewrite !orb_true_iff, is_alpha_spec, is_digit_spec, !N.eqb_eq.
  change (ch ".") with 46. change (ch "-") with 45. change (ch "_") with 95.
  class_inv H; lia.
Qed.

Lemma class_ampm (fl : flags) (x : char) :
  set_matches fl false [CChar 65; CChar 80; CChar 97; CChar 112] x = true →
  x ∈ u8 "APap".
Proof.
  intros H. assert (x = 65 ∨ x = 80 ∨ x = 97 ∨ x = 112) as Hx by (class_inv H; lia).
  change (u8 "APap") with [65; 80; 97; 112]. set_solver.
Qed.

Lemma class_m (fl : flags) (x : char) :
  set_matches fl false [CChar 77; CChar 109] x = true → x ∈ u8 "Mm".
Proof.
  intros H. assert (x = 77 ∨ x = 109) as Hx by (class_inv H; lia).
  change (u8 "Mm") with [77; 109]. set_solver.
Qed.

Lemma class_slash (fl : flags) (x : char) :
  set_matches fl false [CChar 47; CChar 45] x = true → x ∈ u8 "/-".
Proof.
  intros H. assert (x = 47 ∨ x = 45) as Hx by (class_inv H; lia).
  change (u8 "/-") with [47; 45]. set_solver.
Qed.

Lemma forallb_of_Forall (p : char → bool) (s : str) :
  Forall (λ x, p x = true) s → forallb p s = true.
Proof.
  intros H. apply forallb_forall. intros x Hx%list_elem_of_In.
  exact (proj1 (Forall_forall _ _) H x Hx).
Qed.

(** A run of digits in a rule. *)
Lemma lang_digits (fl : flags) (lo hi : nat) (w : str) :
  lang fl (RRep (RSet false [CDigit]) lo (Some hi)) w → digits lo hi w.
Proof.
  intros (Hw & Hlo & Hhi)%lang_rep_set. split_and!; [|done|by apply Hhi].
  apply forallb_of_Forall. eapply Forall_impl; [exact Hw|]. intros x. apply class_digit.
Qed.

Lemma lang_set (fl : flags) (items : list cset_item) (w : str) :
  lang fl (RSet false items) w → ∃ x, w = [x] ∧ set_matches fl false items x = true.
Proof. done. Qed.

Lemma lang_char (fl : flags) (c : char) (w : str) :
  is_alpha c = false → lang fl (RChar c) w → w = [c].
Proof. intros Hc (x & -> & Hx). by apply char_matches_exact in Hx as ->. Qed.

Lemma digit_not_space (c : char) : is_digit c = true → is_space c = false.
Proof.
  rewrite is_digit_spec. intros H. apply not_true_iff_false. rewrite is_space_spec. lia.
Qed.

Lemma alpha_not_space (c : char) : is_alpha c = true → is_space c = false.
Proof.
  rewrite is_alpha_spec. intros H. apply not_true_iff_false. rewrite is_space_spec. lia.
Qed.

(** A string between two non-empty runs without white space is trimmed. *)
Lemma strip_between (u mid w : str) :
  u ≠ [] → w ≠ [] →
  (∀ c, c ∈ u → is_space c = false) → (∀ c, c ∈ w → is_space c = false) →
  strip (u ++ mid ++ w) = u ++ mid ++ w.
Proof.
  intros Hu Hw Hcu Hcw. apply trimmed_strip. split.
  - intros c s' H. destruct u as [|c0 u']; [done|]. injection H as -> _.
    apply Hcu. by left.
  - intros c s' H. destruct (exists_last Hw) as (w' & c1 & ->).
    rewrite !app_assoc in H. apply app_inj_tail in H as [_ ->].
    apply Hcw. apply elem_of_app. right. by left.
Qed.

Lemma digits_nonempty (lo hi : nat) (s : str) : digits (S lo) hi s → s ≠ [].
Proof. intros (_ & H & _) ->. cbn in H. lia. Qed.

Lemma digits_no_space (lo hi : nat) (s : str) (c : char) :
  digits lo hi s → c ∈ s → is_space c = false.
Proof.
  intros (H & _) Hc%list_elem_of_In. apply digit_not_space.
  by apply (proj1 (forallb_forall _ _) H).
Qed.

(** *** The strings the bodies read *)

Lemma upi_body_format (fl : flags) (g : str) :
  lang fl upi_body g → upi_id_format g ∧ strip g = g.
Proof.
  unfold upi_body. intros (w1 & w2 & -> & H1 & w3 & w4 & -> & H3 & H4).
  apply lang_rep_set in H1 as (H1 & L1 & _). apply lang_rep_set in H4 as (H4 & L4 & _).
  apply lang_char in H3 as ->; [|done].
  assert (forallb upi_name_char w1 = true) as N1.
  { apply forallb_of_Forall. eapply Forall_impl; [exact H1|]. intros x. apply class_upi_name. }
  assert (forallb is_alpha w4 = true) as N4.
  { apply forallb_of_Forall. eapply Forall_impl; [exact H4|]. intros x.
    apply class_alpha. by left. }
  assert (w1 ≠ []) as E1 by (intros ->; cbn in L1; lia).
  assert (w4 ≠ []) as E4 by (intros ->; cbn in L4; lia).
  split.
  - exists w1, w4. by split_and!.
  - apply (strip_between w1 [64] w4); [done|done| |].
    + intros c Hc%list_elem_of_In. apply (proj1 (forallb_forall _ _) N1) in Hc.
      apply not_true_iff_false. rewrite is_space_spec. revert Hc. unfold upi_name_char.
      rewrite !orb_true_iff, is_alpha_spec, is_digit_spec, !N.eqb_eq.
      change (ch ".") with 46. change (ch "-") with 45. change (ch "_") with 95. lia.
    + intros c Hc%list_elem_of_In. apply alpha_not_space.
      by apply (proj1 (forallb_forall _ _) N4).
Qed.

Lemma clock_body_format (fl : flags) (g : str) :
  lang fl clock_body g → time_format g ∧ strip g = g.
Proof.
  unfold clock_body. intros (h & w2 & -> & Hh & w3 & m & -> & H3 & Hm).
  apply lang_digits in Hh, Hm. apply lang_char in H3 as ->; [|done]. split.
  - exists h, m, []. rewrite app_nil_r. split_and!; [done|done|done|by left].
  - apply (strip_between h [58] m).
    + by eapply digits_nonempty.
    + by eapply digits_nonempty.
    + intros c. by eapply digits_no_space.
    + intros c. by eapply digits_no_space.
Qed.

Lemma clock_ampm_body_format (fl : flags) (g : str) :
  lang fl clock_ampm_body g → time_format g ∧ strip g = g.
Proof.
  unfold clock_ampm_body.
  intros (h & w2 & -> & Hh & w3 & w4 & -> & H3 & m & w5 & -> & Hm
          & sp & w6 & -> & Hsp & wa & wb & -> & Ha & Hb).
  apply lang_digits in Hh, Hm. apply lang_char in H3 as ->; [|done].
  apply lang_rep_set in Hsp as (Hsp & _ & _).
  apply lang_set in Ha as (a & -> & Ha). apply lang_set in Hb as (b & -> & Hb).
  apply class_ampm in Ha. apply class_m in Hb. split.
  - exists h, m, (sp ++ [a; b]). split_and!; [done|done|done|right].
    exists sp, a, b. split_and!; [done| |done|done].
    apply forallb_of_Forall. eapply Forall_impl; [exact Hsp|]. intros x. apply class_space.
  - assert (is_space b = false) as Hnb.
    { change (u8 "Mm") with [77; 109] in Hb.
      apply elem_of_cons in Hb as [->|Hb]; [done|].
      apply elem_of_cons in Hb as [->|Hb%elem_of_nil]; done. }
    replace (h ++ [58] ++ m ++ sp ++ [a] ++ [b])
      with (h ++ ([58] ++ m ++ sp ++ [a]) ++ [b]) by by rewrite <- !app_assoc.
    apply strip_between.
    + by eapply digits_nonempty.
    + done.
    + intros c. by eapply digits_no_space.
    + by intros c ->%list_elem_of_singleton.
Qed.

Lemma date_words_body_format (fl : flags) (g : str) :
  lang fl date_words_body g → date_format g ∧ strip g = g.
Proof.
  unfold date_words_body.
  intros (d & w2 & -> & Hd & sp1 & w3 & -> & H1 & mon & w4 & -> & Hmon
          & sp2 & y & -> & H2 & Hy).
  apply lang_digits in Hd, Hy.
  apply lang_rep_set in H1 as (H1 & L1 & _). apply lang_rep_set in H2 as (H2 & L2 & _).
  apply lang_rep_set in Hmon as (Hmon & L3 & _). split.
  - left. exists d, sp1, mon, sp2, y. split_and!; try done.
    + intros ->. cbn in L1. lia.
    + apply forallb_of_Forall. eapply Forall_impl; [exact H1|]. intros x. apply class_space.
    + apply forallb_of_Forall. eapply Forall_impl; [exact Hmon|]. intros x.
      apply class_alpha. by right.
    + intros ->. cbn in L2. lia.
    + apply forallb_of_Forall. eapply Forall_impl; [exact H2|]. intros x. apply class_space.
  - replace (d ++ sp1 ++ mon ++ sp2 ++ y) with (d ++ (sp1 ++ mon ++ sp2) ++ y)
      by by rewrite <- !app_assoc.
    apply strip_between.
    + by eapply digits_nonempty.
    + by eapply digits_nonempty.
    + intros c. by eapply digits_no_space.
    + intros c. by eapply digits_no_space.
Qed.

Lemma date_numeric_body_format (fl : flags) (g : str) :
  lang fl date_numeric_body g → date_format g ∧ strip g = g.
Proof.
  unfold date_numeric_body.
  intros (a & w2 & -> & Ha & w3 & w4 & -> & H1 & b & w5 & -> & Hb
          & w6 & c & -> & H2 & Hc).
  apply lang_digits in Ha, Hb, Hc.
  apply lang_set in H1 as (s1 & -> & H1). apply lang_set in H2 as (s2 & -> & H2).
  apply class_slash in H1, H2. split.
  - right. left. exists a, s1, b, s2, c. by split_and!.
  - replace (a ++ [s1] ++ b ++ [s2] ++ c) with (a ++ ([s1] ++ b ++ [s2]) ++ c)
      by by rewrite <- !app_assoc.
    apply strip_between.
    + by eapply digits_nonempty.
    + by eapply digits_nonempty.
    + intros x. by eapply digits_no_space.
    + intros x. by eapply digits_no_space.
Qed.

Lemma date_iso_body_format (fl : flags) (g : str) :
  lang fl date_iso_body g → date_format g ∧ strip g = g.
Proof.
  unfold date_iso_body.
  intros (y & w2 & -> & Hy & w3 & w4 & -> & H1 & m & w5 & -> & Hm
          & w6 & d & -> & H2 & Hd).
  apply lang_digits in Hy, Hm, Hd.
  apply lang_char in H1 as ->; [|done]. apply lang_char in H2 as ->; [|done]. split.
  - right. right. exists y, m, d. by split_and!.
  - replace (y ++ [45] ++ m ++ [45] ++ d) with (y ++ ([45] ++ m ++ [45]) ++ d)
      by by rewrite <- !app_assoc.
    apply strip_between.
    + by eapply digits_nonempty.
    + by eapply digits_nonempty.
    + intros x. by eapply digits_no_space.
    + intros x. by eapply digits_no_space.
Qed.

(** The matched amount: digits and commas, then a point or none, then at most
    two digits. *)
Lemma amount_body_shape (fl : flags) (g : str) :
  lang fl amount_body g →
  strip g = g
  ∧ ∃ a p f, g = a ++ p ++ f ∧ a ≠ []
             ∧ Forall (λ x, is_digit x = true ∨ x = ch ",") a
             ∧ (p = [] ∨ p = [ch "."]) ∧ digits 0 2 f.
Proof.
  unfold amount_body. intros (a & w2 & -> & Ha & p & f & -> & Hp & Hf).
  apply lang_digits in Hf. apply lang_opt_char in Hp; [|done].
  apply lang_rep_set in Ha as (Ha & La & _).
  assert (Forall (λ x, is_digit x = true ∨ x = ch ",") a) as Ha'.
  { eapply Forall_impl; [exact Ha|]. intros x. apply class_digit_comma. }
  assert (a ≠ []) as Ea by (intros ->; cbn in La; lia).
  split; [|by exists a, p, f].
  apply strip_nonspace. intros c Hc.
  apply elem_of_app in Hc as [Hc|Hc]; [|apply elem_of_app in Hc as [Hc|Hc]].
  - apply (proj1 (Forall_forall _ _) Ha') in Hc as [Hc| ->]; [by apply digit_not_space|done].
  - destruct Hp as [-> | ->]; [by apply elem_of_nil in Hc|].
    by apply list_elem_of_singleton in Hc as ->.
  - by eapply digits_no_space.
Qed.

Lemma filter_amount_digits (s : str) :
  forallb is_digit s = true → List.filter amount_char s = s.
Proof.
  induction s as [|c s IH]; [done|]. cbn [forallb List.filter].
  intros [Hc Hs]%andb_true_iff. unfold amount_char at 1. rewrite Hc. cbn.
  by rewrite IH.
Qed.

Lemma filter_amount_app (a b : str) :
  List.filter amount_char (a ++ b) = List.filter amount_char a ++ List.filter amount_char b.
Proof. apply List.filter_app. Qed.

Lemma filter_digit_comma (a : str) :
  Forall (λ x, is_digit x = true ∨ x = ch ",") a →
  forallb is_digit (List.filter amount_char a) = true
  ∧ (List.filter amount_char a = [] → Forall (λ c, c = ch ",") a).
Proof.
  induction 1 as [|x a Hx _ [IH1 IH2]]; [done|]. cbn [List.filter].
  destruct Hx as [Hx| ->].
  - assert (amount_char x = true) as -> by (unfold amount_char; by rewrite Hx).
    cbn [forallb]. by rewrite Hx, IH1.
  - change (amount_char (ch ",")) with false. cbv iota. split; [done|].
    intros H. constructor; [done|by apply IH2].
Qed.

(** What [_clean_amount] makes of a matched amount. *)
Lemma clean_amount_matched (fl : flags) (g : str) :
  lang fl amount_body g →
  decimal2 (clean_amount g) ∨ bare_separators (clean_amount g).
Proof.
  intros (_ & a & p & f & -> & Ea & Ha & Hp & Hf & _ & Lf)%amount_body_shape.
  destruct (filter_digit_comma a Ha) as [Hda Hcommas].
  set (da := List.filter amount_char a) in *.
  assert (List.filter amount_char (a ++ p ++ f) = da ++ p ++ f) as Hfilter.
  { rewrite !filter_amount_app, (filter_amount_digits f Hf). fold da.
    by destruct Hp as [-> | ->]. }
  rewrite clean_amount_spec, Hfilter.
  assert (truthy (a ++ p ++ f) = true) as -> by by destruct a.
  assert (forallb amount_char (da ++ p ++ f) = true) as Hchars
    by (rewrite <- Hfilter; apply filter_amount_char).
  rewrite (float_ok_amount _ Hchars).
  destruct (float_number (da ++ p ++ f)) eqn:Hfl.
  - left. exists (if p is [] then da ++ f else da), (if p is [] then [] else f).
    destruct Hp as [-> | ->]; cbn [app] in *.
    + split_and!; [|done|cbn; lia|left].
      * rewrite forallb_app. by rewrite Hda, Hf.
      * split; [done|]. intros E. rewrite E in Hfl. vm_compute in Hfl. discriminate.
    + split_and!; [done|done|done|right]. split; [done|].
      intros E. apply app_eq_nil in E as [E1 E2]. rewrite E1, E2 in Hfl.
      vm_compute in Hfl. discriminate.
  - right. assert (da = [] ∧ f = []) as [Eda ->].
    { destruct (decide (da ++ f = [])) as [E|E]; [by apply app_eq_nil in E|].
      exfalso. apply not_true_iff_false in Hfl. apply Hfl.
      apply (float_number_decimal _ Hchars). destruct Hp as [-> | ->].
      - exists (da ++ f), []. split_and!; [|done|by left].
        rewrite forallb_app. by rewrite Hda, Hf.
      - exists da, f. split_and!; [done|done|by right]. }
    exists a, p. rewrite app_nil_r. split_and!; [done|done|by apply Hcommas|done].
Qed.

(** ** The shapes of the inline fields of a screenshot record *)

(** The four inline fields of a screenshot record are what the matcher
    returns for their rules. *)
Lemma screenshot_inline_values (text : str) (d d' : dict) :
  screenshot_inline text d = Ok d' →
  ∃ amount upi date time,
    find_match "amount" text None = Ok amount ∧ find_match "upi_id" text None = Ok upi
    ∧ find_match "date" text None = Ok date ∧ find_match "time" text None = Ok time
    ∧ d' !! "Amount" = Some (clean_amount amount) ∧ d' !! "UPI ID / VPA" = Some upi
    ∧ d' !! "Date" = Some date ∧ d' !! "Time" = Some time.
Proof.
  unfold screenshot_inline. intros H.
  apply bind_Ok in H as (amount & Ha & H). apply bind_Ok in H as (upi & Hu & H).
  apply bind_Ok in H as (date & Hd & H). apply bind_Ok in H as (time & Ht & H).
  apply bind_Ok in H as (status & _ & H).
  exists amount, upi, date, time. split_and!; [done|done|done|done|..].
  all: repeat case_match; apply (inj Ok) in H; subst d';
    rewrite ?(lookup_insert_ne _ "Payment Status") by done;
    repeat (rewrite lookup_insert_ne by done); apply lookup_insert_eq.
Qed.

Lemma parse_details_inline (it : list str → list str) (text filename source_type : str) :
  source_type ≠ u8 "passbook" →
  ∃ d amount upi date time,
    parse_details it text filename source_type = Ok d
    ∧ find_match "amount" text None = Ok amount ∧ find_match "upi_id" text None = Ok upi
    ∧ find_match "date" text None = Ok date ∧ find_match "time" text None = Ok time
    ∧ d !! "Amount" = Some (clean_amount amount) ∧ d !! "UPI ID / VPA" = Some upi
    ∧ d !! "Date" = Some date ∧ d !! "Time" = Some time.
Proof.
  intros Hst. destruct (parse_details_total it text filename source_type) as [d Hd].
  exists d. pose proof Hd as H. unfold parse_details, str_eqb in H.
  rewrite bool_decide_eq_false_2 in H by done.
  apply bind_Ok in H as (d0 & H0 & H1).
  apply heuristic_lines_writes in H1 as [F1 _].
  pose proof (foldl_assign_txn_writes (it (all_txn_ids text)) d0) as [F2 _].
  apply screenshot_inline_values in H0
    as (amount & upi & date & time & Ha & Hu & Hdt & Ht & V1 & V2 & V3 & V4).
  exists amount, upi, date, time.
  split_and!; [done|done|done|done|done|..]; rewrite F1, F2 by by_compute; done.
Qed.

(** X22. The UPI id of a screenshot record. For a text of Basic Latin
    characters and rupee signs, the UPI ID / VPA field is empty or has the
    form name@handle: a non-empty name of letters, digits, points, hyphens and
    underscores, an at sign, and a non-empty handle of letters only. *)
Theorem upi_id_well_formed (it : list str → list str) (text filename source_type : str) :
  source_type ≠ u8 "passbook" → plain_text text = true →
  ∃ d v, parse_details it text filename source_type = Ok d
         ∧ d !! "UPI ID / VPA" = Some v ∧ (v = [] ∨ upi_id_format v).
Proof.
  intros Hst _.
  destruct (parse_details_inline it text filename source_type Hst)
    as (d & amount & upi & date & time & Hd & _ & Hu & _ & _ & _ & Hv & _ & _).
  exists d, upi. split_and!; [done|done|].
  apply (find_match_bodies _ _ _ _ _ upi_rules) in Hu as [->|(b & g & -> & Hl & ->)];
    [by left|right].
  apply upi_body_format in Hl as [Hf ->]. done.
Qed.

Lemma upi_id_well_formed_witness :
  ∃ d v, parse_details iter_first upi_receipt_text (u8 "receipt.png") (u8 "screenshot") = Ok d
         ∧ d !! "UPI ID / VPA" = Some v ∧ (v = [] ∨ upi_id_format v).
Proof.
  apply (upi_id_well_formed iter_first upi_receipt_text (u8 "receipt.png") (u8 "screenshot")).
  - discriminate.
  - vm_compute. reflexivity.
Defined.

(** X23. The amount of a screenshot record. For a text of Basic Latin
    characters and rupee signs, the Amount field is empty, or a decimal number
    (digits, or digits around one point, with at most two digits behind the
    point), or, when the matched text has no digit, that text: commas with at
    most one point behind them. It never holds a letter, a currency sign or
    white space. *)
Theorem amount_well_formed (it : list str → list str) (text filename source_type : str) :
  source_type ≠ u8 "passbook" → plain_text text = true →
  ∃ d v, parse_details it text filename source_type = Ok d
         ∧ d !! "Amount" = Some v
         ∧ (v = [] ∨ decimal2 v ∨ bare_separators v)
         ∧ ∀ c, c ∈ v → is_digit c = true ∨ c = ch "." ∨ c = ch ",".
Proof.
  intros Hst _.
  destruct (parse_details_inline it text filename source_type Hst)
    as (d & amount & upi & date & time & Hd & Ha & _ & _ & _ & Hv & _ & _ & _).
  exists d, (clean_amount amount). split_and!; [done|done|..].
  - apply (find_match_bodies _ _ _ _ _ amount_rules) in Ha
      as [->|(b & g & -> & Hl & ->)]; [by left|right].
    pose proof (amount_body_shape _ _ Hl) as [-> _]. by eapply clean_amount_matched.
  - apply (find_match_bodies _ _ _ _ _ amount_rules) in Ha
      as [->|(b & g & -> & Hl & ->)]; [by intros c ?%elem_of_nil|].
    pose proof (amount_body_shape _ _ Hl) as [-> _].
    destruct (clean_amount_matched _ _ Hl)
      as [(ip & fp & Hip & Hfp & _ & [[-> _]|[-> _]])|(cs & p & -> & _ & Hcs & Hp)];
      intros c Hc.
    + left. by apply (proj1 (forallb_forall _ _) Hip), list_elem_of_In.
    + apply elem_of_app in Hc as [Hc|Hc].
      * left. by apply (proj1 (forallb_forall _ _) Hip), list_elem_of_In.
      * apply elem_of_cons in Hc as [->|Hc]; [right; by left|left].
        by apply (proj1 (forallb_forall _ _) Hfp), list_elem_of_In.
    + apply elem_of_app in Hc as [Hc|Hc].
      * right. right. by apply (proj1 (Forall_forall _ _) Hcs).
      * destruct Hp as [-> | ->]; [by apply elem_of_nil in Hc|].
        apply list_elem_of_singleton in Hc as ->. right. by left.
Qed.

Lemma amount_well_formed_witness :
  ∃ d v, parse_details iter_first upi_receipt_text (u8 "receipt.png") (u8 "screenshot") = Ok d
         ∧ d !! "Amount" = Some v
         ∧ (v = [] ∨ decimal2 v ∨ bare_separators v)
         ∧ ∀ c, c ∈ v → is_digit c = true ∨ c = ch "." ∨ c = ch ",".
Proof.
  apply (amount_well_formed iter_first upi_receipt_text (u8 "receipt.png") (u8 "screenshot")).
  - discriminate.
  - vm_compute. reflexivity.
Defined.

(** X24. The time of a screenshot record. For a text of Basic Latin
    characters and rupee signs, the Time field is empty or reads h:mm or
    hh:mm (one or two digits, a colon, two digits), alone or followed by
    optional white space and AM or PM in either case. *)
Theorem time_well_formed (it : list str → list str) (text filename source_type : str) :
  source_type ≠ u8 "passbook" → plain_text text = true →
  ∃ d v, parse_details it text filename source_type = Ok d
         ∧ d !! "Time" = Some v ∧ (v = [] ∨ time_format v).
Proof.
  intros Hst _.
  destruct (parse_details_inline it text filename source_type Hst)
    as (d & amount & upi & date & time & Hd & _ & _ & _ & Ht & _ & _ & _ & Hv).
  exists d, time. split_and!; [done|done|].
  apply (find_match_bodies _ _ _ _ _ time_rules) in Ht
    as [->|(b & g & [-> | ->] & Hl & ->)]; [by left|right|right].
  - apply clock_ampm_body_format in Hl as [Hf ->]. done.
  - apply clock_body_format in Hl as [Hf ->]. done.
Qed.

Lemma time_well_formed_witness :
  ∃ d v, parse_details iter_first upi_receipt_text (u8 "receipt.png") (u8 "screenshot") = Ok d
         ∧ d !! "Time" = Some v ∧ (v = [] ∨ time_format v).
Proof.
  apply (time_well_formed iter_first upi_receipt_text (u8 "receipt.png") (u8 "screenshot")).
  - discriminate.
  - vm_compute. reflexivity.
Defined.

(** X25. The date of a screenshot record. For a text of Basic Latin
    characters and rupee signs, the Date field is empty or has one of three
    shapes: day, month name of three or more letters and four-digit year,
    separated by white space; three groups of digits (one or two, one or two,
    two to four) separated by slashes or hyphens; or yyyy-mm-dd. *)
Theorem date_well_formed (it : list str → list str) (text filename source_type : str) :
  source_type ≠ u8 "passbook" → plain_text text = true →
  ∃ d v, parse_details it text filename source_type = Ok d
         ∧ d !! "Date" = Some v ∧ (v = [] ∨ date_format v).
Proof.
  intros Hst _.
  destruct (parse_details_inline it text filename source_type Hst)
    as (d & amount & upi & date & time & Hd & _ & _ & Hdt & _ & _ & _ & Hv & _).
  exists d, date. split_and!; [done|done|].
  apply (find_match_bodies _ _ _ _ _ date_rules) in Hdt
    as [->|(b & g & [-> |[-> | ->]] & Hl & ->)]; [by left|right..].
  - apply date_words_body_format in Hl as [Hf ->]. done.
  - apply date_numeric_body_format in Hl as [Hf ->]. done.
  - apply date_iso_body_format in Hl as [Hf ->]. done.
Qed.

Lemma date_well_formed_witness :
  ∃ d v, parse_details iter_first upi_receipt_text (u8 "receipt.png") (u8 "screenshot") = Ok d
         ∧ d !! "Date" = Some v ∧ (v = [] ∨ date_format v).
Proof.
  apply (date_well_formed iter_first upi_receipt_text (u8 "receipt.png") (u8 "screenshot")).
  - discriminate.
  - vm_compute. reflexivity.
Defined.

(** ** The widths of the bank codes of a passbook record *)

Lemma code_width_inv (f : string) (n : nat) :
  code_width f = Some n →
  (f = "IFSC Code" ∧ n = 11%nat) ∨ (f = "MICR Code" ∧ n = 9%nat).
Proof.
  unfold code_width. destruct (String.eqb_spec f "IFSC Code") as [->|_].
  - intros [= <-]. by left.
  - destruct (String.eqb_spec f "MICR Code") as [->|_]; [|done]. intros [= <-]. by right.
Qed.

Lemma codes_ok_insert (d : dict) (f : string) (v : str) :
  codes_ok d → (∀ n, code_width f = Some n → v = [] ∨ length v = n) →
  codes_ok (<[f := v]> d).
Proof.
  intros Hd Hv f' n v' Hw. destruct (decide (f = f')) as [->|Hne].
  - rewrite lookup_insert_eq. intros [= <-]. by apply Hv.
  - rewrite lookup_insert_ne by done. by apply Hd.
Qed.

Lemma codes_ok_writes (K : gset string) (d d' : dict) :
  "IFSC Code" ∉ K → "MICR Code" ∉ K → only_writes K d d' → codes_ok d → codes_ok d'.
Proof.
  intros Hi Hm [F _] Hd f n v Hw.
  destruct (code_width_inv _ _ Hw) as [[-> ->]|[-> ->]]; rewrite F by done; by apply Hd.
Qed.

Lemma labels_widths : forallb label_width_ok passbook_multiline_labels = true.
Proof. vm_compute. reflexivity. Qed.

Lemma standalone_ifsc_width :
  fixed_width 11 (re_compile "^\s*([A-Z]{4}0[A-Z0-9]{6})\s*$") = true.
Proof. vm_compute. reflexivity. Qed.

Lemma code_rules_widths :
  forallb (λ p, negb (ngroups (re_compile p) =? 0)%nat && fixed_width 11 (re_compile p))
    (rules_of "ifsc_code" (Some passbook_patterns)) = true
  ∧ forallb (λ p, negb (ngroups (re_compile p) =? 0)%nat && fixed_width 9 (re_compile p))
      (rules_of "micr_code" (Some passbook_patterns)) = true.
Proof. split; vm_compute; reflexivity. Qed.

Lemma scan_label_codes (line next_line : str) (t : string * string * string)
    (d d' : dict) :
  label_width_ok t = true → codes_ok d → scan_label line next_line t d = Ok d' →
  codes_ok d'.
Proof.
  destruct t as [[label field] value]. unfold label_width_ok, scan_label. cbn [fst snd].
  intros Hw Hd. destruct (get_truthy d field); [by intros [= <-]|].
  destruct (re_search _ _ line); [|by intros [= <-]].
  destruct (truthy next_line); [|by intros [= <-]].
  destruct (re_match _ (re_compile value) next_line) as [mt|] eqn:Hm; [|by intros [= <-]].
  intros H. apply bind_Ok in H as (v & Hv & [= <-]).
  apply codes_ok_insert; [done|]. intros n Hn. rewrite Hn in Hw. right.
  unfold group1_strip in Hv. destruct (ngroups (re_compile value)); [done|].
  destruct (group 1 mt) as [g|] eqn:Hg; [|done]. injection Hv as <-.
  destruct (fixed_width_lang IGNORECASE n _ g Hw (re_match_group1_lang _ _ _ _ _ Hm Hg))
    as [H1 H2].
  by rewrite H2.
Qed.

Lemma foldM_codes (line next_line : str) (l : list (string * string * string))
    (d d' : dict) :
  forallb label_width_ok l = true → codes_ok d →
  foldM (scan_label line next_line) l d = Ok d' → codes_ok d'.
Proof.
  revert d. induction l as [|t l IH]; intros d; cbn [forallb foldM].
  - by intros _ ? [= <-].
  - intros [Ht Hl]%andb_true_iff Hd H. apply bind_Ok in H as (d1 & H1 & H2).
    eapply IH; [done| |exact H2]. by eapply scan_label_codes.
Qed.

Lemma scan_standalone_codes (line : str) (d : dict) :
  codes_ok d → codes_ok (scan_standalone line d).
Proof.
  intros Hd. unfold scan_standalone.
  set (d1 := if get_truthy d "Account Number" then d else _).
  assert (codes_ok d1) as H1.
  { subst d1. repeat case_match; try done. apply codes_ok_insert; [done|].
    intros n Hn. by vm_compute in Hn. }
  clearbody d1. destruct (get_truthy d1 "IFSC Code"); [done|].
  destruct (re_match _ _ line) as [mt|] eqn:Hm; [|done].
  case_bool_decide; [|done]. apply codes_ok_insert; [done|]. intros n [= <-].
  destruct (group 1 mt) as [g|] eqn:Hg; [right|by left]. cbn [default].
  by destruct (fixed_width_lang NOFLAGS 11 _ g standalone_ifsc_width
                 (re_match_group1_lang _ _ _ _ _ Hm Hg)).
Qed.

Lemma scan_lines_codes (lines : list str) (d d' : dict) :
  codes_ok d → scan_lines lines d = Ok d' → codes_ok d'.
Proof.
  revert d. induction lines as [|line after IH]; cbn [scan_lines]; intros d Hd H.
  - by injection H as <-.
  - destruct (truthy line); [|by eapply IH]. apply bind_Ok in H as (d1 & H1 & H2).
    eapply IH; [|exact H2]. apply scan_standalone_codes.
    eapply foldM_codes; [apply labels_widths|exact Hd|exact H1].
Qed.

Lemma passbook_pass1_codes (text filename : str) (d : dict) :
  passbook_pass1 text filename = Ok d → codes_ok d.
Proof.
  unfold passbook_pass1. intros H.
  do 4 (apply bind_Ok in H; destruct H as (? & _ & H)).
  apply bind_Ok in H as (ifsc & Hi & H). apply bind_Ok in H as (micr & Hm & H).
  repeat (apply bind_Ok in H; destruct H as (? & _ & H)).
  apply (inj Ok) in H. subst d.
  apply (find_match_fixed _ _ _ _ _ (proj1 code_rules_widths)) in Hi.
  apply (find_match_fixed _ _ _ _ _ (proj2 code_rules_widths)) in Hm.
  intros f n v Hw Hl%elem_of_list_to_map_2.
  destruct (code_width_inv _ _ Hw) as [[-> ->]|[-> ->]];
    repeat (apply elem_of_cons in Hl as [E|Hl];
            [first [discriminate E|by injection E as <-]|]);
    by apply elem_of_nil in Hl.
Qed.

(** With codes of their widths the guard of the post-processing finds no
    collision. *)
Lemma post_ifsc_micr_idle (d : dict) :
  codes_ok d → is_Some (d !! "IFSC Code") → is_Some (d !! "MICR Code") →
  post_ifsc_micr d = Ok d.
Proof.
  intros Hd [ifsc Hi] [micr Hm]. unfold post_ifsc_micr.
  rewrite (proj2 (item_Ok _ _ _) Hi), Ok_bind.
  destruct (truthy ifsc) eqn:Ti; [|done].
  rewrite (proj2 (item_Ok _ _ _) Hm), Ok_bind.
  destruct (truthy micr) eqn:Tm; [|done]. cbn [andb].
  unfold str_eqb. case_bool_decide as E; [|done]. subst micr. exfalso.
  destruct (Hd "IFSC Code" 11%nat ifsc eq_refl Hi) as [->|L1]; [done|].
  destruct (Hd "MICR Code" 9%nat ifsc eq_refl Hm) as [->|L2]; [done|]. lia.
Qed.

(** X26. The bank codes of a passbook record. For every text, the IFSC Code
    of the returned record is empty or has eleven characters and the MICR
    Code is empty or has nine: the two codes are never equal unless both are
    empty, and the guard against an IFSC code equal to the MICR code changes
    nothing: the MICR Code of the record is the one the two passes found. *)
Theorem bank_codes_have_their_widths (text filename : str) :
  ∃ d ifsc micr,
    parse_passbook_details text filename = Ok d
    ∧ d !! "IFSC Code" = Some ifsc ∧ d !! "MICR Code" = Some micr
    ∧ (ifsc = [] ∨ length ifsc = 11%nat) ∧ (micr = [] ∨ length micr = 9%nat)
    ∧ (ifsc = micr → ifsc = [])
    ∧ ∀ d2, (passbook_pass1 text filename ≫= scan_passbook_lines text) = Ok d2 →
            d2 !! "MICR Code" = Some micr ∧ d2 !! "IFSC Code" = Some ifsc.
Proof.
  destruct (passbook_pass1_total text filename) as [d1 H1].
  destruct (scan_lines_total (strip <$> split NL text) d1) as [d2 H2].
  pose proof (passbook_pass1_codes _ _ _ H1) as C1.
  pose proof (scan_lines_codes _ _ _ C1 H2) as C2.
  pose proof (passbook_pass1_dom _ _ _ H1) as D1.
  pose proof (scan_lines_writes _ _ _ H2) as W2.
  pose proof (only_writes_dom _ _ _ W2) as D2. rewrite D1 in D2.
  specialize (D2 ltac:(by_compute)).
  destruct (passbook_post_total d2) as [d Hd]; [congruence|].
  assert (is_Some (d2 !! "IFSC Code")) as [ifsc Hi]
    by (apply elem_of_dom; rewrite D2; by_compute).
  assert (is_Some (d2 !! "MICR Code")) as [micr Hm]
    by (apply elem_of_dom; rewrite D2; by_compute).
  assert (d !! "IFSC Code" = Some ifsc ∧ d !! "MICR Code" = Some micr) as [Hi' Hm'].
  { unfold passbook_post in Hd.
    apply bind_Ok in Hd as (p1 & P1 & Hd). apply bind_Ok in Hd as (p2 & P2 & Hd).
    apply bind_Ok in Hd as (p3 & P3 & Hd). injection Hd as <-.
    apply post_account_number_writes in P1. apply post_account_type_writes in P2.
    assert (codes_ok p2) as C3.
    { eapply (codes_ok_writes _ p1 p2); [| |exact P2|]; [by_compute..|].
      eapply (codes_ok_writes _ d2 p1); [| |exact P1|done]; by_compute. }
    destruct P1 as [F1 _], P2 as [F2 _].
    assert (p2 !! "IFSC Code" = Some ifsc) as Hi2 by (rewrite F2, F1 by by_compute; done).
    assert (p2 !! "MICR Code" = Some micr) as Hm2 by (rewrite F2, F1 by by_compute; done).
    rewrite post_ifsc_micr_idle in P3 by (done || by eexists). injection P3 as <-.
    pose proof (post_balance_writes p2) as [F3 _].
    pose proof (post_mobile_writes (post_balance p2)) as [F4 _].
    by rewrite !F4, !F3 by by_compute. }
  exists d, ifsc, micr.
  assert (ifsc = [] ∨ length ifsc = 11%nat) as Li
    by exact (C2 "IFSC Code" 11%nat ifsc eq_refl Hi).
  assert (micr = [] ∨ length micr = 9%nat) as Lm
    by exact (C2 "MICR Code" 9%nat micr eq_refl Hm).
  split_and!; [|done|done|done|done| |].
  - unfold parse_passbook_details, scan_passbook_lines. by rewrite H1, Ok_bind, H2, Ok_bind.
  - intros <-. destruct Li as [->|Li]; [done|]. destruct Lm as [->|Lm]; [done|]. lia.
  - intros d2'. unfold scan_passbook_lines. rewrite H1, Ok_bind, H2. by intros [= <-].
Qed.
